(** * Fault-detection analyzer of the TrainTicket experiments

    A shallow embedding of [TrainTicket/analyze_fault_detection.py]: the
    fault catalog, the detection ledger and its single insertion operation,
    the structured-evidence scanner over a parsed JSON document, the
    test-method locator and the three text heuristics (over a model of the
    fragment of Python's [re] the script uses), the run over a folder with
    its case counter, and the report generator.

    Conventions of the model.
    - A Python [str] is a list of characters ([text]); the artifacts are taken
      to be ASCII, so [\w], [\s] and [str.lower] are their ASCII versions.
    - [datetime.now().strftime(...)] is the section variable [now]: the
      clock reading is an input of the run.
    - The interpreter's recursion limit is not modelled. *)

From Stdlib Require Import String Ascii ZArith Lia Bool Arith DecimalString List.
From Stdlib Require Import SpecFloat Permutation.
From Stdlib Require DecimalNat DecimalFacts.
Import ListNotations.
Open Scope string_scope.
Open Scope list_scope.

Set Warnings "-register-all".

(** ** Text *)

Definition text := list ascii.

Definition T (s : string) : list ascii := list_ascii_of_string s.
Coercion T : string >-> list.

(** The double quote and the backslash, written by code. *)
Definition dquote : ascii := "034"%char.
Definition squote : ascii := "039"%char.
Definition backslash : ascii := "092"%char.

Fixpoint text_eqb (a b : text) : bool :=
  match a, b with
  | [], [] => true
  | x :: a', y :: b' => Ascii.eqb x y && text_eqb a' b'
  | _, _ => false
  end.

(** [a == b] on optional strings: [None == None], and [None] differs from
    every string. *)
Definition opt_text_eqb (a b : option text) : bool :=
  match a, b with
  | None, None => true
  | Some x, Some y => text_eqb x y
  | _, _ => false
  end.

(** [s.startswith(p)] *)
Fixpoint startswith (p s : text) : bool :=
  match p, s with
  | [], _ => true
  | a :: p', b :: s' => Ascii.eqb a b && startswith p' s'
  | _ :: _, [] => false
  end.

(** [needle in hay] *)
Fixpoint contains (needle hay : text) : bool :=
  startswith needle hay ||
  match hay with
  | [] => false
  | _ :: hay' => contains needle hay'
  end.

(** [s.replace(old, new)] for a non-empty [old]: occurrences are replaced
    from left to right, without overlap.  [skip] counts the characters of
    the occurrence just replaced that are still to be passed over. *)
Fixpoint replace_from (old new s : text) (skip : nat) : text :=
  match s with
  | [] => []
  | c :: s' =>
      match skip with
      | S k => replace_from old new s' k
      | O =>
          if startswith old s
          then new ++ replace_from old new s' (length old - 1)
          else c :: replace_from old new s' 0
      end
  end.

Definition replace (old new s : text) : text := replace_from old new s 0.

(** [s[a:b]] for non-negative bounds. *)
Definition slice (a b : nat) (s : text) : text := firstn (b - a) (skipn a s).

Definition is_upper (c : ascii) : bool :=
  ((65 <=? nat_of_ascii c) && (nat_of_ascii c <=? 90))%nat.

Definition lower_char (c : ascii) : ascii :=
  if is_upper c then ascii_of_nat (nat_of_ascii c + 32) else c.

(** [s.lower()] *)
Definition lower (s : text) : text := map lower_char s.

(** [str(n)] for a non-negative integer. *)
Definition str_of_nat (n : nat) : text :=
  T (NilEmpty.string_of_uint (Nat.to_uint n)).

(** ** Python values

    A parsed JSON document, as [json.load] returns it: [None], [bool],
    [int], [float] (a binary64 value), [str], [list] and [dict] (insertion
    ordered). *)

Inductive json : Type :=
| JNull
| JBool (b : bool)
| JInt (z : Z)
| JFloat (f : spec_float)
| JStr (s : text)
| JList (items : list json)
| JDict (fields : list (text * json)).

(** [obj.get(key)]: [None] when the key is absent. *)
Fixpoint dict_get (fields : list (text * json)) (key : text) : option json :=
  match fields with
  | [] => None
  | (k, v) :: rest => if text_eqb k key then Some v else dict_get rest key
  end.

(** Dictionary keys.  Python identifies hashable values up to [==], so that
    [True], [1] and [1.0] are one key; a key is kept here in a normal form:
    a number is zero, or [(-1)^neg * m * 2^e] with [m] odd.  The decoder
    returns one shared object for every [NaN], so [NaN] is one key too.
    Lists and dicts are unhashable. *)
Inductive pykey : Type :=
| KNone
| KStr (s : text)
| KZero
| KNum (neg : bool) (m : positive) (e : Z)
| KInf (neg : bool)
| KNan.

Fixpoint odd_part (m : positive) (e : Z) : positive * Z :=
  match m with
  | xO m' => odd_part m' (e + 1)
  | _ => (m, e)
  end.

Definition knum (neg : bool) (m : positive) (e : Z) : pykey :=
  let '(m', e') := odd_part m e in KNum neg m' e'.

Definition key_of_Z (z : Z) : pykey :=
  match z with
  | Z0 => KZero
  | Zpos p => knum false p 0
  | Zneg p => knum true p 0
  end.

Definition key_of_float (f : spec_float) : pykey :=
  match f with
  | S754_zero _ => KZero
  | S754_infinity s => KInf s
  | S754_nan => KNan
  | S754_finite s m e => knum s m e
  end.

(** [hash(v)]: the key of a hashable value, [None] when [v] is unhashable
    (using it as a key raises [TypeError]). *)
Definition key_of (v : json) : option pykey :=
  match v with
  | JNull => Some KNone
  | JBool b => Some (key_of_Z (if b then 1 else 0))
  | JInt z => Some (key_of_Z z)
  | JFloat f => Some (key_of_float f)
  | JStr s => Some (KStr s)
  | JList _ | JDict _ => None
  end.

Definition pykey_eqb (a b : pykey) : bool :=
  match a, b with
  | KNone, KNone => true
  | KStr s, KStr t => text_eqb s t
  | KZero, KZero => true
  | KNum n m e, KNum n' m' e' => Bool.eqb n n' && Pos.eqb m m' && Z.eqb e e'
  | KInf n, KInf n' => Bool.eqb n n'
  | KNan, KNan => true
  | _, _ => false
  end.

(** [v == True], for [v] the result of [obj.get(...)]: true for [True], [1]
    and [1.0] only. *)
Definition equals_True (v : option json) : bool :=
  match v with
  | Some (JBool b) => b
  | Some (JInt z) => Z.eqb z 1
  | Some (JFloat f) => pykey_eqb (key_of_float f) (KNum false 1 0)
  | _ => false
  end.

(** ** Detection records and the ledger *)

(** The [details] dictionary of a detection: the keys the script writes,
    each present or absent. *)
Record detection : Type := mkDetection {
  d_source : text;
  d_path : option text;
  d_message : option json;
  d_details : option json;
  d_context : option text;
  d_test_class : option text;
  d_test_method : option text;
  d_api_path : option text;
  d_timestamp : text
}.

(** [self.detected_faults]: a [defaultdict(list)], in insertion order. *)
Definition ledger := list (pykey * list detection).

(** [self.detected_faults.get(fault_name, [])] *)
Fixpoint ledger_get (L : ledger) (k : pykey) : list detection :=
  match L with
  | [] => []
  | (k', ds) :: L' => if pykey_eqb k' k then ds else ledger_get L' k
  end.

(** [self.detected_faults[fault_name].append(details)]: the [defaultdict]
    creates the entry when the key is missing. *)
Fixpoint ledger_append (L : ledger) (k : pykey) (d : detection) : ledger :=
  match L with
  | [] => [(k, [d])]
  | (k', ds) :: L' =>
      if pykey_eqb k' k then (k', ds ++ [d]) :: L'
      else (k', ds) :: ledger_append L' k d
  end.

(** The duplicate test of [_record_detection]. *)
Definition is_duplicate (details existing : detection) : bool :=
  opt_text_eqb (d_test_method existing) (d_test_method details) &&
  text_eqb (d_source existing) (d_source details).

(** [_record_detection(fault_name, details)] *)
Definition _record_detection (fault_name : pykey) (details : detection)
    (L : ledger) : ledger :=
  if existsb (is_duplicate details) (ledger_get L fault_name)
  then L
  else ledger_append L fault_name details.

(** The pair on which the ledger deduplicates. *)
Definition origin (d : detection) : text * option text :=
  (d_source d, d_test_method d).

(** The dedup contract: under every key the [(source, test_method)] pairs
    are pairwise distinct. *)
Definition dedup_ok (L : ledger) : Prop :=
  forall k, NoDup (map origin (ledger_get L k)).

(** A run of insertions. *)
Definition record_all (ops : list (pykey * detection)) (L : ledger) : ledger :=
  fold_left (fun L kd => _record_detection (fst kd) (snd kd) L) ops L.

(** ** The fault catalog *)

Record fault : Type := mkFault {
  faultName : text;
  service : text;
  api : list text;
  description : text
}.

Definition INJECTED_FAULTS : list fault := [
  mkFault "INVALID_CONTACTS_NAME_FAULT" "ts-admin-order-service"
    [T "POST /api/v1/adminorderservice/adminorder";
     T "PUT /api/v1/adminorderservice/adminorder"]
    "Rejects order when contactsName is null, empty, or purely numeric";
  mkFault "INVALID_SEAT_NUMBER_FAULT" "ts-admin-order-service"
    [T "POST /api/v1/adminorderservice/adminorder";
     T "PUT /api/v1/adminorderservice/adminorder"]
    "Rejects order when seatNumber doesn't follow format (digits + uppercase letter)";
  mkFault "INVALID_PRICE_RATE_FAULT" "ts-admin-basic-info-service"
    [T "POST /api/v1/adminbasicservice/adminbasic/prices"]
    "Rejects price creation when price rates are non-positive";
  mkFault "INVALID_ROUTE_ID_FAULT" "ts-admin-basic-info-service"
    [T "POST /api/v1/adminbasicservice/adminbasic/prices"]
    "Rejects price creation when routeId is null or empty";
  mkFault "INVALID_STATION_NAME_FAULT" "ts-travel-plan-service"
    [T "POST /api/v1/travelplanservice/travelPlan/minStation"]
    "Rejects travel plan when station names are null or empty";
  mkFault "INVALID_STATION_LENGTH_FAULT" "ts-travel-plan-service"
    [T "POST /api/v1/travelplanservice/travelPlan/minStation"]
    "Rejects travel plan when station name length is outside valid range";
  mkFault "INVALID_TRIP_ID_FORMAT_FAULT" "ts-admin-travel-service"
    [T "DELETE /api/v1/admintravelservice/admintravel/{tripId}"]
    "Rejects trip deletion when tripId is null or empty";
  mkFault "INVALID_TRIP_ID_LENGTH_FAULT" "ts-admin-travel-service"
    [T "DELETE /api/v1/admintravelservice/admintravel/{tripId}"]
    "Rejects trip deletion when tripId length is invalid";
  mkFault "INSUFFICIENT_STATIONS_FAULT" "ts-admin-route-service"
    [T "POST /api/v1/adminrouteservice/adminroute"]
    "Rejects route creation when station list has fewer than 2 stations";
  mkFault "INVALID_STATION_NAME_LENGTH_FAULT" "ts-admin-route-service"
    [T "POST /api/v1/adminrouteservice/adminroute"]
    "Rejects route creation when station name length is outside valid range"
].

(** ** Statements that may raise

    A loop body either completes or raises with a message; the ledger it has
    mutated so far survives the exception. *)

Inductive outcome : Type :=
| Done (L : ledger)
| Raised (L : ledger) (message : text).

Definition ledger_of (o : outcome) : ledger :=
  match o with
  | Done L => L
  | Raised L _ => L
  end.

(** [for x in xs: body(x)] *)
Fixpoint for_each {A : Type} (xs : list A) (body : A -> ledger -> outcome)
    (L : ledger) : outcome :=
  match xs with
  | [] => Done L
  | x :: xs' =>
      match body x L with
      | Done L' => for_each xs' body L'
      | Raised L' e => Raised L' e
      end
  end.

(** [enumerate(xs, start)] *)
Fixpoint enumerate {A : Type} (start : nat) (xs : list A) : list (nat * A) :=
  match xs with
  | [] => []
  | x :: xs' => (start, x) :: enumerate (S start) xs'
  end.

(** ** Regular expressions

    The fragment of Python's [re] that the script's patterns use: a pattern
    is a sequence of single characters and character classes, each possibly
    repeated ([*], [+], greedy, or [*?], lazy), with at most one capturing
    group.  Matching is by backtracking, in the priority order of [re]. *)

Inductive cclass : Type :=
| Lit (c : ascii)
| Word
| Space
| Any
| OneOf (cs : list ascii)
| NoneOf (cs : list ascii).

Inductive item : Type :=
| Chr (k : cclass)
| Many (k : cclass) (min : nat) (greedy : bool)
| Open
| Close.

Definition regex := list item.

Definition code_in (lo hi : nat) (c : ascii) : bool :=
  ((lo <=? nat_of_ascii c) && (nat_of_ascii c <=? hi))%nat.

(** [\w]: letters, digits and the underscore. *)
Definition is_word (c : ascii) : bool :=
  code_in 48 57 c || code_in 65 90 c || code_in 97 122 c || code_in 95 95 c.

(** [\s]: the characters for which [str.isspace] holds. *)
Definition is_space (c : ascii) : bool :=
  code_in 9 13 c || code_in 28 32 c.

Definition in_class (k : cclass) (c : ascii) : bool :=
  match k with
  | Lit a => Ascii.eqb a c
  | Word => is_word c
  | Space => is_space c
  | Any => true
  | OneOf cs => existsb (Ascii.eqb c) cs
  | NoneOf cs => negb (existsb (Ascii.eqb c) cs)
  end.

(** The pattern of a literal string: [re.escape(s)]. *)
Definition literal (s : text) : regex := map (fun c => Chr (Lit c)) s.

(** Length of the longest prefix of [s] made of characters of [k]. *)
Fixpoint run_length (k : cclass) (s : text) : nat :=
  match s with
  | [] => 0
  | c :: s' => if in_class k c then S (run_length k s') else 0
  end.

(** The repetition counts to try, in order: from the longest run down to
    [min] when greedy, from [min] up when lazy. *)
Definition counts (min n : nat) (greedy : bool) : list nat :=
  let up := seq min (S n - min) in
  if greedy then rev up else up.

Fixpoint first_some {A B : Type} (f : A -> option B) (xs : list A) : option B :=
  match xs with
  | [] => None
  | x :: xs' =>
      match f x with
      | Some r => Some r
      | None => first_some f xs'
      end
  end.

(** [match_here r s pos opened g]: match [r] at the head of [s], which
    stands [pos] characters after the start of the match; [opened] is where
    the group was opened and [g] its span once closed.  The result is the
    length of the match and the span of the group, both relative to the
    start of the match. *)
Fixpoint match_here (r : regex) (s : text) (pos : nat) (opened : option nat)
    (g : option (nat * nat)) : option (nat * option (nat * nat)) :=
  match r with
  | [] => Some (pos, g)
  | Chr k :: r' =>
      match s with
      | c :: s' => if in_class k c then match_here r' s' (S pos) opened g else None
      | [] => None
      end
  | Many k min greedy :: r' =>
      first_some (fun n => match_here r' (skipn n s) (pos + n) opened g)
        (counts min (run_length k s) greedy)
  | Open :: r' => match_here r' s pos (Some pos) g
  | Close :: r' =>
      match_here r' s pos opened
        (match opened with
         | Some a => Some (a, pos)
         | None => g
         end)
  end.

(** A match object: [start()], [end()] and [group(1)]. *)
Record re_match : Type := mkMatch {
  m_start : nat;
  m_end : nat;
  m_group1 : option text
}.

Definition match_at (r : regex) (s : text) (i : nat) : option (nat * re_match) :=
  match match_here r s 0 None None with
  | Some (len, g) =>
      Some (len, mkMatch i (i + len)
                   (match g with
                    | Some (a, b) => Some (slice a b s)
                    | None => None
                    end))
  | None => None
  end.

(** The non-overlapping matches of [r] in the text, from left to right; [s]
    is the rest of the text from offset [i] and [skip] the number of its
    leading characters that the previous match consumed.  None of the
    script's patterns matches the empty string; an empty match would be
    reported and the scan moved on by one character. *)
Fixpoint scan (r : regex) (s : text) (i skip : nat) : list re_match :=
  match s with
  | [] =>
      match skip, match_at r [] i with
      | O, Some (_, m) => [m]
      | _, _ => []
      end
  | _ :: s' =>
      match skip with
      | S k => scan r s' (S i) k
      | O =>
          match match_at r s i with
          | Some (len, m) => m :: scan r s' (S i) (len - 1)
          | None => scan r s' (S i) 0
          end
      end
  end.

(** [re.finditer(r, s)] *)
Definition finditer (r : regex) (s : text) : list re_match := scan r s 0 0.

(** [re.search(r, s)], as a truth value. *)
Definition search (r : regex) (s : text) : bool :=
  match finditer r s with
  | [] => false
  | _ :: _ => true
  end.

(** [r'def (test_\w+)\(self\):'] *)
Definition test_def_re : regex :=
  literal "def " ++ [Open] ++ literal "test_" ++ [Many Word 1 true; Close] ++
  literal "(self):".

Definition quotes : cclass := OneOf [dquote; squote].

(** The pattern of the marker pair, compiled with [re.DOTALL]; with Q for
    the class of the two quote characters:
    [Q isInjected Q \s* : \s* [Tt]rue .*? Q faultName Q \s* : \s* Q (\w+) Q]. *)
Definition injected_re : regex :=
  [Chr quotes] ++ literal "isInjected" ++
  [Chr quotes; Many Space 0 true; Chr (Lit ":"); Many Space 0 true;
   Chr (OneOf ["T"; "t"]%char)] ++ literal "rue" ++
  [Many Any 0 false; Chr quotes] ++ literal "faultName" ++
  [Chr quotes; Many Space 0 true; Chr (Lit ":"); Many Space 0 true;
   Chr quotes; Open; Many Word 1 true; Close; Chr quotes].

(** The replacement text of the path placeholder, a raw string of seven
    characters: an opening bracket, a caret, a double quote, a backslash, a
    single quote, a closing bracket and a plus sign. *)
Definition nonquote_src : text :=
  "[^" ++ [dquote; backslash; squote] ++ "]+".

(** The characters with a meaning of their own in a pattern. *)
Definition is_special (c : ascii) : bool :=
  existsb (Ascii.eqb c) (T ".^$*+?()[]|{}" ++ [backslash]).

(** [re.compile] on the patterns built from API paths: the placeholder
    replacement is one or more characters other than the two quotes, an
    opening brace that starts no repetition count is an ordinary character,
    and so is a closing brace; any other special character is outside the
    fragment ([None]). *)
Fixpoint compile_from (p : text) (skip : nat) : option regex :=
  match p with
  | [] => Some []
  | c :: p' =>
      match skip with
      | S k => compile_from p' k
      | O =>
          if startswith nonquote_src p then
            option_map (cons (Many (NoneOf [dquote; squote]) 1 true))
              (compile_from p' (length nonquote_src - 1))
          else if Ascii.eqb c "{" then
            match p' with
            | d :: _ =>
                if code_in 48 57 d || Ascii.eqb d "," || Ascii.eqb d "}"
                then None
                else option_map (cons (Chr (Lit c))) (compile_from p' 0)
            | [] => Some [Chr (Lit c)]
            end
          else if Ascii.eqb c "}" then
            option_map (cons (Chr (Lit c))) (compile_from p' 0)
          else if is_special c then None
          else option_map (cons (Chr (Lit c))) (compile_from p' 0)
      end
  end.

Definition compile (p : text) : option regex := compile_from p 0.

(** ** The structured-evidence scanner *)

Section Analyzer.

(** The clock reading [datetime.now().strftime("%Y-%m-%d %H:%M:%S")]. *)
Variable now : text.

Definition or_default (v : option json) (default : json) : json :=
  match v with
  | Some x => x
  | None => default
  end.

(** [f"{path}.{key}" if path else key] *)
Definition child_path (path key : text) : text :=
  match path with
  | [] => key
  | _ :: _ => path ++ "." ++ key
  end.

(** [f"{path}[{i}]"] *)
Definition item_path (path : text) (i : nat) : text :=
  path ++ "[" ++ str_of_nat i ++ "]".

(** The record emitted at a node whose [isInjected] flag is true. *)
Definition marker_details (obj : list (text * json)) (source path : text)
    : detection :=
  {| d_source := source;
     d_path := Some path;
     d_message := Some (or_default (dict_get obj "message") (JStr ""));
     d_details := Some (or_default (dict_get obj "details") (JStr ""));
     d_context := None;
     d_test_class := None;
     d_test_method := None;
     d_api_path := None;
     d_timestamp := now |}.

(** The record emitted for a string value that contains a catalog name. *)
Definition value_details (source path value : text) : detection :=
  {| d_source := source;
     d_path := Some path;
     d_message := None;
     d_details := None;
     d_context := Some (slice 0 200 value);
     d_test_class := None;
     d_test_method := None;
     d_api_path := None;
     d_timestamp := now |}.

(** The first rule at a mapping node: the [isInjected] flag.  An unhashable
    fault name makes the ledger lookup raise [TypeError]. *)
Definition check_injected (obj : list (text * json)) (source path : text)
    (L : ledger) : outcome :=
  if equals_True (dict_get obj "isInjected") then
    let fault_name := or_default (dict_get obj "faultName") (JStr "UNKNOWN") in
    match key_of fault_name with
    | Some k => Done (_record_detection k (marker_details obj source path) L)
    | None =>
        Raised L (match fault_name with
                  | JList _ => "unhashable type: 'list'"
                  | _ => "unhashable type: 'dict'"
                  end)
    end
  else Done L.

(** The second rule, on one string value: every catalog name it contains. *)
Definition check_value (source path value : text) (L : ledger) : outcome :=
  for_each INJECTED_FAULTS
    (fun fault L =>
       if contains (faultName fault) value
       then Done (_record_detection (KStr (faultName fault))
                    (value_details source path value) L)
       else Done L)
    L.

(** [_search_json_for_faults(obj, source, path)] *)
Fixpoint _search_json_for_faults (obj : json) (source path : text)
    (L : ledger) {struct obj} : outcome :=
  match obj with
  | JDict fields =>
      match check_injected fields source path L with
      | Raised L' e => Raised L' e
      | Done L1 =>
          (fix items (kvs : list (text * json)) (L : ledger) : outcome :=
             match kvs with
             | [] => Done L
             | (key, value) :: rest =>
                 match
                   match value with
                   | JStr s => check_value source (child_path path key) s L
                   | _ => _search_json_for_faults value source
                            (child_path path key) L
                   end
                 with
                 | Done L' => items rest L'
                 | Raised L' e => Raised L' e
                 end
             end) fields L1
      end
  | JList l =>
      (fix each (l : list json) (i : nat) (L : ledger) : outcome :=
         match l with
         | [] => Done L
         | item :: rest =>
             match _search_json_for_faults item source (item_path path i) L with
             | Done L' => each rest (S i) L'
             | Raised L' e => Raised L' e
             end
         end) l 0 L
  | _ => Done L
  end.

(** ** The test-method locator *)

Fixpoint last_match (ms : list re_match) : option re_match :=
  match ms with
  | [] => None
  | [m] => Some m
  | _ :: ms' => last_match ms'
  end.

(** [_find_containing_test_method(content, position)] *)
Definition _find_containing_test_method (content : text) (position : nat)
    : option text :=
  let test_defs := finditer test_def_re (firstn position content) in
  match last_match test_defs with
  | Some m => m_group1 m
  | None => None
  end.

(** ** The text-evidence scanner *)

(** [test_method or 'unknown'] *)
Definition or_unknown (test_method : option text) : text :=
  match test_method with
  | Some (c :: t) => c :: t
  | _ => "unknown"
  end.

(** The record of a text heuristic; [api_path] is set by the endpoint
    heuristic only. *)
Definition test_details (filename : text) (test_method : option text)
    (api_path : option text) : detection :=
  {| d_source := filename;
     d_path := None;
     d_message := None;
     d_details := None;
     d_context := None;
     d_test_class := Some (replace ".py" "" filename);
     d_test_method := Some (or_unknown test_method);
     d_api_path := api_path;
     d_timestamp := now |}.

(** Direct fault name match. *)
Definition direct_name (fault_name content filename : text) (L : ledger)
    : ledger :=
  if contains fault_name content then
    fold_left
      (fun L m =>
         let test_method := _find_containing_test_method content (m_start m) in
         _record_detection (KStr fault_name)
           (test_details filename test_method None) L)
      (finditer (literal fault_name) content) L
  else L.

(** The guard of the marker heuristic: the double-quoted marker in the
    content as it is, or the single-quoted one in the lower-cased content. *)
Definition injected_marker_present (content : text) : bool :=
  contains ([dquote] ++ "isInjected" ++ [dquote] ++ ": true") content ||
  contains "'isInjected': true" (lower content).

(** The [isInjected] pattern. *)
Definition marker_correlation (fault_name content filename : text)
    (L : ledger) : ledger :=
  if injected_marker_present content then
    fold_left
      (fun L m =>
         if opt_text_eqb (m_group1 m) (Some fault_name) then
           let test_method :=
             _find_containing_test_method content (m_start m) in
           _record_detection (KStr fault_name)
             (test_details filename test_method None) L
         else L)
      (finditer injected_re content) L
  else L.

(** [api.split(' ', 1)], unpacked into two names: [None] when the
    descriptor has no space (the unpacking raises [ValueError]). *)
Fixpoint split_once (s : text) : option (text * text) :=
  match s with
  | [] => None
  | c :: s' =>
      if Ascii.eqb c " " then Some ([], s')
      else option_map (fun mp => (c :: fst mp, snd mp)) (split_once s')
  end.

(** [path.replace('{tripId}', r'[^...]+').replace('/', r'/')] *)
Definition path_pattern (path : text) : text :=
  replace "/" "/" (replace "{tripId}" nonquote_src path).

(** The indicators looked for around an occurrence of the path. *)
Definition has_indicator (fault_name context : text) : bool :=
  contains "400" context ||
  contains ("status" ++ [dquote] ++ ": 0") context ||
  contains "isInjected" context ||
  contains fault_name context.

(** The 500 characters before and after a match. *)
Definition window (content : text) (m : re_match) : text :=
  let start := m_start m - 500 in
  let end_ := Nat.min (length content) (m_end m + 500) in
  slice start end_ content.

(** One occurrence of the path: the body of [for api_match in api_matches]. *)
Definition endpoint_match (fault_name content filename path : text)
    (api_match : re_match) (L : ledger) : ledger :=
  if has_indicator fault_name (window content api_match) then
    let test_method :=
      _find_containing_test_method content (m_start api_match) in
    let existing :=
      filter (fun d => opt_text_eqb (d_test_method d) test_method)
        (ledger_get L (KStr fault_name)) in
    match existing with
    | [] => _record_detection (KStr fault_name)
              (test_details filename test_method (Some path)) L
    | _ :: _ => L
    end
  else L.

(** The API endpoint + 400 status code pattern, for one descriptor. *)
Definition endpoint_proximity (fault_name content filename api : text)
    (L : ledger) : outcome :=
  match split_once api with
  | None => Raised L "not enough values to unpack (expected 2, got 1)"
  | Some (method, path) =>
      match compile (path_pattern path) with
      | None => Raised L "pattern outside the modelled fragment"
      | Some rx =>
          if search rx content then
            Done (fold_left
                    (fun L api_match =>
                       endpoint_match fault_name content filename path
                         api_match L)
                    (finditer rx content) L)
          else Done L
      end
  end.

(** The body of [for fault in INJECTED_FAULTS]. *)
Definition analyze_fault (content filename : text) (f : fault) (L : ledger)
    : outcome :=
  let fault_name := faultName f in
  let L1 := direct_name fault_name content filename L in
  let L2 := marker_correlation fault_name content filename L1 in
  for_each (api f) (endpoint_proximity fault_name content filename) L2.

(** [_analyze_test_content(content, filename)] *)
Definition _analyze_test_content (content filename : text) (L : ledger)
    : outcome :=
  for_each INJECTED_FAULTS (analyze_fault content filename) L.

(** ** The run over a folder *)

(** What reading a file gives: its text, or an exception. *)
Inductive file_read : Type :=
| Content (content : text)
| Unreadable (error : text).

(** The report document: absent, unreadable or unparsable, or parsed. *)
Inductive report_file : Type :=
| ReportAbsent
| ReportError (error : text)
| ReportParsed (data : json).

(** [s.endswith(suffix)] *)
Definition endswith (suffix s : text) : bool :=
  startswith (rev suffix) (rev s).

(** The analyzer object: the ledger, the case count, the parsed report and
    the lines printed so far. *)
Record analyzer : Type := mkAnalyzer {
  detected_faults : ledger;
  total_test_cases : nat;
  report_json_data : option json;
  console : list text
}.

Definition init : analyzer := mkAnalyzer [] 0 None [].

Definition with_ledger (a : analyzer) (L : ledger) : analyzer :=
  mkAnalyzer L (total_test_cases a) (report_json_data a) (console a).

Definition print (a : analyzer) (line : text) : analyzer :=
  mkAnalyzer (detected_faults a) (total_test_cases a) (report_json_data a)
    (console a ++ [line]).

(** The end of a [try] block whose handler prints a warning. *)
Definition finish (a : analyzer) (prefix : text) (o : outcome) : analyzer :=
  match o with
  | Done L => with_ledger a L
  | Raised L e => print (with_ledger a L) (prefix ++ e)
  end.

(** [_analyze_report_json()] *)
Definition _analyze_report_json (report : report_file) (a : analyzer)
    : analyzer :=
  match report with
  | ReportAbsent => a
  | ReportError e => print a ("Warning: Error reading report.json: " ++ e)
  | ReportParsed data =>
      let a1 := mkAnalyzer (detected_faults a) (total_test_cases a)
                  (Some data) (console a) in
      match data with
      | JDict _ =>
          finish a1 "Warning: Error reading report.json: "
            (_search_json_for_faults data "report.json" "" (detected_faults a1))
      | _ => a1
      end
  end.

(** The body of the loop of [_analyze_test_files]. *)
Definition analyze_test_file (a : analyzer) (test_file : text * file_read)
    : analyzer :=
  let name := fst test_file in
  if startswith "__" name || text_eqb name "em_test_utils.py" then a
  else
    match snd test_file with
    | Content content =>
        finish a ("Warning: Error reading " ++ name ++ ": ")
          (_analyze_test_content content name (detected_faults a))
    | Unreadable e =>
        print a ("Warning: Error reading " ++ name ++ ": " ++ e)
    end.

(** [_analyze_test_files()], over the entries of the folder in the order
    [glob("*.py")] lists them. *)
Definition _analyze_test_files (folder : list (text * file_read))
    (a : analyzer) : analyzer :=
  fold_left analyze_test_file
    (filter (fun f => endswith ".py" (fst f)) folder) a.

(** [r'def test_\w+\(self\):'], the pattern of the case counter. *)
Definition test_count_re : regex :=
  literal "def test_" ++ [Many Word 1 true] ++ literal "(self):".

(** The body of the loop of [_count_test_cases]: a file that cannot be read
    is passed over in silence. *)
Definition count_test_file (a : analyzer) (test_file : text * file_read)
    : analyzer :=
  match snd test_file with
  | Content content =>
      mkAnalyzer (detected_faults a)
        (total_test_cases a + length (finditer test_count_re content))
        (report_json_data a) (console a)
  | Unreadable _ => a
  end.

(** [_count_test_cases()], over [glob("EvoMaster_*.py")]. *)
Definition _count_test_cases (folder : list (text * file_read))
    (a : analyzer) : analyzer :=
  fold_left count_test_file
    (filter (fun f => startswith "EvoMaster_" (fst f) &&
                      endswith ".py" (skipn 10 (fst f))) folder) a.

(** [analyze()] *)
Definition analyze (report : report_file) (folder : list (text * file_read))
    (a : analyzer) : analyzer :=
  let a1 := _analyze_report_json report a in
  let a2 := _analyze_test_files folder a1 in
  _count_test_cases folder a2.

(** ** Numbers of the report

    A percentage is a Python number: the [int] 0 when there is no fault, a
    [float] otherwise.  Floats are binary64 values and their operations the
    IEEE ones, rounding to nearest even. *)

Inductive pynum : Type :=
| PInt (z : Z)
| PFloat (f : spec_float).

Definition f64 (z : Z) : spec_float := binary_normalize 53 1024 z 0 false.
Definition fmul : spec_float -> spec_float -> spec_float := SFmul 53 1024.
Definition fdiv : spec_float -> spec_float -> spec_float := SFdiv 53 1024.
Definition fsub : spec_float -> spec_float -> spec_float := SFsub 53 1024.

Definition to_float (x : pynum) : spec_float :=
  match x with
  | PInt z => f64 z
  | PFloat f => f
  end.

(** [a * b] *)
Definition py_mul (a b : pynum) : pynum :=
  match a, b with
  | PInt x, PInt y => PInt (x * y)
  | _, _ => PFloat (fmul (to_float a) (to_float b))
  end.

(** [a - b] *)
Definition py_sub (a b : pynum) : pynum :=
  match a, b with
  | PInt x, PInt y => PInt (x - y)
  | _, _ => PFloat (fsub (to_float a) (to_float b))
  end.

(** [a / b], the true division: always a float. *)
Definition py_truediv (a b : pynum) : spec_float :=
  fdiv (to_float a) (to_float b).

(** [int(f)]: truncation towards zero; [None] when it raises (on an
    infinity or a NaN). *)
Definition py_int (f : spec_float) : option Z :=
  match f with
  | S754_zero _ => Some 0%Z
  | S754_finite s m e =>
      let a := match e with
               | Zneg p => (Zpos m / 2 ^ Zpos p)%Z
               | _ => (Zpos m * 2 ^ e)%Z
               end in
      Some (if s then (- a)%Z else a)
  | _ => None
  end.

(** The integer nearest to [n / d], ties to even. *)
Definition round_half_even (n d : Z) : Z :=
  let q := (n / d)%Z in
  let r := (n mod d)%Z in
  match (2 * r ?= d)%Z with
  | Lt => q
  | Gt => (q + 1)%Z
  | Eq => if Z.even q then q else (q + 1)%Z
  end.

Definition tenths (q : Z) : text :=
  str_of_nat (Z.to_nat (q / 10)) ++ "." ++ str_of_nat (Z.to_nat (q mod 10)).

(** [f"{x:.1f}"] *)
Definition format_1f (x : pynum) : text :=
  match x with
  | PInt z => (if (z <? 0)%Z then "-" else "") ++ tenths (10 * Z.abs z)
  | PFloat (S754_zero s) => (if s then "-" else "") ++ "0.0"
  | PFloat (S754_infinity s) => (if s then "-" else "") ++ "inf"
  | PFloat S754_nan => "nan"
  | PFloat (S754_finite s m e) =>
      (if s then "-" else "") ++
      tenths (match e with
              | Zneg p => round_half_even (Zpos m * 10) (2 ^ Zpos p)
              | _ => (Zpos m * 10 * 2 ^ e)%Z
              end)
  end.

(** ** The report generator *)

(** [(detected_count / total_faults * 100) if total_faults > 0 else 0] *)
Definition detection_percentage (detected_count total_faults : nat) : pynum :=
  if (0 <? total_faults)%nat then
    PFloat (fmul (fdiv (f64 (Z.of_nat detected_count)) (f64 (Z.of_nat total_faults)))
              (f64 100))
  else PInt 0.

(** [int(width * percentage / 100)] *)
Definition filled_cells (percentage : pynum) (width : nat) : option Z :=
  py_int (py_truediv (py_mul (PInt (Z.of_nat width)) percentage) (PInt 100)).

(** ['#' * filled + '-' * (width - filled)] *)
Definition bar_cells (filled : Z) (width : nat) : text :=
  repeat "#"%char (Z.to_nat filled) ++
  repeat "-"%char (Z.to_nat (Z.of_nat width - filled)).

(** [generate_progress_bar(percentage, width=50)] *)
Definition generate_progress_bar (percentage : pynum) (width : nat)
    : option text :=
  match filled_cells percentage width with
  | Some filled =>
      Some ("[" ++ bar_cells filled width ++ "] " ++ format_1f percentage ++ "%")
  | None => None
  end.

(** [f"{s:<width}"] *)
Definition ljust (width : nat) (s : text) : text :=
  s ++ repeat " "%char (width - length s).

(** [sep.join(xs)] *)
Fixpoint join (sep : text) (xs : list text) : text :=
  match xs with
  | [] => []
  | [x] => x
  | x :: xs' => x ++ sep ++ join sep xs'
  end.

(** The truth value of [d.get(key)] for a string field. *)
Definition truthy (v : option text) : bool :=
  match v with
  | Some (_ :: _) => true
  | _ => false
  end.

Definition field_line (label : text) (v : option text) : list text :=
  match v with
  | Some (c :: t) => [label ++ c :: t]
  | _ => []
  end.

Definition detected (L : ledger) (f : fault) : bool :=
  match ledger_get L (KStr (faultName f)) with
  | [] => false
  | _ :: _ => true
  end.

(** [len([f for f in INJECTED_FAULTS if self.detected_faults.get(f['faultName'])])] *)
Definition detected_count (L : ledger) : nat :=
  length (filter (detected L) INJECTED_FAULTS).

Definition total_faults : nat := length INJECTED_FAULTS.

(** The lines of one rendered detection, numbered [i]. *)
Definition detection_lines (entry : nat * detection) : list text :=
  let (i, detection) := entry in
  ["   Detection #" ++ str_of_nat i ++ ":"] ++
  field_line "     Test Class:  " (d_test_class detection) ++
  field_line "     Test Method: " (d_test_method detection) ++
  (if truthy (d_test_class detection) then []
   else field_line "     Source:      " (Some (d_source detection))) ++
  field_line "     API Path:    " (d_api_path detection) ++
  field_line "     Timestamp:   " (Some (d_timestamp detection)) ++
  [T ""].

Definition fault_heading (num : nat) (f : fault) : list text :=
  [str_of_nat num ++ ". " ++ faultName f;
   "   Service:       " ++ service f;
   "   API:           " ++ join ", " (api f);
   "   Description:   " ++ description f].

(** The block of a detected fault: up to 5 detections, and the count of
    the others. *)
Definition detected_block (num : nat) (f : fault) (detections : list detection)
    : list text :=
  fault_heading num f ++
  ["   Detections:    " ++ str_of_nat (length detections) ++ " time(s)"; T ""] ++
  flat_map detection_lines (enumerate 1 (firstn 5 detections)) ++
  (if (5 <? length detections)%nat
   then ["   ... and " ++ str_of_nat (length detections - 5) ++
         " more detection(s)"; T ""]
   else []) ++
  [repeat "-"%char 80; T ""].

Definition undetected_block (num : nat) (f : fault) : list text :=
  fault_heading num f ++
  [T "   Status:        NOT DETECTED";
   T "";
   T "   Trigger Conditions:";
   T "     - Check if the API endpoint was tested";
   T "     - Verify authentication is working for admin endpoints";
   T "     - Consider increasing test duration";
   T "";
   repeat "-"%char 80;
   T ""].

(** The first loop over the catalog: [detected_fault_num] and the lines
    appended so far. *)
Definition detected_loop (L : ledger) : nat * list text :=
  fold_left
    (fun (st : nat * list text) f =>
       let detections := ledger_get L (KStr (faultName f)) in
       match detections with
       | [] => st
       | _ :: _ =>
           (S (fst st), snd st ++ detected_block (S (fst st)) f detections)
       end)
    INJECTED_FAULTS (0, []).

(** The second loop over the catalog. *)
Definition undetected_loop (L : ledger) : nat * list text :=
  fold_left
    (fun (st : nat * list text) f =>
       match ledger_get L (KStr (faultName f)) with
       | [] => (S (fst st), snd st ++ undetected_block (S (fst st)) f)
       | _ :: _ => st
       end)
    INJECTED_FAULTS (0, []).

(** A row of the statistics table. *)
Definition statistics_row (L : ledger) (f : fault) : text :=
  let detections := ledger_get L (KStr (faultName f)) in
  let status : text :=
    match detections with
    | [] => "NOT DETECTED"
    | _ :: _ => "DETECTED"
    end in
  ljust 45 (faultName f) ++ " " ++ ljust 15 status ++ " " ++
  ljust 10 (str_of_nat (length detections)).

(** The third loop over the catalog. *)
Definition statistics_rows (L : ledger) : list text :=
  fold_left (fun lines f => lines ++ [statistics_row L f]) INJECTED_FAULTS [].

(** [sum(len(d) for d in self.detected_faults.values())] *)
Definition total_records (L : ledger) : nat :=
  fold_right (fun kv acc => length (snd kv) + acc) 0 L.

Definition totals_row (L : ledger) : text :=
  ljust 45 "TOTAL" ++ " " ++ str_of_nat (detected_count L) ++ "/" ++
  ljust 14 (str_of_nat total_faults) ++ " " ++
  ljust 10 (str_of_nat (total_records L)).

Definition rule80 : text := repeat "="%char 80.

Variable experiment_name test_folder : text.

(** The header and the coverage summary. *)
Definition summary_lines (a : analyzer) (percentage : pynum) (bar : text)
    : list text :=
  let L := detected_faults a in
  [rule80;
   T "                    FAULT DETECTION SUMMARY REPORT";
   rule80;
   T "";
   "Experiment:         " ++ experiment_name;
   "Generated:          " ++ now;
   "Test Folder:        " ++ test_folder;
   "Total Test Cases:   " ++ str_of_nat (total_test_cases a);
   T "";
   rule80;
   T "FAULT COVERAGE SUMMARY";
   rule80;
   T "";
   "Total Injected Faults:    " ++ str_of_nat total_faults;
   "Detected Faults:          " ++ str_of_nat (detected_count L) ++
     " (" ++ format_1f percentage ++ "%)";
   "Undetected Faults:        " ++
     str_of_nat (total_faults - detected_count L) ++
     " (" ++ format_1f (py_sub (PInt 100) percentage) ++ "%)";
   T "";
   T "Detection Progress:";
   bar;
   T ""].

(** The three sections that list the faults, from the ledger alone. *)
Definition fault_sections (L : ledger) : list text :=
  let undetected_count := total_faults - detected_count L in
  [rule80;
   "DETECTED FAULTS (" ++ str_of_nat (detected_count L) ++ ")";
   rule80;
   T ""] ++
  snd (detected_loop L) ++
  (if (detected_count L =? 0)%nat
   then [T "No faults were detected in this test run."; T ""]
   else []) ++
  [rule80;
   "UNDETECTED FAULTS (" ++ str_of_nat undetected_count ++ ")";
   rule80;
   T ""] ++
  snd (undetected_loop L) ++
  (if (undetected_count =? 0)%nat
   then [T "All injected faults were detected! Excellent coverage."; T ""]
   else []) ++
  [rule80;
   T "DETECTION STATISTICS";
   rule80;
   T "";
   ljust 45 "Fault Name" ++ " " ++ ljust 15 "Status" ++ " " ++ ljust 10 "Count";
   repeat "-"%char 70] ++
  statistics_rows L ++
  [repeat "-"%char 70;
   totals_row L;
   T "";
   rule80;
   T "END OF REPORT";
   rule80].

(** [generate_report(output_file)], up to the write: the lines of the
    report, which the script joins, writes to the file and prints, and the
    pair it returns once they are written; [None] when the progress bar
    raises.  Opening and writing the output file is left out: what is said
    of the result holds of the lines rendered, and of the pair returned
    when the write succeeds. *)
Definition generate_report (a : analyzer)
    : option (list text * (nat * nat)) :=
  let L := detected_faults a in
  let percentage := detection_percentage (detected_count L) total_faults in
  match generate_progress_bar percentage 50 with
  | None => None
  | Some bar =>
      Some (summary_lines a percentage bar ++ fault_sections L,
            (detected_count L, total_faults))
  end.

End Analyzer.

(** ** Observations used in the statements *)

(** The integer a float is exactly equal to, if it is one. *)
Definition exact_int (f : spec_float) : option Z :=
  match f with
  | S754_zero _ => Some 0%Z
  | S754_finite s m e =>
      match e with
      | Zneg p =>
          if (Zpos m mod 2 ^ Zpos p =? 0)%Z
          then Some (if s then (- (Zpos m / 2 ^ Zpos p))%Z
                     else (Zpos m / 2 ^ Zpos p)%Z)
          else None
      | _ => Some (if s then (- (Zpos m * 2 ^ e))%Z else (Zpos m * 2 ^ e)%Z)
      end
  | _ => None
  end.

Definition number_value (x : pynum) : option Z :=
  match x with
  | PInt z => Some z
  | PFloat f => exact_int f
  end.

(** Two analyzers that hold the same evidence: they may differ in what was
    printed and in the parsed report kept. *)
Definition same_evidence (a b : analyzer) : Prop :=
  detected_faults a = detected_faults b /\
  total_test_cases a = total_test_cases b.

(** How many faults of a list bear a name. *)
Definition occurrences (name : text) (fs : list fault) : nat :=
  length (filter (fun g => text_eqb (faultName g) name) fs).

(** The sum of the counts shown in the rows of the given faults. *)
Definition names_records (L : ledger) (fs : list fault) : nat :=
  fold_right (fun f acc => length (ledger_get L (KStr (faultName f))) + acc) 0 fs.

Definition catalog_records (L : ledger) : nat :=
  names_records L INJECTED_FAULTS.

(** The first line of a rendered detection, and the note on the detections
    left out. *)
Definition is_detection_heading (line : text) : bool :=
  startswith "   Detection #" line.

Definition is_remainder_note (line : text) : bool :=
  startswith "   ... and " line.

(** A ledger that keeps every record of another. *)
Definition grows (L L' : ledger) : Prop :=
  forall k d, In d (ledger_get L k) -> In d (ledger_get L' k).

(** [node] is [doc] or lies in it, under nested mappings and lists. *)
Inductive reachable (node : json) : json -> Prop :=
| reach_here : reachable node node
| reach_field fields key value :
    In (key, value) fields -> reachable node value ->
    reachable node (JDict fields)
| reach_item items item :
    In item items -> reachable node item -> reachable node (JList items).

(** The fault name read at a marker node. *)
Definition marker_name (obj : list (text * json)) : json :=
  match dict_get obj "faultName" with
  | Some x => x
  | None => JStr "UNKNOWN"
  end.

(** No node with a true [isInjected] flag has a list or a mapping as its
    fault name. *)
Fixpoint hashable_names (obj : json) : bool :=
  match obj with
  | JDict fields =>
      (if equals_True (dict_get fields "isInjected")
       then match key_of (marker_name fields) with
            | Some _ => true
            | None => false
            end
       else true) &&
      forallb (fun kv => hashable_names (snd kv)) fields
  | JList items => forallb hashable_names items
  | _ => true
  end.

(** Every marker node of [obj] has a record from [source] under its name. *)
Definition markers_recorded (source : text) (obj : json) (L : ledger) : Prop :=
  forall marker k,
    reachable (JDict marker) obj ->
    equals_True (dict_get marker "isInjected") = true ->
    key_of (marker_name marker) = Some k ->
    exists d, In d (ledger_get L k) /\ d_source d = source.

(** A test-case definition marker stands at offset [j] of [s], with [w] the
    part of the method name after [test_]. *)
Definition marker_at (s : text) (j : nat) (w : text) : Prop :=
  exists tail,
    skipn j s = "def test_" ++ w ++ "(self):" ++ tail /\
    w <> [] /\ forallb is_word w = true.

(** The offset just after that marker. *)
Definition marker_end (j : nat) (w : text) : nat := j + 16 + length w.

(** The marker at the head of [s], computed: the name part [w]. *)
Definition marker_word (s : text) : option text :=
  if startswith "def " s then
    if startswith "test_" (skipn 4 s) then
      let rest := skipn 5 (skipn 4 s) in
      let n := run_length Word rest in
      match n with
      | O => None
      | S _ =>
          if startswith "(self):" (skipn n rest)
          then Some (firstn n rest)
          else None
      end
    else None
  else None.

(** The match object of the marker at offset [j]. *)
Definition marker_match (i j : nat) (w : text) : re_match :=
  mkMatch (i + j) (i + j + (16 + length w)) (Some ("test_" ++ w)).

(** A character with no meaning of its own in a pattern. *)
Definition is_plain (c : ascii) : bool := negb (is_special c).

(** The class that stands for the placeholder. *)
Definition nonquote : cclass := NoneOf [dquote; squote].


(** Every record of the ledger comes from one file. *)
Definition all_from (filename : text) (L : ledger) : Prop :=
  forall k d, In d (ledger_get L k) -> d_source d = filename.

(** What a step of the analysis of a file does to the ledger: it keeps the
    records, the dedup contract and the origin of the records. *)
Definition file_step (filename : text) (L L' : ledger) : Prop :=
  grows L L' /\
  (dedup_ok L -> dedup_ok L') /\
  (all_from filename L -> all_from filename L').

(** A record for a test method is stored under a fault name. *)
Definition has_method (fault_name : text) (test_method : option text)
    (L : ledger) : Prop :=
  exists d,
    In d (ledger_get L (KStr fault_name)) /\ d_test_method d = test_method.

(** The number of records stored for a fault and a test method. *)
Definition method_records (fault_name test_method : text) (L : ledger) : nat :=
  length (filter (fun d => opt_text_eqb (d_test_method d) (Some test_method))
            (ledger_get L (KStr fault_name))).

(** The marker the guard of the marker heuristic looks for in the content
    as it is: the flag between double quotes. *)
Definition double_quoted_marker : text :=
  [dquote] ++ "isInjected" ++ [dquote] ++ ": true".

(** The keys of a ledger are pairwise distinct and none has an empty list
    of records. *)
Definition well_keyed (L : ledger) : Prop :=
  NoDup (map fst L) /\ forall k ds, In (k, ds) L -> ds <> [].

(** A step that only adds records of a kind: it keeps the records, the
    dedup contract and the shape of the ledger, and every record it leaves
    is an old one or satisfies [Q] with the key it is stored under. *)
Definition adds (Q : pykey -> detection -> Prop) (L L' : ledger) : Prop :=
  grows L L' /\
  (dedup_ok L -> dedup_ok L') /\
  (well_keyed L -> well_keyed L') /\
  (forall k d, In d (ledger_get L' k) -> In d (ledger_get L k) \/ Q k d).

(** A record of the structured scanner: it names its source and its path
    and has no test class, test method or API path. *)
Definition structured_record (source : text) (k : pykey) (d : detection)
    : Prop :=
  d_source d = source /\ d_path d <> None /\
  d_test_class d = None /\ d_test_method d = None /\ d_api_path d = None.

(** A record of the text scanner for a file: it is stored under a catalog
    name and carries the file name, the class derived from it and a
    non-empty test method. *)
Definition text_record (now filename : text) (k : pykey) (d : detection)
    : Prop :=
  (exists f, In f INJECTED_FAULTS /\ k = KStr (faultName f)) /\
  d_source d = filename /\
  d_test_class d = Some (replace ".py" "" filename) /\
  (exists tm, d_test_method d = Some tm /\ tm <> []) /\
  d_path d = None /\ d_context d = None /\ d_timestamp d = now.

(** A record from [source] is stored under a key. *)
Definition has_source (source : text) (k : pykey) (L : ledger) : Prop :=
  exists d, In d (ledger_get L k) /\ d_source d = source.

(** Every string field of a mapping of [obj] that contains a catalog name
    has a record from [source] under that name. *)
Definition values_recorded (source : text) (obj : json) (L : ledger) : Prop :=
  forall node key s f,
    reachable (JDict node) obj -> In (key, JStr s) node ->
    In f INJECTED_FAULTS -> contains (faultName f) s = true ->
    has_source source (KStr (faultName f)) L.

(** The entries of the folder whose content is analysed: the [*.py] files
    other than the package files and the utility module. *)
Definition analysed (name : text) : bool :=
  endswith ".py" name &&
  negb (startswith "__" name || text_eqb name "em_test_utils.py").

(** The warnings of the unreadable files among them, in folder order. *)
Definition read_warnings (folder : list (text * file_read)) : list text :=
  flat_map
    (fun file =>
       match snd file with
       | Unreadable e =>
           if analysed (fst file)
           then ["Warning: Error reading " ++ fst file ++ ": " ++ e]
           else []
       | Content _ => []
       end)
    folder.

(** A record of the text scanner for one of the analysed files of the
    folder. *)
Definition folder_record (now : text) (folder : list (text * file_read))
    (k : pykey) (d : detection) : Prop :=
  exists name content,
    In (name, Content content) folder /\ analysed name = true /\
    text_record now name k d.

(** The files whose test cases are counted: [EvoMaster_*.py]. *)
Definition counted (name : text) : bool :=
  startswith "EvoMaster_" name && endswith ".py" (skipn 10 name).

(** The span of a match. *)
Definition span (m : re_match) : nat * nat := (m_start m, m_end m).

(** The number of test methods of a file as the locator sees them, and
    none for a file that cannot be read. *)
Definition test_methods (r : file_read) : nat :=
  match r with
  | Content content => length (finditer test_def_re content)
  | Unreadable _ => 0
  end.

(** An artifact with no trigger of the text heuristics: it contains no
    catalog fault name, the guard of the marker heuristic fails, and none
    of the catalog's API paths occurs in it. *)
Definition path_absent (content api : text) : bool :=
  match split_once api with
  | Some (_, path) =>
      match compile (path_pattern path) with
      | Some rx => negb (search rx content)
      | None => false
      end
  | None => false
  end.

Definition no_trigger (content : text) : bool :=
  negb (injected_marker_present content) &&
  forallb (fun f => negb (contains (faultName f) content) &&
                    forallb (path_absent content) (api f))
    INJECTED_FAULTS.

(** A character of the ASCII range. *)
Definition is_ascii (c : ascii) : bool := (nat_of_ascii c <? 128)%nat.

(** A line that begins like one of the two notes of the report: with a
    capital N or a capital A. *)
Definition is_note_start (line : text) : bool :=
  match line with
  | c :: _ => Ascii.eqb c "N" || Ascii.eqb c "A"
  | [] => false
  end.

Definition none_detected_note : text :=
  "No faults were detected in this test run.".

Definition all_detected_note : text :=
  "All injected faults were detected! Excellent coverage.".

(** What makes the text heuristics store a record for a fault, as a function
    of the content alone: the name occurs; or the guard of the marker
    heuristic holds and a marker pair captures the name; or a path of the
    fault occurs with an indicator in its window. *)
Definition marker_fires (content fault_name : text) : bool :=
  injected_marker_present content &&
  existsb (fun m => opt_text_eqb (m_group1 m) (Some fault_name))
    (finditer injected_re content).

Definition endpoint_fires (content fault_name api : text) : bool :=
  match split_once api with
  | Some (_, path) =>
      match compile (path_pattern path) with
      | Some rx =>
          existsb (fun m => has_indicator fault_name (window content m))
            (finditer rx content)
      | None => false
      end
  | None => false
  end.

Definition fires (content : text) (f : fault) : bool :=
  contains (faultName f) content ||
  marker_fires content (faultName f) ||
  existsb (endpoint_fires content (faultName f)) (api f).

(** The same for an entry of the folder. *)
Definition file_fires (f : fault) (file : text * file_read) : bool :=
  analysed (fst file) &&
  match snd file with
  | Content content => fires content f
  | Unreadable _ => false
  end.

(** What makes the structured scanner store a record under a key: a mapping
    of the document whose [isInjected] flag is true and whose fault name is
    that key, or a string field of a mapping that contains the catalog
    name that the key is. *)
Definition evidence (obj : json) (k : pykey) : Prop :=
  (exists marker,
     reachable (JDict marker) obj /\
     equals_True (dict_get marker "isInjected") = true /\
     key_of (marker_name marker) = Some k) \/
  (exists node key s f,
     reachable (JDict node) obj /\ In (key, JStr s) node /\
     In f INJECTED_FAULTS /\ contains (faultName f) s = true /\
     k = KStr (faultName f)).

(** The last column of a row of the statistics table, as a reader sees it:
    the last run of characters other than spaces; and the number it
    shows, if it is a decimal numeral. *)
Fixpoint drop_spaces (s : text) : text :=
  match s with
  | c :: s' => if Ascii.eqb c " " then drop_spaces s' else s
  | [] => []
  end.

Fixpoint take_word (s : text) : text :=
  match s with
  | c :: s' => if Ascii.eqb c " " then [] else c :: take_word s'
  | [] => []
  end.

Definition last_column (row : text) : text :=
  rev (take_word (drop_spaces (rev row))).

Definition is_digit (c : ascii) : bool := code_in 48 57 c.

Definition numeral_value (s : text) : option nat :=
  match s with
  | [] => None
  | _ :: _ =>
      if forallb is_digit s
      then Some (fold_left (fun acc c => 10 * acc + (nat_of_ascii c - 48)) s 0)
      else None
  end.

Definition shown_count (row : text) : option nat :=
  numeral_value (last_column row).

(** The sum of the counts that a list of rows shows. *)
Definition shown_sum (rows : list text) : nat :=
  list_sum (map (fun row => match shown_count row with
                            | Some n => n
                            | None => 0
                            end) rows).

(** A line that begins with a decimal digit: in the report, the numbered
    heading of a fault. *)
Definition digit_head (line : text) : bool :=
  match line with
  | c :: _ => is_digit c
  | [] => false
  end.

(** The heading of the block of a fault, with its number in the section. *)
Definition fault_heading_line (nf : nat * fault) : text :=
  str_of_nat (fst nf) ++ ". " ++ faultName (snd nf).

(** The lines of the report, section by section. *)
Definition report_layout (now experiment_name test_folder : text)
    (a : analyzer) (bar : text) : list text :=
  let L := detected_faults a in
  let d := detected_count L in
  summary_lines now experiment_name test_folder a
    (detection_percentage d total_faults) bar ++
  [repeat "="%char 80;
   "DETECTED FAULTS (" ++ str_of_nat d ++ ")";
   repeat "="%char 80;
   T ""] ++
  flat_map (fun nf => detected_block (fst nf) (snd nf)
                        (ledger_get L (KStr (faultName (snd nf)))))
    (enumerate 1 (filter (detected L) INJECTED_FAULTS)) ++
  (if (d =? 0)%nat
   then [T "No faults were detected in this test run."; T ""]
   else []) ++
  [repeat "="%char 80;
   "UNDETECTED FAULTS (" ++ str_of_nat (total_faults - d) ++ ")";
   repeat "="%char 80;
   T ""] ++
  flat_map (fun nf => undetected_block (fst nf) (snd nf))
    (enumerate 1 (filter (fun g => negb (detected L g)) INJECTED_FAULTS)) ++
  (if (total_faults - d =? 0)%nat
   then [T "All injected faults were detected! Excellent coverage."; T ""]
   else []) ++
  [repeat "="%char 80;
   T "DETECTION STATISTICS";
   repeat "="%char 80;
   T "";
   ljust 45 "Fault Name" ++ " " ++ ljust 15 "Status" ++ " " ++ ljust 10 "Count";
   repeat "-"%char 70] ++
  map (statistics_row L) INJECTED_FAULTS ++
  [repeat "-"%char 70;
   totals_row L;
   T "";
   repeat "="%char 80;
   T "END OF REPORT";
   repeat "="%char 80].

(** ** Sample inputs *)

(** A record of a text heuristic, and a later one from the same file and
    test method. *)
Definition sample_details : detection :=
  mkDetection "EvoMaster_sample.py" None None None None
    (Some (T "EvoMaster_sample")) (Some (T "test_0")) None "2024-01-01 10:00:00".

Definition sample_second : detection :=
  mkDetection "EvoMaster_sample.py" None None None None
    (Some (T "EvoMaster_sample")) (Some (T "test_0"))
    (Some (T "/api/v1/adminbasicservice/adminbasic/prices"))
    "2024-01-01 10:00:01".

Definition sample_fault : fault :=
  mkFault "INVALID_ROUTE_ID_FAULT" "ts-admin-basic-info-service"
    [T "POST /api/v1/adminbasicservice/adminbasic/prices"]
    "Rejects price creation when routeId is null or empty".

Definition sample_analyzer : analyzer :=
  mkAnalyzer [(KStr (T "INVALID_ROUTE_ID_FAULT"), [sample_details])] 1 None [].

(** The ledger after scanning a report whose only node is a marker with no
    fault name. *)
Definition sample_unknown_ledger : ledger :=
  ledger_of (_search_json_for_faults "2024-01-01 10:00:00"
               (JDict [(T "isInjected", JBool true)]) "report.json" "" []).

(** A marker node for a catalog fault, a report that holds it three levels
    down, and a report that is a list at its top level. *)
Definition sample_marker : list (text * json) :=
  [(T "isInjected", JBool true);
   (T "faultName", JStr "INSUFFICIENT_STATIONS_FAULT")].

Definition sample_report_fields : list (text * json) :=
  [(T "results", JList [JDict [(T "event", JDict sample_marker)]])].

Definition sample_list_report : json := JList [JDict sample_marker].

(** A report in which a marker with a list as its fault name comes first. *)
Definition sample_unhashable_report : json :=
  JDict [(T "first", JDict [(T "isInjected", JBool true);
                            (T "faultName", JList [])]);
         (T "second", JDict sample_marker)].

(** An artifact with one test method. *)
Definition sample_test_text : text := "def test_a(self):".

(** A path with a placeholder other than the catalog's, and a call that
    instantiates it. *)
Definition sample_other_path : text := "/api/v1/orders/{orderId}".
Definition sample_other_call : text := "client.get('/api/v1/orders/42')".

(** An artifact in which the path of a fault occurs twice inside one test
    method, with a 400 nearby; the fault, its descriptor, and the second
    occurrence. *)
Definition newline : text := ["010"%char].

Definition sample_endpoint_text : text :=
  "def test_a(self):" ++ newline ++
  "  r = get('/api/v1/adminrouteservice/adminroute')" ++ newline ++
  "  assert r.status_code == 400" ++ newline ++
  "  r = get('/api/v1/adminrouteservice/adminroute')" ++ newline.

Definition sample_route_fault : fault :=
  mkFault "INSUFFICIENT_STATIONS_FAULT" "ts-admin-route-service"
    [T "POST /api/v1/adminrouteservice/adminroute"]
    "Rejects route creation when station list has fewer than 2 stations".

Definition sample_second_occurrence : re_match := mkMatch 109 145 None.

(** An artifact with a single-quoted marker ahead of the test method that
    names the fault. *)
Definition sample_single_quoted_text : text :=
  "'isInjected': true" ++ newline ++
  "def test_b(self):" ++ newline ++
  "  'faultName': 'INVALID_PRICE_RATE_FAULT'".

(** A report with a log message that quotes a fault name, and the node that
    holds the message. *)
Definition sample_log_node : list (text * json) :=
  [(T "level", JStr "warn");
   (T "message", JStr "request rejected: INVALID_ROUTE_ID_FAULT triggered")].

Definition sample_log_fields : list (text * json) :=
  [(T "run", JInt 7); (T "log", JList [JDict sample_log_node])].

(** A report with two marker nodes for one fault. *)
Definition sample_two_markers : json :=
  JDict [(T "a", JDict sample_marker); (T "b", JDict sample_marker)].

(** An artifact that names a fault inside a test method. *)
Definition sample_named_text : text :=
  "def test_3(self):" ++ newline ++
  "  assert 'INSUFFICIENT_STATIONS_FAULT' in res.text" ++ newline.

(** An artifact whose marker stands in one test method and the fault name
    that follows it in the next one; the match of the marker pair. *)
Definition sample_cross_method_text : text :=
  "def test_1(self):" ++ newline ++
  "  a = {" ++ [dquote] ++ "isInjected" ++ [dquote] ++ ": true}" ++ newline ++
  "def test_2(self):" ++ newline ++
  "  b = {" ++ [dquote] ++ "faultName" ++ [dquote] ++ ": " ++ [dquote] ++
  "INSUFFICIENT_STATIONS_FAULT" ++ [dquote] ++ "}" ++ newline.

Definition sample_marker_match : re_match :=
  mkMatch 25 112 (Some (T "INSUFFICIENT_STATIONS_FAULT")).

(** A folder with one generated test file, which names a fault. *)
Definition sample_folder : list (text * file_read) :=
  [(T "EvoMaster_sample.py", Content sample_named_text)].

(** The record that the scan of the sample report stores. *)
Definition sample_structured : detection :=
  mkDetection "report.json" (Some (T "results[0].event")) (Some (JStr ""))
    (Some (JStr "")) None None None None "2024-01-01 10:00:00".

(** A test that calls an endpoint outside the catalog. *)
Definition sample_plain_text : text :=
  "def test_9(self):" ++ newline ++
  "  r = get('/api/v1/orders/42')" ++ newline ++
  "  assert r.status_code == 400" ++ newline.

(** A call of a catalog endpoint outside any test method, with a 400 in
    the next line; the occurrence of the path; and a ledger that holds a
    record of the structured scanner for the fault of that endpoint. *)
Definition sample_module_text : text :=
  "r = get('/api/v1/adminrouteservice/adminroute')" ++ newline ++
  "assert r.status_code == 400" ++ newline.

Definition sample_module_occurrence : re_match := mkMatch 9 45 None.

Definition sample_structured_ledger : ledger :=
  [(KStr "INSUFFICIENT_STATIONS_FAULT", [sample_structured])].

(** A folder with two generated test files, and the same folder listed in
    the other order. *)
Definition sample_first_file : text * file_read :=
  (T "EvoMaster_sample.py", Content sample_named_text).

Definition sample_second_file : text * file_read :=
  (T "EvoMaster_other.py", Content sample_endpoint_text).

Definition sample_two_files : list (text * file_read) :=
  [sample_first_file; sample_second_file].

Definition sample_two_files_swapped : list (text * file_read) :=
  [sample_second_file; sample_first_file].

(** * Properties *)


(** ** Equality tests *)

Lemma text_eqb_eq (a b : text) : text_eqb a b = true <-> a = b.
Proof.
  revert b; induction a as [|x a IH]; intros [|y b]; simpl; split; try easy.
  - intros H; apply andb_true_iff in H as [H1 H2].
    apply Ascii.eqb_eq in H1; apply IH in H2; congruence.
  - intros H; injection H as -> ->.
    apply andb_true_iff; split; [apply Ascii.eqb_refl | now apply IH].
Qed.

Lemma text_eqb_refl (a : text) : text_eqb a a = true.
Proof. now apply text_eqb_eq. Qed.

Lemma opt_text_eqb_eq (a b : option text) : opt_text_eqb a b = true <-> a = b.
Proof.
  destruct a, b; simpl; split; try easy.
  - intros H; apply text_eqb_eq in H; congruence.
  - intros H; injection H as ->; apply text_eqb_refl.
Qed.

Lemma pykey_eqb_eq (a b : pykey) : pykey_eqb a b = true <-> a = b.
Proof.
  destruct a, b; simpl; split; try easy.
  - intros H; apply text_eqb_eq in H; congruence.
  - intros H; injection H as ->; apply text_eqb_refl.
  - intros H; apply andb_true_iff in H as [H H3].
    apply andb_true_iff in H as [H1 H2].
    apply Bool.eqb_prop in H1; apply Pos.eqb_eq in H2; apply Z.eqb_eq in H3.
    congruence.
  - intros H; injection H as -> -> ->.
    now rewrite Bool.eqb_reflx, Pos.eqb_refl, Z.eqb_refl.
  - intros H; apply Bool.eqb_prop in H; congruence.
  - intros H; injection H as ->; apply Bool.eqb_reflx.
Qed.

Lemma pykey_eqb_refl (a : pykey) : pykey_eqb a a = true.
Proof. now apply pykey_eqb_eq. Qed.

Lemma pykey_eqb_neq (a b : pykey) : a <> b -> pykey_eqb a b = false.
Proof.
  intros H; destruct (pykey_eqb a b) eqn:E; [|reflexivity].
  now apply pykey_eqb_eq in E.
Qed.

(** ** The ledger *)

Lemma ledger_get_append_same (L : ledger) k d :
  ledger_get (ledger_append L k d) k = ledger_get L k ++ [d].
Proof.
  induction L as [|[k' ds] L IH]; simpl.
  - now rewrite pykey_eqb_refl.
  - destruct (pykey_eqb k' k) eqn:E; simpl; rewrite E; auto.
Qed.

Lemma ledger_get_append_other (L : ledger) k d k' :
  k' <> k -> ledger_get (ledger_append L k d) k' = ledger_get L k'.
Proof.
  intros N; induction L as [|[k0 ds] L IH]; simpl.
  - rewrite pykey_eqb_neq; auto.
  - destruct (pykey_eqb k0 k) eqn:E; simpl.
    + apply pykey_eqb_eq in E; subst k0.
      rewrite pykey_eqb_neq; auto.
    + destruct (pykey_eqb k0 k'); auto.
Qed.

Lemma is_duplicate_origin (d e : detection) :
  is_duplicate d e = true <-> origin e = origin d.
Proof.
  unfold is_duplicate, origin; rewrite andb_true_iff, opt_text_eqb_eq, text_eqb_eq.
  split; [intros [-> ->]; reflexivity | intros H; injection H; auto].
Qed.

Lemma duplicate_found (d : detection) (ds : list detection) :
  existsb (is_duplicate d) ds = true <-> In (origin d) (map origin ds).
Proof.
  rewrite existsb_exists, in_map_iff; split; intros (e & H1 & H2); exists e.
  - apply is_duplicate_origin in H2; auto.
  - split; [|apply is_duplicate_origin]; auto.
Qed.

Lemma duplicate_not_found (d : detection) (ds : list detection) :
  existsb (is_duplicate d) ds = false <-> ~ In (origin d) (map origin ds).
Proof.
  rewrite <- duplicate_found; destruct (existsb _ _); split; easy.
Qed.

Lemma record_detection_get (L : ledger) k d k' :
  ledger_get (_record_detection k d L) k' =
  if pykey_eqb k k' && negb (existsb (is_duplicate d) (ledger_get L k))
  then ledger_get L k ++ [d] else ledger_get L k'.
Proof.
  unfold _record_detection.
  destruct (existsb _ _) eqn:E; simpl.
  - now rewrite andb_false_r.
  - rewrite andb_true_r. destruct (pykey_eqb k k') eqn:K.
    + apply pykey_eqb_eq in K; subst; apply ledger_get_append_same.
    + apply ledger_get_append_other; intros ->; now rewrite pykey_eqb_refl in K.
Qed.

Lemma record_detection_dedup_ok (L : ledger) k d :
  dedup_ok L -> dedup_ok (_record_detection k d L).
Proof.
  intros H k'; rewrite record_detection_get.
  destruct (pykey_eqb k k' && _) eqn:E; [|apply H].
  apply andb_true_iff in E as [_ E]; apply negb_true_iff in E.
  rewrite map_app; simpl.
  assert (N := H k).
  apply duplicate_not_found in E.
  revert N E; generalize (map origin (ledger_get L k)) (origin d).
  intros l x N E; induction l as [|y l IH]; simpl.
  - constructor; [easy | constructor].
  - inversion N; subst. constructor.
    + rewrite in_app_iff; simpl; intros [H'|[H'|[]]]; [easy|].
      apply E; left; auto.
    + apply IH; auto. intros H'; apply E; right; auto.
Qed.

Lemma record_all_dedup_ok ops (L : ledger) :
  dedup_ok L -> dedup_ok (record_all ops L).
Proof.
  revert L; induction ops as [|[k d] ops IH]; intros L H; simpl; auto.
  apply IH, record_detection_dedup_ok, H.
Qed.

Lemma dedup_ok_nil : dedup_ok [].
Proof. intros k; simpl; constructor. Qed.

(** C1. The insertion operation is a no-op when a record with the same
    (source, test_method) pair is already stored under the fault name, and
    appends the details otherwise (creating the entry when the name is new,
    and touching no other name); so the dedup contract holds after every
    run of insertions from the empty ledger, and of two insertions with the
    same fault name, source and test method the second changes nothing:
    from the empty ledger exactly the first record is stored. *)
Theorem record_detection_dedup (L : ledger) (fault_name : pykey)
    (details : detection) :
  (In (origin details) (map origin (ledger_get L fault_name)) ->
   _record_detection fault_name details L = L) /\
  (~ In (origin details) (map origin (ledger_get L fault_name)) ->
   _record_detection fault_name details L = ledger_append L fault_name details /\
   ledger_get (_record_detection fault_name details L) fault_name =
     ledger_get L fault_name ++ [details] /\
   forall k, k <> fault_name ->
     ledger_get (_record_detection fault_name details L) k = ledger_get L k) /\
  (dedup_ok L -> dedup_ok (_record_detection fault_name details L)) /\
  (forall ops, dedup_ok (record_all ops [])) /\
  (forall second, origin second = origin details ->
   _record_detection fault_name second (_record_detection fault_name details L) =
     _record_detection fault_name details L /\
   ledger_get
     (_record_detection fault_name second
        (_record_detection fault_name details [])) fault_name = [details]).
Proof.
  repeat split.
  - intros H; apply duplicate_found in H; unfold _record_detection; now rewrite H.
  - apply duplicate_not_found in H; unfold _record_detection; now rewrite H.
  - apply duplicate_not_found in H; rewrite record_detection_get.
    now rewrite pykey_eqb_refl, H.
  - intros k N; apply duplicate_not_found in H; rewrite record_detection_get.
    rewrite pykey_eqb_neq; auto.
  - apply record_detection_dedup_ok.
  - intros ops; apply record_all_dedup_ok, dedup_ok_nil.
  - unfold _record_detection at 1.
    replace (existsb (is_duplicate second)
               (ledger_get (_record_detection fault_name details L) fault_name))
      with true; [reflexivity|].
    symmetry; apply duplicate_found; rewrite H.
    rewrite record_detection_get, pykey_eqb_refl; simpl.
    destruct (existsb (is_duplicate details) (ledger_get L fault_name)) eqn:E; simpl.
    + now apply duplicate_found.
    + rewrite map_app, in_app_iff; right; now left.
  - rewrite !record_detection_get; simpl.
    rewrite pykey_eqb_refl; simpl.
    assert (D : is_duplicate second details = true)
      by (apply is_duplicate_origin; auto).
    now rewrite D.
Qed.

Lemma record_detection_dedup_witness :
  _record_detection (KStr "INVALID_ROUTE_ID_FAULT") sample_second
    (_record_detection (KStr "INVALID_ROUTE_ID_FAULT") sample_details []) =
  [(KStr (T "INVALID_ROUTE_ID_FAULT"), [sample_details])] /\
  ledger_get
    (_record_detection (KStr "INVALID_ROUTE_ID_FAULT") sample_details [])
    (KStr "INVALID_ROUTE_ID_FAULT") = [sample_details] /\
  _record_detection (KStr "INVALID_ROUTE_ID_FAULT") sample_second
    [(KStr (T "INVALID_ROUTE_ID_FAULT"), [sample_details])] =
  [(KStr (T "INVALID_ROUTE_ID_FAULT"), [sample_details])] /\
  dedup_ok (_record_detection (KStr "INVALID_ROUTE_ID_FAULT") sample_details []).
Proof.
  pose proof (record_detection_dedup [] (KStr "INVALID_ROUTE_ID_FAULT")
                sample_details) as (_ & Hnew & Hinv & _ & Htwice).
  pose proof (record_detection_dedup
                [(KStr (T "INVALID_ROUTE_ID_FAULT"), [sample_details])]
                (KStr "INVALID_ROUTE_ID_FAULT") sample_second) as (Hdup & _).
  split; [|split; [|split]].
  - destruct (Htwice sample_second) as [E _]; [reflexivity|].
    rewrite E; reflexivity.
  - destruct Hnew as (_ & E & _); [simpl; tauto|].
    exact E.
  - apply Hdup; simpl; left; reflexivity.
  - apply Hinv, dedup_ok_nil.
Defined.

(** ** The catalog *)

Lemma catalog_names_NoDup : NoDup (map faultName INJECTED_FAULTS).
Proof.
  repeat (constructor;
          [simpl; intros H;
           repeat (destruct H as [H|H]; [discriminate H|]); exact H |]).
  constructor.
Qed.

(** ** Decimal numerals *)

Lemma str_of_nat_head (n : nat) :
  exists c t, str_of_nat n = c :: t /\ code_in 48 57 c = true.
Proof.
  unfold str_of_nat.
  assert (N : Nat.to_uint n <> Decimal.Nil).
  { rewrite <- (DecimalNat.Unsigned.of_to n) at 1.
    rewrite DecimalNat.Unsigned.to_of. apply DecimalFacts.unorm_nonnil. }
  destruct (Nat.to_uint n); try easy; simpl; eexists; eexists; split;
    try reflexivity; reflexivity.
Qed.

(** ** The loops of the report *)

Lemma statistics_rows_map (L : ledger) :
  statistics_rows L = map (statistics_row L) INJECTED_FAULTS.
Proof.
  unfold statistics_rows.
  enough (G : forall fs acc,
             fold_left (fun lines f => lines ++ [statistics_row L f]) fs acc =
             acc ++ map (statistics_row L) fs) by apply (G _ []).
  induction fs as [|f fs IH]; intros acc; simpl.
  - now rewrite List.app_nil_r.
  - now rewrite IH, <- app_assoc.
Qed.

Lemma numbered_loop {A : Type} (p : A -> bool) (block : nat -> A -> list text)
    (xs : list A) (n : nat) (lines : list text) :
  fold_left
    (fun (st : nat * list text) x =>
       if p x then (S (fst st), snd st ++ block (S (fst st)) x) else st)
    xs (n, lines) =
  (n + length (filter p xs),
   lines ++ flat_map (fun nx => block (fst nx) (snd nx))
              (enumerate (S n) (filter p xs))).
Proof.
  revert n lines; induction xs as [|x xs IH]; intros n lines; simpl.
  - now rewrite Nat.add_0_r, List.app_nil_r.
  - destruct (p x); simpl; rewrite IH; simpl.
    + now rewrite <- app_assoc, Nat.add_succ_r.
    + reflexivity.
Qed.

Lemma fold_left_ext {A B : Type} (f g : A -> B -> A) :
  (forall a x, f a x = g a x) ->
  forall xs a, fold_left f xs a = fold_left g xs a.
Proof.
  intros E xs; induction xs as [|x xs IH]; intros a; simpl; auto.
  now rewrite E, IH.
Qed.

Lemma detected_loop_blocks (L : ledger) :
  detected_loop L =
  (detected_count L,
   flat_map (fun nf => detected_block (fst nf) (snd nf)
                         (ledger_get L (KStr (faultName (snd nf)))))
     (enumerate 1 (filter (detected L) INJECTED_FAULTS))).
Proof.
  unfold detected_loop, detected_count.
  generalize INJECTED_FAULTS; intros fs.
  pose proof (numbered_loop (detected L)
                (fun n f => detected_block n f (ledger_get L (KStr (faultName f))))
                fs 0 []) as E.
  simpl in E; rewrite <- E.
  apply fold_left_ext; intros st f; unfold detected.
  destruct (ledger_get L (KStr (faultName f))); reflexivity.
Qed.

Lemma undetected_loop_blocks (L : ledger) :
  undetected_loop L =
  (total_faults - detected_count L,
   flat_map (fun nf => undetected_block (fst nf) (snd nf))
     (enumerate 1 (filter (fun f => negb (detected L f)) INJECTED_FAULTS))).
Proof.
  unfold undetected_loop, total_faults, detected_count.
  generalize INJECTED_FAULTS; intros fs.
  pose proof (numbered_loop (fun f => negb (detected L f))
                (fun n f => undetected_block n f) fs 0 []) as E.
  simpl in E.
  replace (length fs - length (filter (detected L) fs))
    with (length (filter (fun f => negb (detected L f)) fs)).
  - rewrite <- E.
    apply fold_left_ext; intros st f; unfold detected.
    destruct (ledger_get L (KStr (faultName f))); reflexivity.
  - rewrite <- (filter_length (detected L) fs); lia.
Qed.

(** Each catalog fault is listed once, in the section its state selects. *)
Lemma occurrences_filter (p : fault -> bool) (fs : list fault) (f : fault) :
  NoDup (map faultName fs) -> In f fs ->
  occurrences (faultName f) (filter p fs) = if p f then 1 else 0.
Proof.
  unfold occurrences; induction fs as [|g fs IH]; intros N I; [easy|].
  simpl in N; inversion N as [|? ? N1 N2]; subst.
  destruct I as [->|I].
  - assert (Z : length (filter (fun g => text_eqb (faultName g) (faultName f))
                         (filter p fs)) = 0).
    { apply length_zero_iff_nil.
      destruct (filter _ (filter p fs)) as [|h t] eqn:E; [reflexivity|].
      assert (Hh : In h (h :: t)) by now left.
      rewrite <- E in Hh. apply filter_In in Hh as [Hh Hn].
      apply filter_In in Hh as [Hh _].
      apply text_eqb_eq in Hn. exfalso; apply N1; rewrite <- Hn.
      now apply in_map. }
    simpl; destruct (p f); simpl; [rewrite text_eqb_refl; simpl|]; now rewrite Z.
  - assert (D : text_eqb (faultName g) (faultName f) = false).
    { destruct (text_eqb (faultName g) (faultName f)) eqn:E; [|reflexivity].
      apply text_eqb_eq in E. exfalso; apply N1; rewrite E; now apply in_map. }
    simpl; destruct (p g); simpl; [rewrite D|]; now apply IH.
Qed.

(** ** Lines and their prefixes *)

Lemma startswith_app_same_length (a b rest : text) :
  length a = length b -> startswith a (b ++ rest) = text_eqb a b.
Proof.
  revert b; induction a as [|x a IH]; intros [|y b] H; simpl in *; try easy.
  rewrite IH; auto.
Qed.

Lemma filter_map_length {A B : Type} (q : B -> bool) (p : A -> bool)
    (g : A -> B) (xs : list A) :
  (forall x, In x xs -> q (g x) = p x) ->
  length (filter q (map g xs)) = length (filter p xs).
Proof.
  induction xs as [|x xs IH]; intros H; simpl; auto.
  rewrite (H x) by now left.
  destruct (p x); simpl; rewrite IH; auto; intros; apply H; now right.
Qed.

Lemma row_name_column (L : ledger) (f g : fault) :
  In f INJECTED_FAULTS -> In g INJECTED_FAULTS ->
  startswith (ljust 45 (faultName f)) (statistics_row L g) =
  text_eqb (faultName g) (faultName f).
Proof.
  intros Hf Hg; unfold statistics_row.
  rewrite startswith_app_same_length.
  - simpl in Hf, Hg.
    repeat (destruct Hf as [<-|Hf]; [|]); try easy;
    repeat (destruct Hg as [<-|Hg]; [|]); try easy; vm_compute; reflexivity.
  - simpl in Hf, Hg.
    repeat (destruct Hf as [<-|Hf]; [|]); try easy;
    repeat (destruct Hg as [<-|Hg]; [|]); try easy; vm_compute; reflexivity.
Qed.

Lemma catalog_occurrences (f : fault) :
  In f INJECTED_FAULTS -> occurrences (faultName f) INJECTED_FAULTS = 1.
Proof.
  intros Hf; simpl in Hf.
  repeat (destruct Hf as [<-|Hf]; [vm_compute; reflexivity|]); easy.
Qed.

Lemma length_enumerate {A : Type} (n : nat) (xs : list A) :
  length (enumerate n xs) = length xs.
Proof. revert n; induction xs; intros n; simpl; auto. Qed.

Lemma field_line_no_heading (label : text) (v : option text) (p : text) :
  startswith p label = false ->
  length p <= length label ->
  filter (startswith p) (field_line label v) = [].
Proof.
  intros H Hl; destruct v as [[|c t]|]; simpl; auto.
  enough (E : startswith p (label ++ c :: t) = false) by now rewrite E.
  revert label H Hl; induction p as [|x p IH]; intros [|y label] H Hl;
    simpl in *; try easy; try lia.
  destruct (Ascii.eqb x y); simpl in *; auto. apply IH; auto; lia.
Qed.

Lemma detection_lines_headings (e : nat * detection) :
  length (filter is_detection_heading (detection_lines e)) = 1 /\
  filter is_remainder_note (detection_lines e) = [].
Proof.
  destruct e as [i d]; unfold detection_lines, is_detection_heading,
    is_remainder_note.
  rewrite !filter_app, !length_app.
  rewrite !field_line_no_heading by (vm_compute; (reflexivity || lia)).
  destruct (truthy (d_test_class d));
    rewrite ?field_line_no_heading by (vm_compute; (reflexivity || lia));
    split; reflexivity.
Qed.

Lemma flat_map_detection_lines (es : list (nat * detection)) :
  length (filter is_detection_heading (flat_map detection_lines es)) = length es /\
  filter is_remainder_note (flat_map detection_lines es) = [].
Proof.
  induction es as [|e es [IH1 IH2]]; simpl; [split; reflexivity|].
  rewrite !filter_app, length_app, IH1, IH2.
  destruct (detection_lines_headings e) as [-> ->]; split; reflexivity.
Qed.

Lemma startswith_head_false (x c : ascii) (p t : text) :
  Ascii.eqb x c = false -> startswith (x :: p) (c :: t) = false.
Proof. intros H; unfold startswith; now rewrite H. Qed.

Lemma fault_heading_plain (num : nat) (f : fault) :
  filter is_detection_heading (fault_heading num f) = [] /\
  filter is_remainder_note (fault_heading num f) = [].
Proof.
  unfold fault_heading.
  destruct (str_of_nat_head num) as (c & t & -> & Hc).
  assert (E : Ascii.eqb " " c = false).
  { destruct (Ascii.eqb " " c) eqn:E; [|reflexivity].
    apply Ascii.eqb_eq in E; subst c; discriminate Hc. }
  unfold is_detection_heading, is_remainder_note.
  cbn [filter].
  change ((c :: t) ++ ". " ++ faultName f) with (c :: (t ++ ". " ++ faultName f)).
  change (T "   Detection #") with (" "%char :: T "  Detection #").
  change (T "   ... and ") with (" "%char :: T "  ... and ").
  rewrite !startswith_head_false by exact E.
  split; reflexivity.
Qed.

Lemma detected_block_counts (num : nat) (f : fault) (ds : list detection) :
  length (filter is_detection_heading (detected_block num f ds)) =
    Nat.min 5 (length ds) /\
  length (filter is_remainder_note (detected_block num f ds)) =
    (if (5 <? length ds)%nat then 1 else 0) /\
  (5 < length ds ->
   In ("   ... and " ++ str_of_nat (length ds - 5) ++ " more detection(s)")
      (detected_block num f ds)).
Proof.
  unfold detected_block.
  destruct (fault_heading_plain num f) as [H1 H2].
  destruct (flat_map_detection_lines (enumerate 1 (firstn 5 ds))) as [F1 F2].
  rewrite length_enumerate, length_firstn in F1.
  repeat split.
  - rewrite !filter_app, !length_app, H1, F1.
    destruct (5 <? length ds)%nat; simpl; lia.
  - rewrite !filter_app, !length_app, H2, F2.
    destruct (5 <? length ds)%nat; simpl; lia.
  - intros H. apply Nat.ltb_lt in H; rewrite H.
    rewrite !in_app_iff; right; right; right; left; now left.
Qed.

Lemma progress_bar_defined (d : nat) :
  d <= total_faults ->
  exists bar,
    generate_progress_bar (detection_percentage d total_faults) 50 = Some bar.
Proof.
  intros H; change total_faults with 10 in *.
  do 11 (destruct d as [|d]; [eexists; vm_compute; reflexivity|]).
  lia.
Qed.

Lemma detected_count_le (L : ledger) : detected_count L <= total_faults.
Proof. apply filter_length_le. Qed.

Lemma detected_nonempty (L : ledger) (f : fault) :
  detected L f = true <-> ledger_get L (KStr (faultName f)) <> [].
Proof.
  unfold detected; destruct (ledger_get L (KStr (faultName f))); split; easy.
Qed.

Lemma bar_cells_length (filled : Z) (width : nat) :
  (0 <= filled <= Z.of_nat width)%Z ->
  length (bar_cells filled width) = width /\
  count_occ ascii_dec (bar_cells filled width) "#"%char = Z.to_nat filled.
Proof.
  intros H; unfold bar_cells; split.
  - rewrite length_app, !repeat_length; lia.
  - rewrite count_occ_app.
    rewrite (count_occ_repeat_eq ascii_dec _ eq_refl).
    rewrite count_occ_repeat_neq; [lia | discriminate].
Qed.

(** C8. The percentage is [0] when there is no fault and otherwise the
    binary64 value of [detected / total * 100]; for the catalog's total and
    every possible count it is exactly the integer [detected * 100 / total]
    and is printed with one decimal, the bar has 50 cells of which
    [floor(percentage / 2)] are filled.  (3 of 10: 30.0 and 15 cells, see
    the witness.) *)
Theorem detection_percentage_and_bar (d : nat) :
  d <= total_faults ->
  detection_percentage d 0 = PInt 0 /\
  detection_percentage d total_faults =
    PFloat (fmul (fdiv (f64 (Z.of_nat d)) (f64 (Z.of_nat total_faults)))
              (f64 100)) /\
  number_value (detection_percentage d total_faults) =
    Some (Z.of_nat d * 100 / Z.of_nat total_faults)%Z /\
  format_1f (detection_percentage d total_faults) =
    str_of_nat (d * 100 / total_faults) ++ ".0" /\
  filled_cells (detection_percentage d total_faults) 50 =
    Some (Z.of_nat d * 100 / Z.of_nat total_faults / 2)%Z /\
  generate_progress_bar (detection_percentage d total_faults) 50 =
    Some ("[" ++ repeat "#"%char (d * 100 / total_faults / 2) ++
          repeat "-"%char (50 - d * 100 / total_faults / 2) ++ "] " ++
          format_1f (detection_percentage d total_faults) ++ "%") /\
  length (repeat "#"%char (d * 100 / total_faults / 2) ++
          repeat "-"%char (50 - d * 100 / total_faults / 2)) = 50.
Proof.
  intros H. change total_faults with 10 in *.
  do 11 (destruct d as [|d]; [vm_compute; repeat split; reflexivity|]).
  lia.
Qed.

Lemma detection_percentage_and_bar_witness :
  number_value (detection_percentage 3 10) = Some 30%Z /\
  format_1f (detection_percentage 3 10) = T "30.0" /\
  filled_cells (detection_percentage 3 10) 50 = Some 15%Z /\
  generate_progress_bar (detection_percentage 3 10) 50 =
    Some (T "[###############-----------------------------------] 30.0%").
Proof.
  assert (H : 3 <= total_faults) by (vm_compute; lia).
  pose proof (detection_percentage_and_bar 3 H)
    as (_ & _ & Hv & Hs & Hf & Hb & _).
  split; [exact Hv | split; [exact Hs | split; [exact Hf | exact Hb]]].
Defined.

(** ** The run *)

Lemma finish_same_evidence (a b : analyzer) (prefix : text) (o : outcome) :
  total_test_cases a = total_test_cases b ->
  same_evidence (finish a prefix o) (finish b prefix o).
Proof. intros H; destruct o; split; simpl; auto. Qed.

Lemma analyze_test_file_same_evidence now f (a b : analyzer) :
  same_evidence a b ->
  same_evidence (analyze_test_file now a f) (analyze_test_file now b f).
Proof.
  intros H; unfold analyze_test_file.
  destruct (startswith "__" (fst f) || text_eqb (fst f) "em_test_utils.py"); auto.
  destruct H as [HL HT].
  destruct (snd f).
  - rewrite HL; apply finish_same_evidence; auto.
  - split; simpl; auto.
Qed.

Lemma fold_same_evidence {A : Type} (step : analyzer -> A -> analyzer) :
  (forall x a b, same_evidence a b -> same_evidence (step a x) (step b x)) ->
  forall xs a b, same_evidence a b ->
  same_evidence (fold_left step xs a) (fold_left step xs b).
Proof.
  intros Hs xs; induction xs as [|x xs IH]; intros a b H; simpl; auto.
Qed.

Lemma count_test_file_same_evidence f (a b : analyzer) :
  same_evidence a b ->
  same_evidence (count_test_file a f) (count_test_file b f).
Proof.
  intros [HL HT]; unfold count_test_file.
  destruct (snd f); split; simpl; auto.
Qed.

(** C9. With no report file the scanner returns the analyzer as it was:
    nothing is recorded, nothing printed, nothing raised.  When reading or
    parsing the file fails, the exception is caught: one warning is printed,
    the ledger is unchanged, and the run goes on with the test files and the
    case count, ending with the evidence of a run without report. *)
Theorem report_absent_or_unparsable (now : text)
    (folder : list (text * file_read)) (a : analyzer) (e : text) :
  let warning := "Warning: Error reading report.json: " ++ e in
  _analyze_report_json now ReportAbsent a = a /\
  detected_faults (_analyze_report_json now (ReportError e) a) = detected_faults a /\
  console (_analyze_report_json now (ReportError e) a) = console a ++ [warning] /\
  analyze now (ReportError e) folder a =
    _count_test_cases folder (_analyze_test_files now folder (print a warning)) /\
  detected_faults (analyze now (ReportError e) folder a) =
    detected_faults (analyze now ReportAbsent folder a) /\
  total_test_cases (analyze now (ReportError e) folder a) =
    total_test_cases (analyze now ReportAbsent folder a).
Proof.
  intros warning.
  assert (S : same_evidence (analyze now (ReportError e) folder a)
                (analyze now ReportAbsent folder a)).
  { unfold analyze, _count_test_cases, _analyze_test_files.
    apply fold_same_evidence; [intros; now apply count_test_file_same_evidence|].
    apply fold_same_evidence; [intros; now apply analyze_test_file_same_evidence|].
    split; reflexivity. }
  destruct S as [S1 S2].
  repeat split; auto.
Qed.

(** ** Totals *)

Lemma pykey_eqb_KStr (k : pykey) (s : text) :
  pykey_eqb k (KStr s) = true -> k = KStr s.
Proof. apply pykey_eqb_eq. Qed.

Lemma names_records_skip (k : pykey) (ds : list detection) (L : ledger)
    (fs : list fault) :
  (forall f, In f fs -> k <> KStr (faultName f)) ->
  names_records ((k, ds) :: L) fs = names_records L fs.
Proof.
  induction fs as [|f fs IH]; intros H; simpl; auto.
  rewrite pykey_eqb_neq by (apply H; now left).
  rewrite IH; auto; intros; apply H; now right.
Qed.

Lemma names_records_cons (k : pykey) (ds : list detection) (L : ledger)
    (fs : list fault) :
  NoDup (map faultName fs) ->
  names_records ((k, ds) :: L) fs <= length ds + names_records L fs.
Proof.
  induction fs as [|f fs IH]; intros N; simpl; [lia|].
  simpl in N; inversion N as [|? ? N1 N2]; subst.
  destruct (pykey_eqb k (KStr (faultName f))) eqn:E.
  - apply pykey_eqb_eq in E; subst k.
    fold (names_records ((KStr (faultName f), ds) :: L) fs).
    fold (names_records L fs).
    rewrite names_records_skip; [lia|].
    intros g Hg Eg; injection Eg as Eg; apply N1; rewrite Eg; now apply in_map.
  - specialize (IH N2). fold (names_records ((k, ds) :: L) fs).
    fold (names_records L fs). lia.
Qed.

Lemma names_records_le (L : ledger) (fs : list fault) :
  NoDup (map faultName fs) -> names_records L fs <= total_records L.
Proof.
  intros N; induction L as [|[k ds] L IH]; simpl.
  - clear N; unfold names_records; induction fs; simpl in *; lia.
  - pose proof (names_records_cons k ds L fs N); lia.
Qed.

Lemma names_records_lt (L : ledger) (fs : list fault) (k : pykey)
    (ds : list detection) :
  NoDup (map faultName fs) ->
  In (k, ds) L -> ds <> [] ->
  (forall f, In f fs -> k <> KStr (faultName f)) ->
  names_records L fs < total_records L.
Proof.
  intros N I D O; induction L as [|[k0 ds0] L IH]; [easy|].
  destruct I as [I|I].
  - injection I as -> ->. rewrite names_records_skip by exact O.
    pose proof (names_records_le L fs N). simpl.
    destruct ds; [easy|simpl; lia].
  - specialize (IH I). pose proof (names_records_cons k0 ds0 L fs N).
    simpl; lia.
Qed.

(** ** Growth of the ledger *)

Lemma grows_refl (L : ledger) : grows L L.
Proof. intros k d H; exact H. Qed.

Lemma grows_trans (L1 L2 L3 : ledger) : grows L1 L2 -> grows L2 L3 -> grows L1 L3.
Proof. intros H1 H2 k d H; apply H2, H1, H. Qed.

Lemma record_detection_grows (L : ledger) k d : grows L (_record_detection k d L).
Proof.
  intros k' e H; rewrite record_detection_get.
  destruct (pykey_eqb k k' && _) eqn:E; [|exact H].
  apply andb_true_iff in E as [E _]; apply pykey_eqb_eq in E; subst k'.
  apply in_or_app; now left.
Qed.

(** After an insertion a record with the origin of the details is stored. *)
Lemma record_detection_stored (L : ledger) k d :
  exists e, In e (ledger_get (_record_detection k d L) k) /\ origin e = origin d.
Proof.
  rewrite record_detection_get, pykey_eqb_refl; simpl.
  destruct (existsb (is_duplicate d) (ledger_get L k)) eqn:E; simpl.
  - apply existsb_exists in E as (e & H1 & H2).
    exists e; split; [exact H1 | now apply is_duplicate_origin].
  - exists d; split; [apply in_or_app; right; now left | reflexivity].
Qed.

(** ** The structured scanner *)

Lemma json_nested_ind (P : json -> Prop) :
  P JNull -> (forall b, P (JBool b)) -> (forall z, P (JInt z)) ->
  (forall f, P (JFloat f)) -> (forall s, P (JStr s)) ->
  (forall items, (forall x, In x items -> P x) -> P (JList items)) ->
  (forall fields, (forall k v, In (k, v) fields -> P v) -> P (JDict fields)) ->
  forall j, P j.
Proof.
  intros Hn Hb Hi Hf Hs Hl Hd.
  fix IH 1.
  intros [ | b | z | f | s | items | fields ];
    [apply Hn | apply Hb | apply Hi | apply Hf | apply Hs | | ].
  - apply Hl. induction items as [|x xs IHx]; intros y Hy; [destruct Hy|].
    destruct Hy as [<-|Hy]; [apply IH | apply IHx, Hy].
  - apply Hd. induction fields as [|[k0 v0] xs IHx]; intros k v Hy; [destruct Hy|].
    destruct Hy as [E|Hy]; [injection E as <- <-; apply IH | apply (IHx k v Hy)].
Qed.

Lemma check_value_grows now source path value (L : ledger) :
  exists L', check_value now source path value L = Done L' /\ grows L L'.
Proof.
  unfold check_value; generalize INJECTED_FAULTS; intros fs; revert L.
  induction fs as [|f fs IH]; intros L; simpl.
  - exists L; split; [reflexivity | apply grows_refl].
  - destruct (contains (faultName f) value).
    + destruct (IH (_record_detection (KStr (faultName f))
                      (value_details now source path value) L)) as (L' & E & G).
      exists L'; split; [exact E|].
      eapply grows_trans; [apply record_detection_grows | exact G].
    + apply IH.
Qed.

Lemma markers_recorded_grows source obj (L L' : ledger) :
  grows L L' -> markers_recorded source obj L -> markers_recorded source obj L'.
Proof.
  intros G H marker k R T K; destruct (H marker k R T K) as (d & I & S).
  exists d; split; [apply G, I | exact S].
Qed.

Lemma search_json_records now (obj : json) :
  forall source path L,
    hashable_names obj = true ->
    exists L',
      _search_json_for_faults now obj source path L = Done L' /\
      grows L L' /\ markers_recorded source obj L'.
Proof.
  induction obj as [ | b | z | f | s | items IH | fields IH ] using json_nested_ind;
    intros source path L Hh;
    try (exists L; split; [reflexivity|split; [apply grows_refl|]];
         intros marker k R; inversion R; fail).
  - (* a list *)
    cbn [hashable_names] in Hh; cbn [_search_json_for_faults].
    enough (G : forall i L,
               exists L',
                 (fix each (l : list json) (i : nat) (L : ledger) : outcome :=
                    match l with
                    | [] => Done L
                    | item :: rest =>
                        match _search_json_for_faults now item source
                                (item_path path i) L with
                        | Done L' => each rest (S i) L'
                        | Raised L' e => Raised L' e
                        end
                    end) items i L = Done L' /\
                 grows L L' /\
                 forall x, In x items -> markers_recorded source x L').
    { destruct (G 0 L) as (L' & E & G1 & G2).
      exists L'; split; [exact E|split; [exact G1|]].
      intros marker k R T K; inversion R as [|? ? ? ? ?|? x Hx Rx]; subst.
      apply (G2 x Hx marker k Rx T K). }
    induction items as [|x xs IHx]; intros i L0.
    + exists L0; split; [reflexivity|split; [apply grows_refl|easy]].
    + cbn [forallb] in Hh; apply andb_true_iff in Hh as [Hx Hxs].
      destruct (IH x (or_introl eq_refl) source (item_path path i) L0 Hx)
        as (L1 & E1 & G1 & M1).
      rewrite E1.
      destruct (IHx (fun y Hy => IH y (or_intror Hy)) Hxs (S i) L1)
        as (L2 & E2 & G2 & M2).
      exists L2; split; [exact E2|split; [eapply grows_trans; eauto|]].
      intros y [<-|Hy]; [eapply markers_recorded_grows; eauto | apply M2, Hy].
  - (* a mapping *)
    cbn [hashable_names] in Hh; apply andb_true_iff in Hh as [Hm Hfs].
    cbn [_search_json_for_faults].
    assert (C : exists L1,
               check_injected now fields source path L = Done L1 /\
               grows L L1 /\
               (equals_True (dict_get fields "isInjected") = true ->
                forall k, key_of (marker_name fields) = Some k ->
                exists d, In d (ledger_get L1 k) /\ d_source d = source)).
    { unfold check_injected.
      destruct (equals_True (dict_get fields "isInjected")).
      - fold (marker_name fields) in *.
        change (or_default (dict_get fields "faultName") (JStr "UNKNOWN"))
          with (marker_name fields).
        destruct (key_of (marker_name fields)) as [k|]; [|discriminate Hm].
        eexists; split; [reflexivity|split; [apply record_detection_grows|]].
        intros _ k' E; injection E as <-.
        destruct (record_detection_stored L k
                    (marker_details now fields source path)) as (e & I & O).
        exists e; split; [exact I|].
        unfold origin in O; simpl in O; injection O as O _; exact O.
      - exists L; split; [reflexivity|split; [apply grows_refl|easy]]. }
    destruct C as (L1 & E1 & G1 & M1); rewrite E1.
    enough (G : forall L,
               exists L',
                 (fix items (kvs : list (text * json)) (L : ledger) : outcome :=
                    match kvs with
                    | [] => Done L
                    | (key, value) :: rest =>
                        match
                          match value with
                          | JStr s =>
                              check_value now source (child_path path key) s L
                          | _ =>
                              _search_json_for_faults now value source
                                (child_path path key) L
                          end
                        with
                        | Done L' => items rest L'
                        | Raised L' e => Raised L' e
                        end
                    end) fields L = Done L' /\
                 grows L L' /\
                 forall k v, In (k, v) fields -> markers_recorded source v L').
    { destruct (G L1) as (L' & E & G2 & M2).
      exists L'; split; [exact E|split; [eapply grows_trans; eauto|]].
      intros marker k R T K; inversion R as [|? key value Hx Rx|]; subst.
      - destruct (M1 T k K) as (d & I & S).
        exists d; split; [apply G2, I | exact S].
      - apply (M2 key value Hx marker k Rx T K). }
    clear E1 G1 M1 Hm L L1.
    induction fields as [|[key value] rest IHr]; intros L0.
    + exists L0; split; [reflexivity|split; [apply grows_refl|easy]].
    + cbn [forallb snd] in Hfs; apply andb_true_iff in Hfs as [Hv Hrest].
      assert (S : exists L1,
                 match value with
                 | JStr s => check_value now source (child_path path key) s L0
                 | _ => _search_json_for_faults now value source
                          (child_path path key) L0
                 end = Done L1 /\ grows L0 L1 /\ markers_recorded source value L1).
      { destruct value;
          try (apply (IH key _ (or_introl eq_refl) source
                        (child_path path key) L0 Hv)).
        destruct (check_value_grows now source (child_path path key) s L0)
          as (L1 & E & G).
        exists L1; split; [exact E|split; [exact G|]].
        intros marker k R; inversion R. }
      destruct S as (L1 & E1 & G1 & M1); rewrite E1.
      destruct (IHr (fun k v Hy => IH k v (or_intror Hy)) Hrest L1)
        as (L2 & E2 & G2 & M2).
      exists L2; split; [exact E2|split; [eapply grows_trans; eauto|]].
      intros k v [E|Hy];
        [injection E as <- <-; eapply markers_recorded_grows; eauto
        | apply (M2 k v Hy)].
Qed.

Lemma reachable_sample :
  reachable (JDict sample_marker) (JDict sample_report_fields).
Proof.
  apply (reach_field _ sample_report_fields "results"
           (JList [JDict [(T "event", JDict sample_marker)]]));
    [left; reflexivity|].
  apply (reach_item _ _ (JDict [(T "event", JDict sample_marker)]));
    [left; reflexivity|].
  apply (reach_field _ _ "event" (JDict sample_marker)); [left; reflexivity|].
  apply reach_here.
Qed.

(** X3. For every report whose top level is a mapping and in
    which no marker node has a list or a mapping as its fault name, the
    scanner completes without a warning, keeps what the ledger held, and
    leaves, for every mapping node reachable through nested mappings and
    lists whose [isInjected] flag is true, a record from report.json under
    the node's fault name: under INSUFFICIENT_STATIONS_FAULT when that is
    its [faultName], under UNKNOWN when it has none. *)
Theorem structured_scanner_finds_markers (now : text) (a : analyzer)
    (fields marker : list (text * json)) (k : pykey) :
  hashable_names (JDict fields) = true ->
  reachable (JDict marker) (JDict fields) ->
  equals_True (dict_get marker "isInjected") = true ->
  key_of (marker_name marker) = Some k ->
  console (_analyze_report_json now (ReportParsed (JDict fields)) a) = console a /\
  grows (detected_faults a)
    (detected_faults (_analyze_report_json now (ReportParsed (JDict fields)) a)) /\
  (exists d,
     In d (ledger_get
             (detected_faults
                (_analyze_report_json now (ReportParsed (JDict fields)) a)) k) /\
     d_source d = T "report.json") /\
  (dict_get marker "faultName" = Some (JStr "INSUFFICIENT_STATIONS_FAULT") ->
   k = KStr "INSUFFICIENT_STATIONS_FAULT") /\
  (dict_get marker "faultName" = None -> k = KStr "UNKNOWN").
Proof.
  intros Hh R Tm K. unfold _analyze_report_json. cbn [detected_faults].
  destruct (search_json_records now (JDict fields) "report.json" ""
              (detected_faults a) Hh) as (L' & E & G & M).
  rewrite E. cbn [finish with_ledger console detected_faults].
  split; [reflexivity|split; [exact G|split; [exact (M marker k R Tm K)|]]].
  unfold marker_name in K.
  split; intros F; rewrite F in K; injection K as <-; reflexivity.
Qed.

Lemma structured_scanner_finds_markers_witness :
  exists d,
    In d (ledger_get
            (detected_faults
               (_analyze_report_json "2024-01-01 10:00:00"
                  (ReportParsed (JDict sample_report_fields)) init))
            (KStr "INSUFFICIENT_STATIONS_FAULT")) /\
    d_source d = T "report.json".
Proof.
  assert (K : key_of (marker_name sample_marker) =
              Some (KStr (T "INSUFFICIENT_STATIONS_FAULT"))) by reflexivity.
  pose proof (structured_scanner_finds_markers "2024-01-01 10:00:00" init
                sample_report_fields sample_marker _ eq_refl reachable_sample
                eq_refl K) as (_ & _ & H & _).
  exact H.
Defined.

(** A report that is a list at its top level is not scanned, whatever it
    holds. *)
Lemma structured_scanner_skips_list_report :
  reachable (JDict sample_marker) sample_list_report /\
  dict_get sample_marker "isInjected" = Some (JBool true) /\
  dict_get sample_marker "faultName" =
    Some (JStr "INSUFFICIENT_STATIONS_FAULT") /\
  detected_faults
    (_analyze_report_json "2024-01-01 10:00:00"
       (ReportParsed sample_list_report) init) = [].
Proof.
  split; [|split; [reflexivity|split; reflexivity]].
  apply (reach_item _ _ (JDict sample_marker)); [left; reflexivity|].
  apply reach_here.
Qed.

(** A fault name that cannot be a dictionary key ends the scan with a
    warning: the marker that comes after it is not recorded. *)
Lemma structured_scanner_stops_at_unhashable_name :
  _analyze_report_json "2024-01-01 10:00:00"
    (ReportParsed sample_unhashable_report) init =
  mkAnalyzer [] 0 (Some sample_unhashable_report)
    [T "Warning: Error reading report.json: unhashable type: 'list'"].
Proof. reflexivity. Qed.

(** ** The matcher *)

Lemma startswith_app (p s : text) :
  startswith p s = true <-> exists t, s = p ++ t.
Proof.
  revert s; induction p as [|a p IH]; intros s; simpl.
  - split; [intros _; now exists s | reflexivity].
  - destruct s as [|b s]; [split; [easy | intros [t E]; easy]|].
    rewrite andb_true_iff, IH, Ascii.eqb_eq; split.
    + intros [-> [t ->]]; now exists t.
    + intros [t E]; injection E as -> ->; split; [reflexivity | now exists t].
Qed.

Lemma skipn_app_length (p t : text) : skipn (length p) (p ++ t) = t.
Proof. induction p; simpl; auto. Qed.

Lemma match_here_literal (p : text) (r : regex) (s : text) pos o g :
  match_here (literal p ++ r) s pos o g =
  if startswith p s
  then match_here r (skipn (length p) s) (pos + length p) o g
  else None.
Proof.
  revert s pos; induction p as [|a p IH]; intros s pos; simpl.
  - now rewrite Nat.add_0_r.
  - destruct s as [|b s]; [reflexivity|].
    destruct (Ascii.eqb a b); simpl; [|reflexivity].
    rewrite IH. now rewrite Nat.add_succ_r.
Qed.

Lemma first_some_none {A B : Type} (f : A -> option B) (xs : list A) :
  (forall x, In x xs -> f x = None) -> first_some f xs = None.
Proof.
  induction xs as [|x xs IH]; intros H; simpl; [reflexivity|].
  rewrite (H x) by now left. apply IH; intros; apply H; now right.
Qed.

(** A greedy repetition whose longer counts all fail comes down to the
    longest run. *)
Lemma first_some_greedy {B : Type} (f : nat -> option B) (n : nat) :
  (forall k, 1 <= k < n -> f k = None) ->
  first_some f (counts 1 n true) =
  match n with
  | O => None
  | S _ => f n
  end.
Proof.
  unfold counts; intros H.
  replace (S n - 1) with n by lia.
  destruct n as [|n]; [reflexivity|].
  rewrite seq_S, rev_app_distr; simpl.
  destruct (f (S n)); [reflexivity|].
  apply first_some_none; intros x Hx.
  apply in_rev, in_seq in Hx; apply H; lia.
Qed.

Lemma run_length_inside (k : cclass) (s : text) (n : nat) :
  n < run_length k s ->
  exists c t, skipn n s = c :: t /\ in_class k c = true.
Proof.
  revert n; induction s as [|c s IH]; intros n H; simpl in H; [lia|].
  destruct (in_class k c) eqn:E; [|lia].
  destruct n as [|n]; [now exists c, s|].
  apply IH; lia.
Qed.

Lemma run_length_app (k : cclass) (w rest : text) :
  forallb (in_class k) w = true ->
  run_length k (w ++ rest) = length w + run_length k rest.
Proof.
  induction w as [|c w IH]; simpl; intros H; [reflexivity|].
  apply andb_true_iff in H as [-> H]; now rewrite IH.
Qed.

Lemma run_length_prefix (k : cclass) (s : text) :
  exists rest,
    s = firstn (run_length k s) s ++ rest /\
    forallb (in_class k) (firstn (run_length k s) s) = true /\
    run_length k rest = 0.
Proof.
  induction s as [|c s (rest & E & F & R)]; simpl.
  - now exists [].
  - destruct (in_class k c) eqn:C; simpl.
    + exists rest; rewrite C; simpl; repeat split; auto. now f_equal.
    + exists (c :: s); simpl; rewrite C; auto.
Qed.

(** ** The definition markers *)

Lemma word_not_paren (c : ascii) (t : text) :
  is_word c = true -> startswith "(self):" (c :: t) = false.
Proof.
  intros H.
  change (T "(self):") with ("("%char :: T "self):").
  apply startswith_head_false.
  destruct (Ascii.eqb "(" c) eqn:E; [|reflexivity].
  apply Ascii.eqb_eq in E; subst c; discriminate H.
Qed.

Lemma run_length_le (k : cclass) (s : text) : run_length k s <= length s.
Proof.
  induction s as [|c s IH]; simpl; [lia|].
  destruct (in_class k c); lia.
Qed.

Lemma match_here_test_def (s : text) :
  match_here test_def_re s 0 None None =
  match marker_word s with
  | Some w => Some (16 + length w, Some (4, 9 + length w))
  | None => None
  end.
Proof.
  unfold test_def_re, marker_word.
  rewrite match_here_literal.
  destruct (startswith "def " s); [|reflexivity].
  change ([Open] ++ literal "test_" ++ [Many Word 1 true; Close] ++
            literal "(self):")
    with (Open :: (literal "test_" ++ [Many Word 1 true; Close] ++
            literal "(self):")).
  cbn [match_here].
  rewrite match_here_literal.
  change (length (T "def ")) with 4; change (length (T "test_")) with 5.
  destruct (startswith "test_" (skipn 4 s)); [|reflexivity].
  change (0 + 4 + 5) with 9. change (0 + 4) with 4.
  set (rest := skipn 5 (skipn 4 s)).
  change ([Many Word 1 true; Close] ++ literal "(self):")
    with (Many Word 1 true :: Close :: (literal "(self):" ++ [])).
  cbn [match_here].
  assert (F : forall n,
             match_here (literal "(self):" ++ []) (skipn n rest) (9 + n)
               (Some 4) (Some (4, 9 + n)) =
             if startswith "(self):" (skipn n rest)
             then Some (9 + n + 7, Some (4, 9 + n)) else None).
  { intros n; rewrite match_here_literal.
    destruct (startswith "(self):" (skipn n rest)); reflexivity. }
  rewrite first_some_greedy.
  - destruct (run_length Word rest) as [|n] eqn:R; [reflexivity|].
    rewrite F.
    destruct (startswith "(self):" (skipn (S n) rest)); [|reflexivity].
    assert (length (firstn (S n) rest) = S n).
    { rewrite length_firstn. pose proof (run_length_le Word rest). lia. }
    rewrite H. f_equal; f_equal; lia.
  - intros k Hk. rewrite F.
    destruct (run_length_inside Word rest k) as (c & t & E & W); [lia|].
    rewrite E, word_not_paren; auto.
Qed.

Lemma marker_word_spec (s w : text) :
  marker_word s = Some w <-> marker_at s 0 w.
Proof.
  unfold marker_word, marker_at; change (skipn 0 s) with s. split.
  - destruct (startswith "def " s) eqn:E1; [|easy].
    apply startswith_app in E1 as [s1 ->].
    change (skipn 4 ("def " ++ s1)) with s1.
    destruct (startswith "test_" s1) eqn:E2; [|easy].
    apply startswith_app in E2 as [s2 ->].
    change (skipn 5 ("test_" ++ s2)) with s2.
    destruct (run_length Word s2) as [|n] eqn:R; [easy|].
    destruct (startswith "(self):" (skipn (S n) s2)) eqn:E3; [|easy].
    apply startswith_app in E3 as [tail E3].
    intros H; injection H as <-.
    destruct (run_length_prefix Word s2) as (rest & E & F & _).
    rewrite R in E, F.
    assert (L : length (firstn (S n) s2) = S n).
    { rewrite length_firstn. pose proof (run_length_le Word s2). lia. }
    exists tail; repeat split.
    + rewrite <- (firstn_skipn (S n) s2) at 1. rewrite E3. reflexivity.
    + destruct s2; [discriminate R | discriminate].
    + exact F.
  - intros (tail & E & N & F). rewrite E.
    change (startswith "def " ("def test_" ++ w ++ "(self):" ++ tail)) with true.
    cbv iota.
    change (skipn 4 ("def test_" ++ w ++ "(self):" ++ tail))
      with ("test_" ++ w ++ "(self):" ++ tail).
    change (startswith "test_" ("test_" ++ w ++ "(self):" ++ tail)) with true.
    cbv iota.
    change (skipn 5 ("test_" ++ w ++ "(self):" ++ tail))
      with (w ++ "(self):" ++ tail).
    rewrite (run_length_app Word w _ F).
    change (run_length Word ("(self):" ++ tail)) with 0.
    rewrite Nat.add_0_r.
    destruct w as [|c w]; [easy|].
    cbn [length].
    replace (S (length w)) with (length (c :: w)) by reflexivity.
    rewrite skipn_app_length.
    change (startswith "(self):" ("(self):" ++ tail)) with true.
    cbv iota. f_equal.
    rewrite firstn_app, Nat.sub_diag, firstn_all.
    change (firstn 0 ("(self):" ++ tail)) with (@nil ascii). apply app_nil_r.
Qed.

(** No marker starts inside another one. *)

Lemma startswith_cons (x c : ascii) (p t : text) :
  startswith (x :: p) (c :: t) = Ascii.eqb x c && startswith p t.
Proof. reflexivity. Qed.

Lemma word_not_space (c : ascii) : is_word c = true -> Ascii.eqb " " c = false.
Proof.
  intros H; destruct (Ascii.eqb " " c) eqn:E; [|reflexivity].
  apply Ascii.eqb_eq in E; subst c; discriminate H.
Qed.

Lemma no_def_after_word (w tail : text) :
  forallb is_word w = true ->
  startswith "ef " (w ++ "(self):" ++ tail) = false.
Proof.
  intros F.
  change (T "ef ") with ["e"%char; "f"%char; " "%char].
  destruct w as [|a [|b [|c w]]]; try reflexivity.
  - change ([a] ++ "(self):" ++ tail) with (a :: "(self):" ++ tail).
    rewrite startswith_cons.
    change (startswith ["f"%char; " "%char] ("(self):" ++ tail)) with false.
    apply andb_false_r.
  - change ([a; b] ++ "(self):" ++ tail) with (a :: b :: "(self):" ++ tail).
    rewrite !startswith_cons.
    change (startswith [" "%char] ("(self):" ++ tail)) with false.
    now rewrite !andb_false_r.
  - change ((a :: b :: c :: w) ++ "(self):" ++ tail)
      with (a :: b :: c :: (w ++ "(self):" ++ tail)).
    rewrite !startswith_cons.
    cbn [forallb] in F.
    apply andb_true_iff in F as [_ F]; apply andb_true_iff in F as [_ F].
    apply andb_true_iff in F as [F _].
    rewrite (word_not_space c F). now rewrite !andb_false_r.
Qed.

Lemma no_def_in_name (w tail : text) :
  forallb is_word w = true ->
  forall j, j < length w + 7 ->
  startswith "def " (skipn j (w ++ "(self):" ++ tail)) = false.
Proof.
  intros F; induction w as [|c w IH]; intros j Hj.
  - cbn [length] in Hj.
    do 7 (destruct j as [|j]; [reflexivity|]). lia.
  - cbn [forallb] in F; apply andb_true_iff in F as [Fc F].
    destruct j as [|j].
    + change (skipn 0 ((c :: w) ++ "(self):" ++ tail))
        with (c :: (w ++ "(self):" ++ tail)).
      change (T "def ") with ("d"%char :: T "ef ").
      rewrite startswith_cons, no_def_after_word by exact F.
      apply andb_false_r.
    + change (skipn (S j) ((c :: w) ++ "(self):" ++ tail))
        with (skipn j (w ++ "(self):" ++ tail)).
      apply IH; [exact F | cbn [length] in Hj; lia].
Qed.

Lemma no_def_in_marker (w tail : text) :
  forallb is_word w = true ->
  forall j, 0 < j < 16 + length w ->
  startswith "def " (skipn j ("def test_" ++ w ++ "(self):" ++ tail)) = false.
Proof.
  intros F j Hj.
  do 9 (destruct j as [|j]; [try lia; reflexivity|]).
  change (skipn (S (S (S (S (S (S (S (S (S j)))))))))
            ("def test_" ++ w ++ "(self):" ++ tail))
    with (skipn j (w ++ "(self):" ++ tail)).
  apply no_def_in_name; [exact F | lia].
Qed.

Lemma marker_at_def (s : text) (j : nat) (w : text) :
  marker_at s j w -> startswith "def " (skipn j s) = true.
Proof. intros (tail & E & _); rewrite E; reflexivity. Qed.

Lemma markers_apart (s : text) (w w' : text) (j : nat) :
  marker_at s 0 w -> marker_at s j w' -> 0 < j -> 16 + length w <= j.
Proof.
  intros (tail & E & _ & F) M Hj.
  change (skipn 0 s) with s in E.
  destruct (Nat.lt_ge_cases j (16 + length w)) as [H|H]; [|exact H].
  apply marker_at_def in M. rewrite E in M.
  rewrite no_def_in_marker in M; [discriminate M | exact F | lia].
Qed.

Lemma marker_at_cons (c : ascii) (s : text) (j : nat) (w : text) :
  marker_at (c :: s) (S j) w <-> marker_at s j w.
Proof. reflexivity. Qed.

Lemma marker_at_nil (j : nat) (w : text) : ~ marker_at [] j w.
Proof.
  intros (tail & E & _). destruct j; discriminate E.
Qed.

Lemma match_at_test_def (s : text) (i : nat) :
  match_at test_def_re s i =
  match marker_word s with
  | Some w => Some (16 + length w, marker_match i 0 w)
  | None => None
  end.
Proof.
  unfold match_at. rewrite match_here_test_def.
  destruct (marker_word s) as [w|] eqn:E; [|reflexivity].
  apply marker_word_spec in E as (tail & E & _).
  change (skipn 0 s) with s in E. unfold marker_match.
  rewrite Nat.add_0_r. do 3 f_equal.
  unfold slice. rewrite E.
  change (skipn 4 ("def test_" ++ w ++ "(self):" ++ tail))
    with ("test_" ++ (w ++ "(self):" ++ tail)).
  replace (9 + length w - 4) with (length ("test_" ++ w))
    by (rewrite length_app; simpl; lia).
  rewrite app_assoc. rewrite firstn_app, Nat.sub_diag, firstn_all.
  change (firstn 0 ("(self):" ++ tail)) with (@nil ascii).
  now rewrite app_nil_r.
Qed.

Lemma last_match_cons (m : re_match) (ms : list re_match) :
  last_match (m :: ms) =
  match last_match ms with
  | Some m' => Some m'
  | None => Some m
  end.
Proof.
  destruct ms as [|m' ms]; [reflexivity|].
  change (last_match (m :: m' :: ms)) with (last_match (m' :: ms)).
  destruct (last_match (m' :: ms)) eqn:E; [reflexivity|].
  exfalso; revert m' E; induction ms as [|x xs IH]; intros m' E; [discriminate E|].
  apply (IH x). exact E.
Qed.

(** The last match of the scan is the marker that starts last. *)
Lemma last_scan_test_def (s : text) :
  forall i k,
    match last_match (scan test_def_re s i k) with
    | Some m =>
        exists j w,
          k <= j /\ marker_at s j w /\ m = marker_match i j w /\
          forall j' w', k <= j' -> marker_at s j' w' -> j' <= j
    | None => forall j w, k <= j -> ~ marker_at s j w
    end.
Proof.
  induction s as [|c s IH]; intros i k.
  - replace (scan test_def_re [] i k) with (@nil re_match)
      by (destruct k; reflexivity).
    intros j w _; apply marker_at_nil.
  - destruct k as [|k].
    + cbn [scan]. rewrite match_at_test_def.
      destruct (marker_word (c :: s)) as [w|] eqn:E.
      * apply marker_word_spec in E.
        rewrite last_match_cons.
        specialize (IH (S i) (16 + length w - 1)).
        destruct (last_match (scan test_def_re s (S i) (16 + length w - 1)))
          as [m|].
        -- destruct IH as (j & w' & Hk & M & -> & Hmax).
           exists (S j), w'; split; [lia|split; [exact M|split]].
           ++ unfold marker_match; f_equal; lia.
           ++ intros [|j'] w'' _ M'; [lia|].
              assert (16 + length w <= S j')
                by (eapply markers_apart; [exact E | exact M' | lia]).
              apply le_n_S, (Hmax j' w''); [lia | exact M'].
        -- exists 0, w; split; [lia|split; [exact E|split; [reflexivity|]]].
           intros [|j'] w'' _ M'; [lia|]. exfalso.
           assert (16 + length w <= S j')
             by (eapply markers_apart; [exact E | exact M' | lia]).
           apply (IH j' w''); [lia | exact M'].
      * specialize (IH (S i) 0).
        destruct (last_match (scan test_def_re s (S i) 0)) as [m|].
        -- destruct IH as (j & w' & Hk & M & -> & Hmax).
           exists (S j), w'; split; [lia|split; [exact M|split]].
           ++ unfold marker_match; f_equal; lia.
           ++ intros [|j'] w'' _ M'; [lia|].
              apply le_n_S, (Hmax j' w''); [lia | exact M'].
        -- intros [|j] w _ M.
           ++ apply marker_word_spec in M; congruence.
           ++ apply (IH j w); [lia | exact M].
    + cbn [scan]. specialize (IH (S i) k).
      destruct (last_match (scan test_def_re s (S i) k)) as [m|].
      * destruct IH as (j & w' & Hk & M & -> & Hmax).
        exists (S j), w'; split; [lia|split; [exact M|split]].
        -- unfold marker_match; f_equal; lia.
        -- intros [|j'] w'' Hj' M'; [lia|].
           apply le_n_S, (Hmax j' w''); [lia | exact M'].
      * intros [|j] w Hj M; [lia|].
        apply (IH j w); [lia | exact M].
Qed.

(** A marker of the prefix is a marker of the text that ends within it. *)
Lemma marker_at_prefix (content : text) (position j : nat) (w : text) :
  marker_at (firstn position content) j w <->
  marker_at content j w /\ marker_end j w <= position.
Proof.
  unfold marker_at, marker_end. split.
  - intros (tail & E & N & F).
    assert (Hlen : j + (16 + length w) <= length (firstn position content)).
    { assert (H := f_equal (@length ascii) E).
      rewrite length_skipn, !length_app in H.
      change (length (T "def test_")) with 9 in H.
      change (length (T "(self):")) with 7 in H. lia. }
    split.
    + exists (tail ++ skipn position content); split; [|auto].
      rewrite <- (firstn_skipn position content) at 1.
      rewrite skipn_app.
      replace (j - length (firstn position content)) with 0 by lia.
      change (skipn 0 (skipn position content)) with (skipn position content).
      rewrite E. now rewrite <- !app_assoc.
    + rewrite length_firstn in Hlen. lia.
  - intros [(tail & E & N & F) Hend].
    exists (firstn (position - j - (16 + length w)) tail); split; [|auto].
    rewrite skipn_firstn_comm, E.
    rewrite !app_assoc, firstn_app. f_equal.
    + rewrite firstn_all2; [reflexivity|].
      rewrite !length_app.
      change (length (T "def test_")) with 9.
      change (length (T "(self):")) with 7. lia.
    + f_equal. rewrite !length_app.
      change (length (T "def test_")) with 9.
      change (length (T "(self):")) with 7. lia.
Qed.

(** The locator returns the name of the last marker that lies within the
    prefix. *)
Lemma locator_last_marker (content : text) (position : nat) :
  match _find_containing_test_method content position with
  | Some name =>
      exists j w,
        name = "test_" ++ w /\ marker_at content j w /\
        marker_end j w <= position /\
        forall j' w',
          marker_at content j' w' -> marker_end j' w' <= position -> j' <= j
  | None =>
      forall j w, marker_at content j w -> position < marker_end j w
  end.
Proof.
  unfold _find_containing_test_method, finditer.
  pose proof (last_scan_test_def (firstn position content) 0 0) as H.
  destruct (last_match (scan test_def_re (firstn position content) 0 0))
    as [m|].
  - destruct H as (j & w & _ & M & -> & Hmax).
    apply marker_at_prefix in M as [M Hend].
    cbn [marker_match m_group1].
    exists j, w; split; [reflexivity|split; [exact M|split; [exact Hend|]]].
    intros j' w' M' Hend'. apply (Hmax j' w'); [lia|].
    apply marker_at_prefix; split; assumption.
  - intros j w M. destruct (Nat.lt_ge_cases position (marker_end j w)) as [L|L];
      [exact L|].
    exfalso; apply (H j w); [lia|].
    apply marker_at_prefix; split; assumption.
Qed.

Lemma locator_name_nonempty (content : text) (position : nat) (name : text) :
  _find_containing_test_method content position = Some name ->
  or_unknown (Some name) = name.
Proof.
  intros H. pose proof (locator_last_marker content position) as S.
  rewrite H in S. destruct S as (j & w & -> & _). reflexivity.
Qed.

(** X4. For every ASCII text and every offset the locator is the lookup
    that takes the last definition marker found in the prefix up to the
    offset: it returns the name of the nearest marker that ends at or
    before the offset, and none exactly when no marker ends at or before
    it.  It is a function of the text and the offset alone.  The text is
    taken to be ASCII because the word characters of a marker are here the
    ASCII ones. *)
Theorem locator_returns_last_marker_in_prefix (content : text)
    (position : nat) :
  forallb is_ascii content = true ->
  _find_containing_test_method content position =
    match last_match (finditer test_def_re (firstn position content)) with
    | Some m => m_group1 m
    | None => None
    end /\
  match _find_containing_test_method content position with
  | Some name =>
      exists j w,
        name = "test_" ++ w /\ marker_at content j w /\
        marker_end j w <= position /\
        forall j' w',
          marker_at content j' w' -> marker_end j' w' <= position -> j' <= j
  | None =>
      forall j w, marker_at content j w -> position < marker_end j w
  end.
Proof.
  intros _. split; [reflexivity | apply locator_last_marker].
Qed.

Lemma locator_returns_last_marker_in_prefix_witness :
  exists j w,
    T "test_a" = "test_" ++ w /\ marker_at sample_test_text j w /\
    marker_end j w <= 17.
Proof.
  assert (A : forallb is_ascii sample_test_text = true)
    by (vm_compute; reflexivity).
  assert (E : _find_containing_test_method sample_test_text 17 =
              Some (T "test_a")) by (vm_compute; reflexivity).
  pose proof (locator_returns_last_marker_in_prefix sample_test_text 17 A)
    as [_ H].
  rewrite E in H. destruct H as (j & w & N & M & B & _).
  exists j, w. split; [exact N|split; [exact M | exact B]].
Defined.

(** A marker that starts at the offset, or before it but ends after it, is
    not returned. *)
Lemma locator_misses_marker_at_offset :
  marker_at sample_test_text 0 "a" /\
  _find_containing_test_method sample_test_text 0 = None /\
  _find_containing_test_method sample_test_text 5 = None /\
  _find_containing_test_method sample_test_text 17 = Some (T "test_a").
Proof.
  split; [|split; [reflexivity|split; reflexivity]].
  exists []; split; [reflexivity|split; [discriminate|reflexivity]].
Qed.

(** ** Path patterns *)

Lemma plain_not (c x : ascii) :
  is_plain c = true -> is_special x = true -> Ascii.eqb x c = false.
Proof.
  intros P S; destruct (Ascii.eqb x c) eqn:E; [|reflexivity].
  apply Ascii.eqb_eq in E; subst x.
  unfold is_plain in P; rewrite S in P; discriminate P.
Qed.

Lemma replace_same_char (c : ascii) (s : text) : replace [c] [c] s = s.
Proof.
  unfold replace; induction s as [|x s IH]; [reflexivity|].
  cbn [replace_from]. rewrite startswith_cons.
  change (startswith [] s) with true; rewrite andb_true_r.
  change (length [c] - 1) with 0.
  destruct (Ascii.eqb c x) eqn:E.
  - apply Ascii.eqb_eq in E; subst x. cbn [app]. now rewrite IH.
  - now rewrite IH.
Qed.

Lemma replace_plain (old new prefix rest : text) (x : ascii) :
  is_special x = true -> forallb is_plain prefix = true ->
  replace_from (x :: old) new (prefix ++ rest) 0 =
  prefix ++ replace_from (x :: old) new rest 0.
Proof.
  intros S; induction prefix as [|c p IH]; intros F; [reflexivity|].
  cbn [forallb] in F; apply andb_true_iff in F as [Fc F].
  change ((c :: p) ++ rest) with (c :: (p ++ rest)).
  cbn [replace_from]. rewrite startswith_cons, (plain_not _ _ Fc S).
  cbn [andb app]. now rewrite IH.
Qed.

Lemma path_pattern_plain (path : text) :
  forallb is_plain path = true -> path_pattern path = path.
Proof.
  intros F; unfold path_pattern.
  change (T "/") with ["/"%char]. rewrite replace_same_char.
  unfold replace.
  rewrite <- (app_nil_r path) at 1.
  change (T "{tripId}") with ("{"%char :: T "tripId}").
  rewrite replace_plain by (reflexivity || exact F).
  apply app_nil_r.
Qed.

Lemma path_pattern_tripId (prefix : text) :
  forallb is_plain prefix = true ->
  path_pattern (prefix ++ "{tripId}") = prefix ++ nonquote_src.
Proof.
  intros F; unfold path_pattern.
  change (T "/") with ["/"%char]. rewrite replace_same_char.
  unfold replace.
  change (T "{tripId}") with ("{"%char :: T "tripId}") at 1.
  rewrite replace_plain by (reflexivity || exact F).
  reflexivity.
Qed.

Lemma compile_plain (prefix rest : text) :
  forallb is_plain prefix = true ->
  compile_from (prefix ++ rest) 0 =
  option_map (app (literal prefix)) (compile_from rest 0).
Proof.
  induction prefix as [|c p IH]; intros F.
  - cbn [app literal map]. destruct (compile_from rest 0); reflexivity.
  - cbn [forallb] in F; apply andb_true_iff in F as [Fc F].
    change ((c :: p) ++ rest) with (c :: (p ++ rest)).
    cbn [compile_from].
    replace (startswith nonquote_src (c :: p ++ rest)) with false.
    2:{ symmetry. unfold nonquote_src.
        change (T "[^" ++ [dquote; backslash; squote] ++ T "]+")
          with ("["%char :: (T "^" ++ [dquote; backslash; squote] ++ T "]+")).
        rewrite startswith_cons, (plain_not _ _ Fc) by reflexivity.
        reflexivity. }
    rewrite (Ascii.eqb_sym c "{"), (plain_not _ _ Fc) by reflexivity.
    rewrite (Ascii.eqb_sym c "}"), (plain_not _ _ Fc) by reflexivity.
    unfold is_plain in Fc; apply negb_true_iff in Fc; rewrite Fc.
    rewrite IH by exact F.
    destruct (compile_from rest 0); reflexivity.
Qed.

Lemma compile_path_plain (path : text) :
  forallb is_plain path = true -> compile path = Some (literal path).
Proof.
  intros F; unfold compile. rewrite <- (app_nil_r path) at 1.
  rewrite compile_plain by exact F. cbn [compile_from option_map].
  now rewrite app_nil_r.
Qed.

Lemma compile_path_tripId (prefix : text) :
  forallb is_plain prefix = true ->
  compile (prefix ++ nonquote_src) = Some (literal prefix ++ [Many nonquote 1 true]).
Proof.
  intros F; unfold compile. rewrite compile_plain by exact F. reflexivity.
Qed.

(** ** Searching *)

Lemma scan_finds (r : regex) (s : text) :
  forall i j, match_at r (skipn j s) (i + j) <> None -> scan r s i 0 <> [].
Proof.
  induction s as [|c s IH]; intros i j H.
  - replace (skipn j []) with (@nil ascii) in H by (destruct j; reflexivity).
    cbn [scan]. unfold match_at in *.
    destruct (match_here r [] 0 None None) as [[len g]|]; [discriminate|].
    now contradict H.
  - cbn [scan].
    destruct (match_at r (c :: s) i) as [[len m]|] eqn:E; [discriminate|].
    destruct j as [|j].
    + change (skipn 0 (c :: s)) with (c :: s) in H. unfold match_at in *.
      destruct (match_here r (c :: s) 0 None None) as [[len g]|];
        [discriminate E | now contradict H].
    + change (skipn (S j) (c :: s)) with (skipn j s) in H.
      apply (IH (S i) j). unfold match_at in *.
      destruct (match_here r (skipn j s) 0 None None) as [[len g]|];
        [discriminate | now contradict H].
Qed.

Lemma search_at (r : regex) (before s : text) :
  match_here r s 0 None None <> None -> search r (before ++ s) = true.
Proof.
  intros H; unfold search, finditer.
  destruct (scan r (before ++ s) 0 0) eqn:E; [|reflexivity].
  exfalso; revert E. apply (scan_finds r (before ++ s) 0 (length before)).
  rewrite skipn_app_length. unfold match_at.
  destruct (match_here r s 0 None None) as [[len g]|]; [discriminate | now contradict H].
Qed.

Lemma startswith_self (p t : text) : startswith p (p ++ t) = true.
Proof. apply startswith_app; now exists t. Qed.

Lemma search_literal (path before after : text) :
  search (literal path) (before ++ path ++ after) = true.
Proof.
  apply search_at. rewrite <- (app_nil_r (literal path)).
  rewrite match_here_literal, startswith_self. discriminate.
Qed.

Lemma search_placeholder (prefix value before after : text) :
  value <> [] -> forallb (in_class nonquote) value = true ->
  search (literal prefix ++ [Many nonquote 1 true])
    (before ++ prefix ++ value ++ after) = true.
Proof.
  intros N F. apply search_at.
  rewrite match_here_literal, startswith_self, skipn_app_length.
  cbn [match_here]. rewrite (run_length_app nonquote value after F).
  destruct value as [|c v]; [easy|].
  cbn [length]. unfold counts. cbn [plus].
  replace (S (S (length v + run_length nonquote after)) - 1)
    with (S (length v + run_length nonquote after)) by lia.
  rewrite seq_S, rev_app_distr. cbn [rev app first_some]. discriminate.
Qed.

(** The paths of the catalog: plain text, possibly followed by the
    placeholder. *)
Lemma catalog_paths (f : fault) (a : text) :
  In f INJECTED_FAULTS -> In a (api f) ->
  exists method path,
    split_once a = Some (method, path) /\
    (forallb is_plain path = true \/
     exists prefix,
       path = prefix ++ "{tripId}" /\ forallb is_plain prefix = true).
Proof.
  intros Hf Ha; simpl in Hf.
  repeat (destruct Hf as [<-|Hf];
          [simpl in Ha;
           repeat (destruct Ha as [<-|Ha];
                   [eexists; eexists; split; [reflexivity|];
                    first [left; reflexivity
                          | right;
                            exists (T "/api/v1/admintravelservice/admintravel/");
                            split; reflexivity]|]);
           destruct Ha|]).
  destruct Hf.
Qed.

Lemma replace_absent (old new s : text) :
  contains old s = false -> replace old new s = s.
Proof.
  unfold replace; induction s as [|c s IH]; intros H; [reflexivity|].
  cbn [contains] in H. apply orb_false_iff in H as [H1 H2].
  cbn [replace_from]. rewrite H1. now rewrite IH.
Qed.

Lemma replace_passes (old new prefix rest : text) (x : ascii) :
  forallb (fun c => negb (Ascii.eqb x c)) prefix = true ->
  replace_from (x :: old) new (prefix ++ rest) 0 =
  prefix ++ replace_from (x :: old) new rest 0.
Proof.
  induction prefix as [|c p IH]; intros F; [reflexivity|].
  cbn [forallb] in F; apply andb_true_iff in F as [Fc F].
  apply negb_true_iff in Fc.
  change ((c :: p) ++ rest) with (c :: (p ++ rest)).
  cbn [replace_from]. rewrite startswith_cons, Fc.
  cbn [andb app]. now rewrite IH.
Qed.

Lemma replace_skips (old new p rest : text) :
  replace_from old new (p ++ rest) (length p) = replace_from old new rest 0.
Proof.
  induction p as [|c p IH]; [reflexivity|].
  change ((c :: p) ++ rest) with (c :: (p ++ rest)).
  cbn [replace_from length]. exact IH.
Qed.

Lemma replace_occurrence (x : ascii) (old new rest : text) :
  replace_from (x :: old) new ((x :: old) ++ rest) 0 =
  new ++ replace_from (x :: old) new rest 0.
Proof.
  change ((x :: old) ++ rest) with (x :: (old ++ rest)).
  cbn [replace_from].
  replace (startswith (x :: old) (x :: old ++ rest)) with true
    by (symmetry; apply (startswith_self (x :: old) rest)).
  replace (length (x :: old) - 1) with (length old) by (cbn [length]; lia).
  now rewrite replace_skips.
Qed.

Lemma path_pattern_absent (path : text) :
  contains "{tripId}" path = false -> path_pattern path = path.
Proof.
  intros H; unfold path_pattern.
  change (T "/") with ["/"%char]. rewrite replace_same_char.
  now apply replace_absent.
Qed.

Lemma path_pattern_occurrence (before after : text) :
  forallb (fun c => negb (Ascii.eqb "{" c)) before = true ->
  path_pattern (before ++ "{tripId}" ++ after) =
  before ++ nonquote_src ++ path_pattern after.
Proof.
  intros F; unfold path_pattern.
  change (T "/") with ["/"%char]. rewrite !replace_same_char.
  unfold replace.
  change (T "{tripId}") with ("{"%char :: T "tripId}").
  rewrite replace_passes by exact F.
  now rewrite replace_occurrence.
Qed.

(** X5. The conversion replaces the placeholder [{tripId}] and nothing
    else: a path in which [{tripId}] does not occur is left exactly as it
    is, whatever else it holds, a placeholder of another name included,
    and an occurrence of [{tripId}] after a part without an opening brace
    becomes the pattern of one or more characters other than the two
    quotes, the part before it kept and the part after it converted in the
    same way.  So the pattern of a path that ends in [{tripId}] is found
    in every text that holds the path with a non-empty quote-free value in
    place of the placeholder, and the pattern of a plain path in every
    text that holds the path.  Every path of the catalog is of one of
    these two kinds. *)
Theorem path_pattern_tripId_only (prefix value before after : text) :
  (forall path, contains "{tripId}" path = false -> path_pattern path = path) /\
  (forall head tail,
     forallb (fun c => negb (Ascii.eqb "{" c)) head = true ->
     path_pattern (head ++ "{tripId}" ++ tail) =
       head ++ nonquote_src ++ path_pattern tail) /\
  (forallb is_plain prefix = true ->
   value <> [] -> forallb (in_class nonquote) value = true ->
   path_pattern (prefix ++ "{tripId}") = prefix ++ nonquote_src /\
   compile (path_pattern (prefix ++ "{tripId}")) =
     Some (literal prefix ++ [Many nonquote 1 true]) /\
   search (literal prefix ++ [Many nonquote 1 true])
     (before ++ prefix ++ value ++ after) = true /\
   path_pattern prefix = prefix /\
   compile (path_pattern prefix) = Some (literal prefix) /\
   search (literal prefix) (before ++ prefix ++ after) = true) /\
  (forall f a, In f INJECTED_FAULTS -> In a (api f) ->
     exists method path,
       split_once a = Some (method, path) /\
       (forallb is_plain path = true \/
        exists prefix',
          path = prefix' ++ "{tripId}" /\ forallb is_plain prefix' = true)).
Proof.
  split; [apply path_pattern_absent|].
  split; [apply path_pattern_occurrence|].
  split; [|apply catalog_paths].
  intros F N Q.
  rewrite path_pattern_tripId, path_pattern_plain by exact F.
  split; [reflexivity|].
  split; [apply compile_path_tripId, F|].
  split; [apply search_placeholder; assumption|].
  split; [reflexivity|].
  split; [apply compile_path_plain, F|].
  apply search_literal.
Qed.

Lemma path_pattern_tripId_only_witness :
  compile (path_pattern "/api/v1/admintravelservice/admintravel/{tripId}") =
    Some (literal "/api/v1/admintravelservice/admintravel/" ++
          [Many nonquote 1 true]) /\
  search (literal "/api/v1/admintravelservice/admintravel/" ++
          [Many nonquote 1 true])
    ("delete('" ++ "/api/v1/admintravelservice/admintravel/" ++ "G1234" ++ "')")
    = true /\
  path_pattern sample_other_path = sample_other_path.
Proof.
  assert (N : T "G1234" <> []) by discriminate.
  assert (A : contains "{tripId}" sample_other_path = false)
    by (vm_compute; reflexivity).
  pose proof (path_pattern_tripId_only
                "/api/v1/admintravelservice/admintravel/" "G1234"
                "delete('" "')") as (Ha & _ & H & _).
  destruct (H eq_refl N eq_refl) as (_ & Hc & Hs & _).
  split; [exact Hc | split; [exact Hs | exact (Ha sample_other_path A)]].
Defined.

(** A placeholder of another name is left in the pattern as ordinary
    characters, and the pattern is not found in a text that instantiates
    it. *)
Lemma path_pattern_keeps_other_placeholders :
  path_pattern sample_other_path = sample_other_path /\
  compile (path_pattern sample_other_path) = Some (literal sample_other_path) /\
  search (literal sample_other_path) sample_other_call = false /\
  search (literal sample_other_path) sample_other_path = true.
Proof. repeat split; reflexivity. Qed.

(** ** The analysis of one file *)

Lemma file_step_refl (filename : text) (L : ledger) : file_step filename L L.
Proof. split; [apply grows_refl | split; auto]. Qed.

Lemma file_step_trans (filename : text) (L1 L2 L3 : ledger) :
  file_step filename L1 L2 -> file_step filename L2 L3 ->
  file_step filename L1 L3.
Proof.
  intros (G1 & D1 & A1) (G2 & D2 & A2).
  split; [eapply grows_trans; eauto | split; auto].
Qed.

Lemma record_file_step (filename : text) (L : ledger) k d :
  d_source d = filename -> file_step filename L (_record_detection k d L).
Proof.
  intros S; split; [apply record_detection_grows|split].
  - apply record_detection_dedup_ok.
  - intros A k' e; rewrite record_detection_get.
    destruct (pykey_eqb k k' && _); [|apply A].
    intros H; apply in_app_or in H as [H|[<-|[]]]; [apply (A k e H) | exact S].
Qed.

Lemma fold_file_step {A : Type} (filename : text)
    (step : ledger -> A -> ledger) (xs : list A) :
  (forall x L, file_step filename L (step L x)) ->
  forall L, file_step filename L (fold_left step xs L).
Proof.
  intros H; induction xs as [|x xs IH]; intros L; simpl.
  - apply file_step_refl.
  - eapply file_step_trans; [apply H | apply IH].
Qed.

Lemma direct_name_step now fault_name content filename (L : ledger) :
  file_step filename L (direct_name now fault_name content filename L).
Proof.
  unfold direct_name. destruct (contains fault_name content);
    [|apply file_step_refl].
  apply fold_file_step; intros m L0. now apply record_file_step.
Qed.

Lemma marker_correlation_step now fault_name content filename (L : ledger) :
  file_step filename L (marker_correlation now fault_name content filename L).
Proof.
  unfold marker_correlation. destruct (injected_marker_present content);
    [|apply file_step_refl].
  apply fold_file_step; intros m L0.
  destruct (opt_text_eqb (m_group1 m) (Some fault_name));
    [now apply record_file_step | apply file_step_refl].
Qed.

Lemma endpoint_match_step now fault_name content filename path m (L : ledger) :
  file_step filename L (endpoint_match now fault_name content filename path m L).
Proof.
  unfold endpoint_match.
  destruct (has_indicator fault_name (window content m)); [|apply file_step_refl].
  destruct (filter _ _); [now apply record_file_step | apply file_step_refl].
Qed.

Lemma endpoint_proximity_step now fault_name content filename a (L : ledger) :
  file_step filename L
    (ledger_of (endpoint_proximity now fault_name content filename a L)).
Proof.
  unfold endpoint_proximity.
  destruct (split_once a) as [[method path]|]; [|apply file_step_refl].
  destruct (compile (path_pattern path)) as [rx|]; [|apply file_step_refl].
  destruct (search rx content); [|apply file_step_refl].
  apply fold_file_step; intros m L0. apply endpoint_match_step.
Qed.

(** A loop whose bodies complete, completes. *)
Lemma for_each_done {A : Type} (R : ledger -> ledger -> Prop)
    (body : A -> ledger -> outcome) (xs : list A) :
  (forall L, R L L) -> (forall L1 L2 L3, R L1 L2 -> R L2 L3 -> R L1 L3) ->
  (forall x L, In x xs -> exists L', body x L = Done L' /\ R L L') ->
  forall L, exists L', for_each xs body L = Done L' /\ R L L'.
Proof.
  intros Rr Rt; induction xs as [|x xs IH]; intros H L; simpl.
  - now exists L.
  - destruct (H x L (or_introl eq_refl)) as (L1 & E1 & R1). rewrite E1.
    destruct (IH (fun y L0 Hy => H y L0 (or_intror Hy)) L1) as (L2 & E2 & R2).
    exists L2; split; [exact E2 | eapply Rt; eauto].
Qed.

(** What the body establishes for one element holds after the loop. *)
Lemma for_each_reaches {A : Type} (R : ledger -> ledger -> Prop)
    (P : ledger -> Prop) (body : A -> ledger -> outcome) (xs : list A)
    (x : A) :
  (forall L, R L L) -> (forall L1 L2 L3, R L1 L2 -> R L2 L3 -> R L1 L3) ->
  (forall L L', P L -> R L L' -> P L') ->
  (forall y L, In y xs -> exists L', body y L = Done L' /\ R L L') ->
  (forall L L', body x L = Done L' -> P L') ->
  In x xs ->
  forall L L', for_each xs body L = Done L' -> P L'.
Proof.
  intros Rr Rt Ps; induction xs as [|y xs IH]; intros H Hx I L L' E; [easy|].
  simpl in E.
  destruct (H y L (or_introl eq_refl)) as (L1 & E1 & R1). rewrite E1 in E.
  destruct I as [->|I].
  - destruct (for_each_done R body xs Rr Rt
                (fun z L0 Hz => H z L0 (or_intror Hz)) L1) as (L2 & E2 & R2).
    rewrite E in E2; injection E2 as <-.
    apply (Ps L1 L'); [apply (Hx L L1 E1) | exact R2].
  - apply (IH (fun z L0 Hz => H z L0 (or_intror Hz)) Hx I L1 L' E).
Qed.

Lemma fold_left_reaches {A : Type} (R : ledger -> ledger -> Prop)
    (P : ledger -> Prop) (step : ledger -> A -> ledger) (xs : list A) (x : A) :
  (forall L, R L L) -> (forall L1 L2 L3, R L1 L2 -> R L2 L3 -> R L1 L3) ->
  (forall L L', P L -> R L L' -> P L') ->
  (forall y L, R L (step L y)) ->
  (forall L, P (step L x)) ->
  In x xs ->
  forall L, P (fold_left step xs L).
Proof.
  intros Rr Rt Ps H Hx; induction xs as [|y xs IH]; intros I L; [easy|].
  simpl. destruct I as [->|I]; [|now apply IH].
  apply (Ps (step L x)); [apply Hx|].
  clear IH; generalize (step L x); induction xs as [|z xs IH]; intros L0; simpl.
  - apply Rr.
  - eapply Rt; [apply H | apply IH].
Qed.

Lemma has_method_grows fault_name tm (L L' : ledger) :
  has_method fault_name tm L -> grows L L' -> has_method fault_name tm L'.
Proof. intros (d & I & E) G; exists d; split; [apply G, I | exact E]. Qed.

Lemma has_method_file_step filename fault_name tm (L L' : ledger) :
  has_method fault_name tm L -> file_step filename L L' ->
  has_method fault_name tm L'.
Proof. intros H (G & _); eapply has_method_grows; eauto. Qed.

Lemma has_method_dec fault_name tm (L : ledger) :
  has_method fault_name tm L \/ ~ has_method fault_name tm L.
Proof.
  unfold has_method.
  destruct (existsb (fun d => opt_text_eqb (d_test_method d) tm)
              (ledger_get L (KStr fault_name))) eqn:E.
  - left. apply existsb_exists in E as (d & H1 & H2).
    exists d; split; [exact H1 | now apply opt_text_eqb_eq].
  - right. intros (d & H1 & H2).
    assert (existsb (fun d => opt_text_eqb (d_test_method d) tm)
              (ledger_get L (KStr fault_name)) = true).
    { apply existsb_exists; exists d; split;
        [exact H1 | now apply opt_text_eqb_eq]. }
    congruence.
Qed.

(** The check of the endpoint heuristic at one occurrence. *)
Lemma endpoint_match_check now fault_name content filename path m (L : ledger) :
  (has_indicator fault_name (window content m) = false ->
   endpoint_match now fault_name content filename path m L = L) /\
  (has_method fault_name (_find_containing_test_method content (m_start m)) L ->
   endpoint_match now fault_name content filename path m L = L) /\
  (has_indicator fault_name (window content m) = true ->
   ~ has_method fault_name
       (_find_containing_test_method content (m_start m)) L ->
   endpoint_match now fault_name content filename path m L =
   _record_detection (KStr fault_name)
     (test_details now filename
        (_find_containing_test_method content (m_start m)) (Some path)) L).
Proof.
  unfold endpoint_match.
  set (test_method := _find_containing_test_method content (m_start m)).
  split; [intros ->; reflexivity|].
  destruct (has_indicator fault_name (window content m)).
  - destruct (filter _ (ledger_get L (KStr fault_name))) as [|d ds] eqn:E.
    + split; [|reflexivity].
      intros (d & I & Ed). exfalso.
      assert (Hd : In d (filter (fun d => opt_text_eqb (d_test_method d) test_method)
                           (ledger_get L (KStr fault_name)))).
      { apply filter_In; split; [exact I | now apply opt_text_eqb_eq]. }
      rewrite E in Hd; destruct Hd.
    + split; [reflexivity|]. intros _ N; exfalso; apply N.
      assert (Hd : In d (d :: ds)) by now left.
      rewrite <- E in Hd; apply filter_In in Hd as [I Ed].
      exists d; split; [exact I | now apply opt_text_eqb_eq].
  - split; [reflexivity | discriminate].
Qed.

(** After an occurrence with an indicator, a record for its test method is
    stored. *)
Lemma endpoint_match_stores now fault_name content filename path m tm
    (L : ledger) :
  has_indicator fault_name (window content m) = true ->
  _find_containing_test_method content (m_start m) = Some tm ->
  has_method fault_name (Some tm)
    (endpoint_match now fault_name content filename path m L).
Proof.
  intros I T.
  pose proof (endpoint_match_check now fault_name content filename path m L)
    as (_ & Hskip & Hrec). rewrite T in Hskip, Hrec.
  destruct (has_method_dec fault_name (Some tm) L) as [C|C].
  - rewrite (Hskip C); exact C.
  - rewrite (Hrec I C).
    destruct (record_detection_stored L (KStr fault_name)
                (test_details now filename (Some tm) (Some path)))
      as (e & He & Oe).
    exists e; split; [exact He|].
    unfold origin in Oe; cbn [test_details d_source d_test_method] in Oe.
    injection Oe as _ Oe. rewrite Oe.
    change (Some (or_unknown (Some tm)) = Some tm).
    now rewrite (locator_name_nonempty content (m_start m) tm T).
Qed.

(** The descriptors of the catalog split and compile. *)
Lemma catalog_api_compiles (f : fault) (a : text) :
  In f INJECTED_FAULTS -> In a (api f) ->
  exists method path rx,
    split_once a = Some (method, path) /\
    compile (path_pattern path) = Some rx.
Proof.
  intros Hf Ha.
  destruct (catalog_paths f a Hf Ha) as (method & path & S & [P|(prefix & -> & P)]).
  - exists method, path, (literal path); split; [exact S|].
    rewrite path_pattern_plain by exact P. now apply compile_path_plain.
  - exists method, (prefix ++ "{tripId}"),
      (literal prefix ++ [Many nonquote 1 true]); split; [exact S|].
    rewrite path_pattern_tripId by exact P. now apply compile_path_tripId.
Qed.

Lemma endpoint_proximity_done now (f : fault) content filename (a : text)
    (L : ledger) :
  In f INJECTED_FAULTS -> In a (api f) ->
  exists L',
    endpoint_proximity now (faultName f) content filename a L = Done L' /\
    file_step filename L L'.
Proof.
  intros Hf Ha.
  pose proof (endpoint_proximity_step now (faultName f) content filename a L) as S.
  destruct (catalog_api_compiles f a Hf Ha) as (method & path & rx & E1 & E2).
  unfold endpoint_proximity in *. rewrite E1, E2 in *.
  destruct (search rx content); eexists; split; try reflexivity; exact S.
Qed.

Lemma analyze_fault_done now content filename (f : fault) (L : ledger) :
  In f INJECTED_FAULTS ->
  exists L',
    analyze_fault now content filename f L = Done L' /\ file_step filename L L'.
Proof.
  intros Hf; unfold analyze_fault.
  destruct (for_each_done (file_step filename)
              (endpoint_proximity now (faultName f) content filename) (api f)
              (file_step_refl filename) (file_step_trans filename)
              (fun a L0 Ha => endpoint_proximity_done now f content filename a
                                L0 Hf Ha)
              (marker_correlation now (faultName f) content filename
                 (direct_name now (faultName f) content filename L)))
    as (L' & E & S).
  exists L'; split; [exact E|].
  eapply file_step_trans; [apply direct_name_step|].
  eapply file_step_trans; [apply marker_correlation_step | exact S].
Qed.

Lemma analyze_test_content_done now content filename (L : ledger) :
  exists L',
    _analyze_test_content now content filename L = Done L' /\
    file_step filename L L'.
Proof.
  unfold _analyze_test_content.
  apply (for_each_done (file_step filename)); 
    [apply file_step_refl | apply file_step_trans|].
  intros f L0 Hf. now apply analyze_fault_done.
Qed.

Lemma in_finditer_search (rx : regex) (content : text) (m : re_match) :
  In m (finditer rx content) -> search rx content = true.
Proof. unfold search; destruct (finditer rx content); [easy | reflexivity]. Qed.

(** An occurrence with an indicator inside a test method leaves a record
    for that method, whatever the ledger held. *)
Lemma endpoint_occurrence_recorded now (f : fault) content filename
    (a method path : text) (rx : regex) (m : re_match) (tm : text) (L L' : ledger) :
  In f INJECTED_FAULTS -> In a (api f) ->
  split_once a = Some (method, path) ->
  compile (path_pattern path) = Some rx ->
  In m (finditer rx content) ->
  has_indicator (faultName f) (window content m) = true ->
  _find_containing_test_method content (m_start m) = Some tm ->
  _analyze_test_content now content filename L = Done L' ->
  has_method (faultName f) (Some tm) L'.
Proof.
  intros Hf Ha S C Hm I T E.
  unfold _analyze_test_content in E.
  apply (for_each_reaches (file_step filename)
           (has_method (faultName f) (Some tm))
           (analyze_fault now content filename) INJECTED_FAULTS f
           (file_step_refl filename) (file_step_trans filename)
           (fun L1 L2 H HS => has_method_file_step filename _ _ L1 L2 H HS)
           (fun g L0 Hg => analyze_fault_done now content filename g L0 Hg))
    with (L := L); [|exact Hf|exact E].
  clear E L L'. intros L L' E. unfold analyze_fault in E.
  apply (for_each_reaches (file_step filename)
           (has_method (faultName f) (Some tm))
           (endpoint_proximity now (faultName f) content filename) (api f) a
           (file_step_refl filename) (file_step_trans filename)
           (fun L1 L2 H HS => has_method_file_step filename _ _ L1 L2 H HS)
           (fun b L0 Hb => endpoint_proximity_done now f content filename b
                             L0 Hf Hb))
    with (L := marker_correlation now (faultName f) content filename
                 (direct_name now (faultName f) content filename L));
    [|exact Ha|exact E].
  clear E L L'. intros L L' E. unfold endpoint_proximity in E.
  rewrite S, C, (in_finditer_search rx content m Hm) in E.
  injection E as <-.
  apply (fold_left_reaches (file_step filename)
           (has_method (faultName f) (Some tm))
           (fun L0 api_match =>
              endpoint_match now (faultName f) content filename path
                api_match L0)
           (finditer rx content) m
           (file_step_refl filename) (file_step_trans filename)
           (fun L1 L2 H HS => has_method_file_step filename _ _ L1 L2 H HS)).
  - intros y L0; apply endpoint_match_step.
  - intros L0; now apply endpoint_match_stores.
  - exact Hm.
Qed.

(** Under the dedup contract, records of one file have distinct methods. *)
Lemma one_record_per_method filename (ds : list detection) (tm : option text) :
  NoDup (map origin ds) ->
  (forall d, In d ds -> d_source d = filename) ->
  length (filter (fun d => opt_text_eqb (d_test_method d) tm) ds) <= 1.
Proof.
  induction ds as [|d ds IH]; intros N A; simpl; [lia|].
  simpl in N; inversion N as [|? ? N1 N2]; subst.
  specialize (IH N2 (fun e He => A e (or_intror He))).
  destruct (opt_text_eqb (d_test_method d) tm) eqn:E; [|exact IH].
  apply opt_text_eqb_eq in E.
  destruct (filter _ ds) as [|e es] eqn:F; [simpl; lia|].
  exfalso; apply N1.
  assert (He : In e (e :: es)) by now left.
  rewrite <- F in He; apply filter_In in He as [He Ee].
  apply opt_text_eqb_eq in Ee.
  apply in_map_iff; exists e; split; [|exact He].
  unfold origin. rewrite (A e (or_intror He)), (A d (or_introl eq_refl)).
  congruence.
Qed.


(** X1. At an occurrence of a fault's path pattern whose window holds an
    indicator, the endpoint heuristic leaves the ledger as it is when a
    record under the fault name already has the test method the locator
    resolved, and otherwise inserts a record with the API path set (for a
    resolved method the record is appended); so the analysis of the
    artifact always ends with a record for that fault and test method, and
    from the empty ledger with exactly one, however often the path occurs
    inside the method. *)
Theorem endpoint_proximity_once (now : text) (f : fault)
    (content filename a method path : text) (rx : regex) (m : re_match)
    (tm : text) :
  In f INJECTED_FAULTS -> In a (api f) ->
  split_once a = Some (method, path) ->
  compile (path_pattern path) = Some rx ->
  In m (finditer rx content) ->
  has_indicator (faultName f) (window content m) = true ->
  _find_containing_test_method content (m_start m) = Some tm ->
  (forall L,
     (has_method (faultName f) (Some tm) L ->
      endpoint_match now (faultName f) content filename path m L = L) /\
     (~ has_method (faultName f) (Some tm) L ->
      endpoint_match now (faultName f) content filename path m L =
        _record_detection (KStr (faultName f))
          (test_details now filename (Some tm) (Some path)) L /\
      ledger_get (endpoint_match now (faultName f) content filename path m L)
        (KStr (faultName f)) =
        ledger_get L (KStr (faultName f)) ++
        [test_details now filename (Some tm) (Some path)])) /\
  (forall L,
     exists L',
       _analyze_test_content now content filename L = Done L' /\
       grows L L' /\ has_method (faultName f) (Some tm) L') /\
  (exists L',
     _analyze_test_content now content filename [] = Done L' /\
     method_records (faultName f) tm L' = 1).
Proof.
  intros Hf Ha S C Hm I T.
  split; [|split].
  - intros L.
    pose proof (endpoint_match_check now (faultName f) content filename path m L)
      as (_ & Hskip & Hrec). rewrite T in Hskip, Hrec.
    split; [exact Hskip|]. intros N. split; [exact (Hrec I N)|].
    rewrite (Hrec I N), record_detection_get, pykey_eqb_refl.
    replace (existsb (is_duplicate (test_details now filename (Some tm) (Some path)))
               (ledger_get L (KStr (faultName f)))) with false; [reflexivity|].
    symmetry. destruct (existsb _ _) eqn:E; [|reflexivity].
    exfalso; apply N. apply existsb_exists in E as (d & H1 & H2).
    exists d; split; [exact H1|].
    apply is_duplicate_origin in H2. unfold origin in H2.
    cbn [test_details d_source d_test_method] in H2. injection H2 as _ H2.
    rewrite H2. change (Some (or_unknown (Some tm)) = Some tm).
    now rewrite (locator_name_nonempty content (m_start m) tm T).
  - intros L.
    destruct (analyze_test_content_done now content filename L) as (L' & E & G & _).
    exists L'; split; [exact E|split; [exact G|]].
    exact (endpoint_occurrence_recorded now f content filename a method path
             rx m tm L L' Hf Ha S C Hm I T E).
  - destruct (analyze_test_content_done now content filename [])
      as (L' & E & G & D & A).
    exists L'; split; [exact E|].
    pose proof (endpoint_occurrence_recorded now f content filename a method
                  path rx m tm [] L' Hf Ha S C Hm I T E) as (d & H1 & H2).
    assert (U : method_records (faultName f) tm L' <= 1).
    { apply (one_record_per_method filename); [apply (D dedup_ok_nil)|].
      intros e He. apply (A (fun k e' H => match H with end) _ e He). }
    assert (Lw : 1 <= method_records (faultName f) tm L').
    { unfold method_records.
      assert (Hd : In d (filter (fun d => opt_text_eqb (d_test_method d) (Some tm))
                           (ledger_get L' (KStr (faultName f)))))
        by (apply filter_In; split; [exact H1 | now apply opt_text_eqb_eq]).
      destruct (filter _ _); [destruct Hd | simpl; lia]. }
    lia.
Qed.


Lemma endpoint_proximity_once_witness :
  exists L',
    _analyze_test_content "2024-01-01 10:00:00" sample_endpoint_text
      "EvoMaster_sample.py" [] = Done L' /\
    method_records "INSUFFICIENT_STATIONS_FAULT" "test_a" L' = 1.
Proof.
  assert (Hf : In sample_route_fault INJECTED_FAULTS)
    by (do 8 right; left; reflexivity).
  assert (Ha : In (T "POST /api/v1/adminrouteservice/adminroute")
                 (api sample_route_fault)) by (left; reflexivity).
  assert (Hs : split_once "POST /api/v1/adminrouteservice/adminroute" =
               Some (T "POST", T "/api/v1/adminrouteservice/adminroute"))
    by (vm_compute; reflexivity).
  assert (Hc : compile (path_pattern "/api/v1/adminrouteservice/adminroute") =
               Some (literal "/api/v1/adminrouteservice/adminroute"))
    by (vm_compute; reflexivity).
  assert (Hm : In sample_second_occurrence
                 (finditer (literal "/api/v1/adminrouteservice/adminroute")
                    sample_endpoint_text))
    by (vm_compute; right; left; reflexivity).
  assert (Hi : has_indicator (faultName sample_route_fault)
                 (window sample_endpoint_text sample_second_occurrence) = true)
    by (vm_compute; reflexivity).
  assert (Ht : _find_containing_test_method sample_endpoint_text
                 (m_start sample_second_occurrence) = Some (T "test_a"))
    by (vm_compute; reflexivity).
  pose proof (endpoint_proximity_once "2024-01-01 10:00:00" sample_route_fault
                sample_endpoint_text "EvoMaster_sample.py"
                "POST /api/v1/adminrouteservice/adminroute" "POST"
                "/api/v1/adminrouteservice/adminroute"
                (literal "/api/v1/adminrouteservice/adminroute")
                sample_second_occurrence "test_a"
                Hf Ha Hs Hc Hm Hi Ht) as (_ & _ & H).
  exact H.
Defined.

(** ** The guard of the marker heuristic *)

Lemma contains_app (needle hay : text) :
  contains needle hay = true <->
  exists before after, hay = before ++ needle ++ after.
Proof.
  induction hay as [|c hay IH]; cbn [contains]; rewrite orb_true_iff.
  - split.
    + intros [H|H]; [|discriminate H].
      apply startswith_app in H as [t E]. now exists [], t.
    + intros (b & a & E). left. apply startswith_app.
      destruct b; [now exists a | discriminate E].
  - split.
    + intros [H|H].
      * apply startswith_app in H as [t E]. now exists [], t.
      * apply IH in H as (b & a & ->). now exists (c :: b), a.
    + intros (b & a & E). destruct b as [|x b].
      * left. apply startswith_app. now exists a.
      * right. apply IH. injection E as _ E. now exists b, a.
Qed.

Lemma lower_char_not_upper (c : ascii) : is_upper (lower_char c) = false.
Proof. destruct c as [[] [] [] [] [] [] [] []]; reflexivity. Qed.

Lemma lower_has_no_upper (s : text) (c : ascii) :
  In c (lower s) -> is_upper c = false.
Proof.
  unfold lower; intros H; apply in_map_iff in H as (x & <- & _).
  apply lower_char_not_upper.
Qed.

(** A needle with an upper-case letter is never found in lower-cased text. *)
Lemma lowered_never_contains (needle s : text) (c : ascii) :
  In c needle -> is_upper c = true -> contains needle (lower s) = false.
Proof.
  intros I U. destruct (contains needle (lower s)) eqn:E; [|reflexivity].
  apply contains_app in E as (b & a & E).
  assert (H : In c (lower s)).
  { rewrite E, !in_app_iff. right; left; exact I. }
  apply lower_has_no_upper in H. congruence.
Qed.

(** X2. The second test of the guard of the marker heuristic, which looks
    for the single-quoted marker (written with a capital I) in the
    lower-cased content, never succeeds: the heuristic runs exactly when the
    content holds the double-quoted marker in its exact casing, and is the
    identity on the ledger otherwise. *)
Theorem marker_guard_single_quotes_never_match (now : text)
    (fault_name content filename : text) (L : ledger) :
  contains "'isInjected': true" (lower content) = false /\
  injected_marker_present content = contains double_quoted_marker content /\
  marker_correlation now fault_name content filename L =
    if contains double_quoted_marker content
    then fold_left
           (fun L m =>
              if opt_text_eqb (m_group1 m) (Some fault_name)
              then _record_detection (KStr fault_name)
                     (test_details now filename
                        (_find_containing_test_method content (m_start m))
                        None) L
              else L)
           (finditer injected_re content) L
    else L.
Proof.
  assert (N : contains "'isInjected': true" (lower content) = false).
  { apply (lowered_never_contains _ _ "I"%char); [|reflexivity].
    do 3 right; left; reflexivity. }
  assert (G : injected_marker_present content =
              contains double_quoted_marker content).
  { unfold injected_marker_present. rewrite N. apply orb_false_r. }
  split; [exact N|split; [exact G|]].
  unfold marker_correlation. rewrite G. reflexivity.
Qed.

(** An artifact with the single-quoted marker before a test method and the
    fault name inside it: the pattern of the marker pair matches, but the
    heuristic is off, and the only record is the one of the direct-name
    heuristic. *)
Lemma single_quoted_marker_example :
  injected_marker_present sample_single_quoted_text = false /\
  map m_group1 (finditer injected_re sample_single_quoted_text) =
    [Some (T "INVALID_PRICE_RATE_FAULT")] /\
  map (fun kv => (fst kv, map d_test_method (snd kv)))
    (ledger_of (_analyze_test_content "2024-01-01 10:00:00"
                  sample_single_quoted_text "EvoMaster_sample.py" [])) =
    [(KStr (T "INVALID_PRICE_RATE_FAULT"), [Some (T "test_b")])].
Proof. repeat split; vm_compute; reflexivity. Qed.

(** ** Steps that add records *)

Lemma ledger_append_keys (L : ledger) k d k' :
  In k' (map fst (ledger_append L k d)) <-> In k' (map fst L) \/ k' = k.
Proof.
  induction L as [|[k0 ds] L IH]; cbn [ledger_append].
  - simpl; intuition.
  - destruct (pykey_eqb k0 k) eqn:E; cbn [map fst In].
    + apply pykey_eqb_eq in E; subst k0. intuition.
    + rewrite IH. intuition.
Qed.

Lemma ledger_append_well_keyed (L : ledger) k d :
  well_keyed L -> well_keyed (ledger_append L k d).
Proof.
  intros [N E]; induction L as [|[k0 ds] L IH]; cbn [ledger_append].
  - split; [repeat constructor; easy|].
    intros k' ds' [H|[]]; injection H as <- <-; discriminate.
  - cbn [map fst] in N; inversion N as [|? ? N1 N2]; subst.
    destruct (pykey_eqb k0 k) eqn:K.
    + split; [exact N|].
      intros k' ds' [H|H].
      * injection H as <- <-. destruct ds; discriminate.
      * apply (E k' ds'); now right.
    + destruct IH as [N' E']; [exact N2 | intros k' ds' H; apply (E k' ds'); now right|].
      split.
      * cbn [map fst]; constructor; [|exact N'].
        rewrite ledger_append_keys; intros [H| ->]; [now apply N1|].
        now rewrite pykey_eqb_refl in K.
      * intros k' ds' [H|H]; [apply (E k' ds'); now left | apply (E' k' ds' H)].
Qed.

Lemma record_detection_well_keyed (L : ledger) k d :
  well_keyed L -> well_keyed (_record_detection k d L).
Proof.
  unfold _record_detection; destruct (existsb _ _); [easy|].
  apply ledger_append_well_keyed.
Qed.

Lemma well_keyed_nil : well_keyed [].
Proof. split; [constructor | intros k ds []]. Qed.

Lemma adds_refl Q (L : ledger) : adds Q L L.
Proof. split; [apply grows_refl|split; [auto|split; auto]]. Qed.

Lemma adds_trans Q (L1 L2 L3 : ledger) :
  adds Q L1 L2 -> adds Q L2 L3 -> adds Q L1 L3.
Proof.
  intros (G1 & D1 & W1 & A1) (G2 & D2 & W2 & A2).
  split; [eapply grows_trans; eauto|split; [auto|split; [auto|]]].
  intros k d H. destruct (A2 k d H) as [H'|H']; [apply (A1 k d H') | now right].
Qed.

Lemma adds_weaken (Q Q' : pykey -> detection -> Prop) (L L' : ledger) :
  (forall k d, Q k d -> Q' k d) -> adds Q L L' -> adds Q' L L'.
Proof.
  intros I (G & D & W & A); split; [exact G|split; [exact D|split; [exact W|]]].
  intros k d H; destruct (A k d H); [now left | right; now apply I].
Qed.

Lemma record_adds (Q : pykey -> detection -> Prop) (L : ledger) k d :
  Q k d -> adds Q L (_record_detection k d L).
Proof.
  intros HQ; split; [apply record_detection_grows|split; [|split]].
  - apply record_detection_dedup_ok.
  - apply record_detection_well_keyed.
  - intros k' e; rewrite record_detection_get.
    destruct (pykey_eqb k k' && _) eqn:E; [|now left].
    apply andb_true_iff in E as [E _]; apply pykey_eqb_eq in E; subst k'.
    intros H; apply in_app_or in H as [H|[<-|[]]]; [now left | now right].
Qed.

Lemma fold_adds {A : Type} Q (step : ledger -> A -> ledger) (xs : list A) :
  (forall x L, adds Q L (step L x)) ->
  forall L, adds Q L (fold_left step xs L).
Proof.
  intros H; induction xs as [|x xs IH]; intros L; simpl.
  - apply adds_refl.
  - eapply adds_trans; [apply H | apply IH].
Qed.

Lemma for_each_adds {A : Type} Q (body : A -> ledger -> outcome)
    (xs : list A) :
  (forall x L, adds Q L (ledger_of (body x L))) ->
  forall L, adds Q L (ledger_of (for_each xs body L)).
Proof.
  intros H; induction xs as [|x xs IH]; intros L; simpl.
  - apply adds_refl.
  - specialize (H x L). destruct (body x L) as [L'|L' e]; [|exact H].
    eapply adds_trans; [exact H | apply IH].
Qed.

Lemma adds_from_empty Q (L : ledger) :
  adds Q [] L ->
  dedup_ok L /\ well_keyed L /\ forall k d, In d (ledger_get L k) -> Q k d.
Proof.
  intros (_ & D & W & A); split; [apply D, dedup_ok_nil|split; [apply W, well_keyed_nil|]].
  intros k d H; destruct (A k d H) as [[]|H']; exact H'.
Qed.

(** ** Every step of the structured scanner *)

Lemma check_injected_adds now fields source path (L : ledger) :
  adds (structured_record source) L
    (ledger_of (check_injected now fields source path L)).
Proof.
  unfold check_injected.
  destruct (equals_True (dict_get fields "isInjected")); [|apply adds_refl].
  destruct (key_of _); [|apply adds_refl].
  apply record_adds. repeat split. discriminate.
Qed.

Lemma check_value_adds now source path value (L : ledger) :
  adds (structured_record source) L
    (ledger_of (check_value now source path value L)).
Proof.
  unfold check_value. apply for_each_adds; intros f L0.
  destruct (contains (faultName f) value); [|apply adds_refl].
  apply record_adds. repeat split. discriminate.
Qed.

Lemma search_json_adds now (obj : json) :
  forall source path L,
    adds (structured_record source) L
      (ledger_of (_search_json_for_faults now obj source path L)).
Proof.
  induction obj as [ | b | z | f | s | items IH | fields IH ]
    using json_nested_ind; intros source path L; try apply adds_refl.
  - cbn [_search_json_for_faults]. generalize 0 as i. revert L.
    induction items as [|x xs IHx]; intros L i; [apply adds_refl|].
    pose proof (IH x (or_introl eq_refl) source (item_path path i) L) as H.
    destruct (_search_json_for_faults now x source (item_path path i) L)
      as [L'|L' e]; [|exact H].
    eapply adds_trans; [exact H|].
    apply (IHx (fun y Hy => IH y (or_intror Hy))).
  - cbn [_search_json_for_faults].
    pose proof (check_injected_adds now fields source path L) as H.
    destruct (check_injected now fields source path L) as [L1|L1 e]; [|exact H].
    eapply adds_trans; [exact H|]. clear H L.
    revert L1; induction fields as [|[key value] rest IHr]; intros L;
      [apply adds_refl|].
    assert (S : adds (structured_record source) L
                  (ledger_of
                     match value with
                     | JStr s =>
                         check_value now source (child_path path key) s L
                     | _ =>
                         _search_json_for_faults now value source
                           (child_path path key) L
                     end)).
    { destruct value;
        try apply (IH key _ (or_introl eq_refl) source (child_path path key) L).
      apply check_value_adds. }
    destruct (match value with
              | JStr s => check_value now source (child_path path key) s L
              | _ => _search_json_for_faults now value source
                       (child_path path key) L
              end) as [L'|L' e]; [|exact S].
    eapply adds_trans; [exact S|].
    apply (IHr (fun k v Hy => IH k v (or_intror Hy))).
Qed.

(** ** The rule on string values *)

Lemma has_source_grows source k (L L' : ledger) :
  has_source source k L -> grows L L' -> has_source source k L'.
Proof. intros (d & I & E) G; exists d; split; [apply G, I | exact E]. Qed.

Lemma record_has_source (L : ledger) k d :
  has_source (d_source d) k (_record_detection k d L).
Proof.
  destruct (record_detection_stored L k d) as (e & I & O).
  exists e; split; [exact I|]. unfold origin in O; now injection O.
Qed.

Lemma check_value_records now source path value (f : fault) (L : ledger) :
  In f INJECTED_FAULTS -> contains (faultName f) value = true ->
  has_source source (KStr (faultName f))
    (ledger_of (check_value now source path value L)).
Proof.
  intros Hf C.
  destruct (check_value_grows now source path value L) as (L' & E & _).
  rewrite E; cbn [ledger_of]. unfold check_value in E.
  apply (for_each_reaches grows (has_source source (KStr (faultName f)))
           (fun fault L =>
              if contains (faultName fault) value
              then Done (_record_detection (KStr (faultName fault))
                           (value_details now source path value) L)
              else Done L)
           INJECTED_FAULTS f grows_refl grows_trans
           (fun L1 L2 H G => has_source_grows source _ L1 L2 H G))
    with (L := L); [| |exact Hf|exact E].
  - intros g L0 _. destruct (contains (faultName g) value); eexists; split;
      try reflexivity; [apply record_detection_grows | apply grows_refl].
  - intros L0 L1 E'. rewrite C in E'. injection E' as <-.
    apply (record_has_source L0 (KStr (faultName f))
             (value_details now source path value)).
Qed.

Lemma values_recorded_grows source obj (L L' : ledger) :
  grows L L' -> values_recorded source obj L -> values_recorded source obj L'.
Proof.
  intros G H node key s f R I Hf C.
  eapply has_source_grows; [apply (H node key s f R I Hf C) | exact G].
Qed.

Lemma search_json_values now (obj : json) :
  forall source path L,
    hashable_names obj = true ->
    exists L',
      _search_json_for_faults now obj source path L = Done L' /\
      grows L L' /\ values_recorded source obj L'.
Proof.
  induction obj as [ | b | z | f | s | items IH | fields IH ] using json_nested_ind;
    intros source path L Hh;
    try (exists L; split; [reflexivity|split; [apply grows_refl|]];
         intros node key s0 f0 R; inversion R; fail).
  - (* a list *)
    cbn [hashable_names] in Hh; cbn [_search_json_for_faults].
    enough (G : forall i L,
               exists L',
                 (fix each (l : list json) (i : nat) (L : ledger) : outcome :=
                    match l with
                    | [] => Done L
                    | item :: rest =>
                        match _search_json_for_faults now item source
                                (item_path path i) L with
                        | Done L' => each rest (S i) L'
                        | Raised L' e => Raised L' e
                        end
                    end) items i L = Done L' /\
                 grows L L' /\
                 forall x, In x items -> values_recorded source x L').
    { destruct (G 0 L) as (L' & E & G1 & G2).
      exists L'; split; [exact E|split; [exact G1|]].
      intros node key s f R I Hf C; inversion R as [|? ? ? ? ?|? x Hx Rx]; subst.
      apply (G2 x Hx node key s f Rx I Hf C). }
    induction items as [|x xs IHx]; intros i L0.
    + exists L0; split; [reflexivity|split; [apply grows_refl|easy]].
    + cbn [forallb] in Hh; apply andb_true_iff in Hh as [Hx Hxs].
      destruct (IH x (or_introl eq_refl) source (item_path path i) L0 Hx)
        as (L1 & E1 & G1 & M1).
      rewrite E1.
      destruct (IHx (fun y Hy => IH y (or_intror Hy)) Hxs (S i) L1)
        as (L2 & E2 & G2 & M2).
      exists L2; split; [exact E2|split; [eapply grows_trans; eauto|]].
      intros y [<-|Hy]; [eapply values_recorded_grows; eauto | apply M2, Hy].
  - (* a mapping *)
    cbn [hashable_names] in Hh; apply andb_true_iff in Hh as [Hm Hfs].
    cbn [_search_json_for_faults].
    assert (C : exists L1,
               check_injected now fields source path L = Done L1 /\
               grows L L1).
    { unfold check_injected.
      destruct (equals_True (dict_get fields "isInjected")).
      - change (or_default (dict_get fields "faultName") (JStr "UNKNOWN"))
          with (marker_name fields).
        destruct (key_of (marker_name fields)) as [k|]; [|discriminate Hm].
        eexists; split; [reflexivity|apply record_detection_grows].
      - exists L; split; [reflexivity|apply grows_refl]. }
    destruct C as (L1 & E1 & G1); rewrite E1.
    enough (G : forall L,
               exists L',
                 (fix items (kvs : list (text * json)) (L : ledger) : outcome :=
                    match kvs with
                    | [] => Done L
                    | (key, value) :: rest =>
                        match
                          match value with
                          | JStr s =>
                              check_value now source (child_path path key) s L
                          | _ =>
                              _search_json_for_faults now value source
                                (child_path path key) L
                          end
                        with
                        | Done L' => items rest L'
                        | Raised L' e => Raised L' e
                        end
                    end) fields L = Done L' /\
                 grows L L' /\
                 (forall k v, In (k, v) fields -> values_recorded source v L') /\
                 (forall k s f, In (k, JStr s) fields ->
                    In f INJECTED_FAULTS -> contains (faultName f) s = true ->
                    has_source source (KStr (faultName f)) L')).
    { destruct (G L1) as (L' & E & G2 & M2 & V2).
      exists L'; split; [exact E|split; [eapply grows_trans; eauto|]].
      intros node key s f R I Hf C; inversion R as [|? key' value Hx Rx|]; subst.
      - apply (V2 key s f I Hf C).
      - apply (M2 key' value Hx node key s f Rx I Hf C). }
    clear E1 G1 Hm L L1.
    induction fields as [|[key value] rest IHr]; intros L0.
    + exists L0; split; [reflexivity|split; [apply grows_refl|split; easy]].
    + cbn [forallb snd] in Hfs; apply andb_true_iff in Hfs as [Hv Hrest].
      assert (S : exists L1,
                 match value with
                 | JStr s => check_value now source (child_path path key) s L0
                 | _ => _search_json_for_faults now value source
                          (child_path path key) L0
                 end = Done L1 /\ grows L0 L1 /\
                 values_recorded source value L1 /\
                 (forall s f, value = JStr s -> In f INJECTED_FAULTS ->
                    contains (faultName f) s = true ->
                    has_source source (KStr (faultName f)) L1)).
      { destruct value;
          try (destruct (IH key _ (or_introl eq_refl) source
                           (child_path path key) L0 Hv) as (L1 & E & G & M);
               exists L1; split; [exact E|split; [exact G|split; [exact M|]]];
               intros ? ? Eq; discriminate Eq).
        destruct (check_value_grows now source (child_path path key) s L0)
          as (L1 & E & G).
        exists L1; split; [exact E|split; [exact G|split]].
        - intros node k s0 f R; inversion R.
        - intros s0 f Eq Hf C; injection Eq as <-.
          pose proof (check_value_records now source (child_path path key) s f
                        L0 Hf C) as H.
          rewrite E in H; exact H. }
      destruct S as (L1 & E1 & G1 & M1 & V1); rewrite E1.
      destruct (IHr (fun k v Hy => IH k v (or_intror Hy)) Hrest L1)
        as (L2 & E2 & G2 & M2 & V2).
      exists L2; split; [exact E2|split; [eapply grows_trans; eauto|split]].
      * intros k v [E|Hy];
          [injection E as <- <-; eapply values_recorded_grows; eauto
          | apply (M2 k v Hy)].
      * intros k s f [E|Hy] Hf C.
        -- injection E as <- ->.
           eapply has_source_grows; [apply (V1 s f eq_refl Hf C) | exact G2].
        -- apply (V2 k s f Hy Hf C).
Qed.

Lemma analyze_report_json_adds (now : text) (report : report_file)
    (a : analyzer) :
  adds (structured_record "report.json") (detected_faults a)
    (detected_faults (_analyze_report_json now report a)).
Proof.
  destruct report as [|e|data]; cbn [_analyze_report_json];
    try apply adds_refl.
  destruct data; try apply adds_refl.
  cbn [detected_faults].
  pose proof (search_json_adds now (JDict fields) "report.json" ""
                (detected_faults a)) as H.
  destruct (_search_json_for_faults now (JDict fields) "report.json" ""
              (detected_faults a)) as [L'|L' e];
    cbn [finish with_ledger print detected_faults ledger_of] in *; exact H.
Qed.

(** X6. Whatever the report document is, and whether or not its scan
    raises, the structured scanner only adds records: every record the
    ledger held is kept, the dedup contract is kept, every new record names
    report.json as its source, has a path and no test class, test method or
    API path; the case count is untouched and at most one warning is
    printed. *)
Theorem report_scan_only_adds (now : text) (report : report_file)
    (a : analyzer) :
  adds (structured_record "report.json") (detected_faults a)
    (detected_faults (_analyze_report_json now report a)) /\
  total_test_cases (_analyze_report_json now report a) = total_test_cases a /\
  (console (_analyze_report_json now report a) = console a \/
   exists e,
     console (_analyze_report_json now report a) =
     console a ++ ["Warning: Error reading report.json: " ++ e]).
Proof.
  destruct report as [|e|data]; cbn [_analyze_report_json].
  - split; [apply adds_refl|split; [reflexivity|now left]].
  - split; [apply adds_refl|split; [reflexivity|right; now exists e]].
  - destruct data; try (split; [apply adds_refl|split; [reflexivity|now left]]).
    cbn [detected_faults].
    pose proof (search_json_adds now (JDict fields) "report.json" ""
                  (detected_faults a)) as H.
    destruct (_search_json_for_faults now (JDict fields) "report.json" ""
                (detected_faults a)) as [L'|L' e];
      cbn [finish with_ledger print detected_faults total_test_cases console
             ledger_of] in *.
    + split; [exact H|split; [reflexivity|now left]].
    + split; [exact H|split; [reflexivity|right; now exists e]].
Qed.

Lemma structured_records_collapse (source : text) (ds : list detection) :
  NoDup (map origin ds) ->
  (forall d, In d ds -> d_source d = source /\ d_test_method d = None) ->
  length ds <= 1.
Proof.
  intros N A.
  destruct ds as [|d [|e ds]]; simpl; try lia.
  exfalso. simpl in N. inversion N as [|? ? N1 _]; subst. apply N1. left.
  destruct (A d (or_introl eq_refl)) as [S1 T1].
  destruct (A e (or_intror (or_introl eq_refl))) as [S2 T2].
  unfold origin; congruence.
Qed.

(** X7. On a fresh ledger the structured scanner stores at most one record
    per fault name: all its records have the source report.json and no test
    method, so every hit after the first under a name is dropped as a
    duplicate. *)
Theorem report_scan_one_record_per_name (now : text) (report : report_file)
    (a : analyzer) (k : pykey) :
  detected_faults a = [] ->
  length (ledger_get (detected_faults (_analyze_report_json now report a)) k)
    <= 1 /\
  forall d,
    In d (ledger_get (detected_faults (_analyze_report_json now report a)) k) ->
    structured_record "report.json" k d.
Proof.
  intros E.
  pose proof (analyze_report_json_adds now report a) as H.
  rewrite E in H. apply adds_from_empty in H as (D & _ & A).
  split; [|intros d Hd; apply (A k d Hd)].
  apply (structured_records_collapse "report.json"); [apply D|].
  intros d Hd. destruct (A k d Hd) as (S & _ & _ & T & _). now split.
Qed.

Lemma reachable_sample_log :
  reachable (JDict sample_log_node) (JDict sample_log_fields).
Proof.
  apply (reach_field _ sample_log_fields "log" (JList [JDict sample_log_node]));
    [right; left; reflexivity|].
  apply (reach_item _ _ (JDict sample_log_node)); [left; reflexivity|].
  apply reach_here.
Qed.

(** X8. For every report whose top level is a mapping and whose scan does
    not raise, every string field, of any mapping reachable through nested
    mappings and lists, that contains the name of a catalog fault leaves a
    record from report.json under that name: the fault counts as detected. *)
Theorem structured_scanner_finds_names_in_strings (now : text) (a : analyzer)
    (fields node : list (text * json)) (key s : text) (f : fault) :
  hashable_names (JDict fields) = true ->
  reachable (JDict node) (JDict fields) ->
  In (key, JStr s) node ->
  In f INJECTED_FAULTS ->
  contains (faultName f) s = true ->
  has_source "report.json" (KStr (faultName f))
    (detected_faults (_analyze_report_json now (ReportParsed (JDict fields)) a)) /\
  detected
    (detected_faults (_analyze_report_json now (ReportParsed (JDict fields)) a))
    f = true.
Proof.
  intros Hh R I Hf C. unfold _analyze_report_json. cbn [detected_faults].
  destruct (search_json_values now (JDict fields) "report.json" ""
              (detected_faults a) Hh) as (L' & E & G & V).
  rewrite E. cbn [finish with_ledger detected_faults].
  pose proof (V node key s f R I Hf C) as H.
  split; [exact H|].
  destruct H as (d & Hd & _). unfold detected.
  destruct (ledger_get L' (KStr (faultName f))); [destruct Hd | reflexivity].
Qed.

Lemma structured_scanner_finds_names_in_strings_witness :
  detected
    (detected_faults
       (_analyze_report_json "2024-01-01 10:00:00"
          (ReportParsed (JDict sample_log_fields)) init))
    sample_fault = true.
Proof.
  assert (Hh : hashable_names (JDict sample_log_fields) = true)
    by (vm_compute; reflexivity).
  assert (I : In (T "message",
                  JStr "request rejected: INVALID_ROUTE_ID_FAULT triggered")
                sample_log_node) by (right; left; reflexivity).
  assert (Hf : In sample_fault INJECTED_FAULTS)
    by (do 3 right; left; reflexivity).
  assert (C : contains (faultName sample_fault)
                "request rejected: INVALID_ROUTE_ID_FAULT triggered" = true)
    by (vm_compute; reflexivity).
  pose proof (structured_scanner_finds_names_in_strings "2024-01-01 10:00:00"
                init sample_log_fields sample_log_node "message" _ sample_fault
                Hh reachable_sample_log I Hf C) as [_ H].
  exact H.
Defined.

Lemma well_keyed_get (L : ledger) (k : pykey) :
  well_keyed L -> (ledger_get L k <> [] <-> In k (map fst L)).
Proof.
  intros [N E]; induction L as [|[k0 ds] L IH]; cbn [ledger_get map fst In].
  - split; [intros H; now contradict H | intros []].
  - cbn [map fst] in N; inversion N as [|? ? N1 N2]; subst.
    destruct (pykey_eqb k0 k) eqn:K.
    + apply pykey_eqb_eq in K; subst k0. split; [now left|].
      intros _. apply (E k ds); now left.
    + rewrite IH; [|exact N2|intros k' ds' H; apply (E k' ds'); now right].
      split; [now right|]. intros [->|H]; [|exact H].
      now rewrite pykey_eqb_refl in K.
Qed.

Lemma record_all_adds (ops : list (pykey * detection)) (L : ledger) :
  adds (fun k d => In (k, d) ops) L (record_all ops L).
Proof.
  revert L; induction ops as [|[k d] ops IH]; intros L; cbn [record_all fold_left].
  - apply adds_refl.
  - eapply adds_trans.
    + apply (record_adds (fun k' d' => In (k', d') ((k, d) :: ops))).
      now left.
    + eapply adds_weaken; [|apply IH]. intros k' d' H; now right.
Qed.

(** X9. After any run of insertions from the empty ledger the keys are
    pairwise distinct and no key holds an empty list: a key is in the
    ledger exactly when it has a record, and every record stored is one of
    those inserted, under the key it was inserted with. *)
Theorem ledger_keys_distinct_and_nonempty (ops : list (pykey * detection))
    (k : pykey) :
  NoDup (map fst (record_all ops [])) /\
  (forall ds, In (k, ds) (record_all ops []) -> ds <> []) /\
  (ledger_get (record_all ops []) k <> [] <->
   In k (map fst (record_all ops []))) /\
  (forall d, In d (ledger_get (record_all ops []) k) -> In (k, d) ops).
Proof.
  pose proof (record_all_adds ops []) as H.
  apply adds_from_empty in H as (_ & W & A).
  split; [apply W|split; [apply W|split; [now apply well_keyed_get|]]].
  intros d Hd; apply (A k d Hd).
Qed.

(** ** What the text scanner records *)

Lemma or_unknown_nonempty (tm : option text) : or_unknown tm <> [].
Proof. destruct tm as [[|c t]|]; discriminate. Qed.

Lemma test_details_text_record now filename (f : fault) tm api_path :
  In f INJECTED_FAULTS ->
  text_record now filename (KStr (faultName f))
    (test_details now filename tm api_path).
Proof.
  intros Hf; split; [now exists f|].
  repeat split. exists (or_unknown tm); split; [reflexivity|].
  apply or_unknown_nonempty.
Qed.

Lemma direct_name_adds now (f : fault) content filename (L : ledger) :
  In f INJECTED_FAULTS ->
  adds (text_record now filename) L
    (direct_name now (faultName f) content filename L).
Proof.
  intros Hf; unfold direct_name.
  destruct (contains (faultName f) content); [|apply adds_refl].
  apply fold_adds; intros m L0.
  now apply record_adds, test_details_text_record.
Qed.

Lemma marker_correlation_adds now (f : fault) content filename (L : ledger) :
  In f INJECTED_FAULTS ->
  adds (text_record now filename) L
    (marker_correlation now (faultName f) content filename L).
Proof.
  intros Hf; unfold marker_correlation.
  destruct (injected_marker_present content); [|apply adds_refl].
  apply fold_adds; intros m L0.
  destruct (opt_text_eqb (m_group1 m) (Some (faultName f)));
    [|apply adds_refl].
  now apply record_adds, test_details_text_record.
Qed.

Lemma endpoint_match_adds now (f : fault) content filename path m (L : ledger) :
  In f INJECTED_FAULTS ->
  adds (text_record now filename) L
    (endpoint_match now (faultName f) content filename path m L).
Proof.
  intros Hf; unfold endpoint_match.
  destruct (has_indicator (faultName f) (window content m)); [|apply adds_refl].
  destruct (filter _ _); [|apply adds_refl].
  now apply record_adds, test_details_text_record.
Qed.

Lemma endpoint_proximity_adds now (f : fault) content filename (a : text)
    (L : ledger) :
  In f INJECTED_FAULTS -> In a (api f) ->
  exists L',
    endpoint_proximity now (faultName f) content filename a L = Done L' /\
    adds (text_record now filename) L L'.
Proof.
  intros Hf Ha.
  destruct (catalog_api_compiles f a Hf Ha) as (method & path & rx & E1 & E2).
  unfold endpoint_proximity. rewrite E1, E2.
  destruct (search rx content); eexists; split; try reflexivity;
    [|apply adds_refl].
  apply fold_adds; intros m L0. now apply endpoint_match_adds.
Qed.

Lemma analyze_fault_adds now content filename (f : fault) (L : ledger) :
  In f INJECTED_FAULTS ->
  exists L',
    analyze_fault now content filename f L = Done L' /\
    adds (text_record now filename) L L'.
Proof.
  intros Hf; unfold analyze_fault.
  destruct (for_each_done (adds (text_record now filename))
              (endpoint_proximity now (faultName f) content filename) (api f)
              (adds_refl _) (adds_trans _)
              (fun a L0 Ha => endpoint_proximity_adds now f content filename a
                                L0 Hf Ha)
              (marker_correlation now (faultName f) content filename
                 (direct_name now (faultName f) content filename L)))
    as (L' & E & S).
  exists L'; split; [exact E|].
  eapply adds_trans; [exact (direct_name_adds now f content filename L Hf)|].
  eapply adds_trans;
    [exact (marker_correlation_adds now f content filename _ Hf) | exact S].
Qed.

Lemma analyze_test_content_adds now content filename (L : ledger) :
  exists L',
    _analyze_test_content now content filename L = Done L' /\
    adds (text_record now filename) L L'.
Proof.
  unfold _analyze_test_content.
  apply (for_each_done (adds (text_record now filename)));
    [apply adds_refl | apply adds_trans|].
  intros f L0 Hf. now apply analyze_fault_adds.
Qed.

Lemma has_method_adds Q fault_name tm (L L' : ledger) :
  has_method fault_name tm L -> adds Q L L' -> has_method fault_name tm L'.
Proof. intros H (G & _); eapply has_method_grows; eauto. Qed.

(** X10. The analysis of an artifact never raises and only adds records:
    what the ledger held is kept, with the dedup contract, and every new
    record is stored under a catalog fault name, with the file name as its
    source, the file name without [.py] as its test class and a non-empty
    test method; on a fresh ledger there is at most one record per fault
    and test method. *)
Theorem analyze_test_content_only_adds (now content filename : text)
    (L : ledger) (fault_name : text) (tm : option text) :
  exists L',
    _analyze_test_content now content filename L = Done L' /\
    adds (text_record now filename) L L' /\
    (L = [] ->
     length (filter (fun d => opt_text_eqb (d_test_method d) tm)
               (ledger_get L' (KStr fault_name))) <= 1).
Proof.
  destruct (analyze_test_content_adds now content filename L) as (L' & E & A).
  exists L'; split; [exact E|split; [exact A|]].
  intros ->. apply adds_from_empty in A as (D & _ & Q).
  apply (one_record_per_method filename); [apply D|].
  intros d Hd. apply (Q _ d Hd).
Qed.

(** ** The direct-name and the marker heuristics *)

Lemma contains_search_literal (needle content : text) :
  contains needle content = true -> search (literal needle) content = true.
Proof.
  intros H; apply contains_app in H as (b & a & ->). apply search_literal.
Qed.

Lemma stored_has_method now filename fault_name tm api_path (L : ledger) :
  has_method fault_name (Some (or_unknown tm))
    (_record_detection (KStr fault_name)
       (test_details now filename tm api_path) L).
Proof.
  destruct (record_detection_stored L (KStr fault_name)
              (test_details now filename tm api_path)) as (e & I & O).
  exists e; split; [exact I|]. now injection O.
Qed.

Lemma direct_name_stores now fault_name content filename m (L : ledger) :
  contains fault_name content = true ->
  In m (finditer (literal fault_name) content) ->
  has_method fault_name
    (Some (or_unknown (_find_containing_test_method content (m_start m))))
    (direct_name now fault_name content filename L).
Proof.
  intros C Hm. unfold direct_name. rewrite C.
  apply (fold_left_reaches (file_step filename)
           (has_method fault_name
              (Some (or_unknown
                       (_find_containing_test_method content (m_start m)))))
           (fun L0 m0 =>
              _record_detection (KStr fault_name)
                (test_details now filename
                   (_find_containing_test_method content (m_start m0)) None)
                L0)
           (finditer (literal fault_name) content) m
           (file_step_refl filename) (file_step_trans filename)
           (fun L1 L2 H HS => has_method_file_step filename _ _ L1 L2 H HS));
    [|intros L0; apply stored_has_method|exact Hm].
  intros y L0. now apply record_file_step.
Qed.

Lemma marker_correlation_stores now fault_name content filename m
    (L : ledger) :
  injected_marker_present content = true ->
  In m (finditer injected_re content) ->
  m_group1 m = Some fault_name ->
  has_method fault_name
    (Some (or_unknown (_find_containing_test_method content (m_start m))))
    (marker_correlation now fault_name content filename L).
Proof.
  intros C Hm G. unfold marker_correlation. rewrite C.
  apply (fold_left_reaches (file_step filename)
           (has_method fault_name
              (Some (or_unknown
                       (_find_containing_test_method content (m_start m)))))
           (fun L0 m0 =>
              if opt_text_eqb (m_group1 m0) (Some fault_name) then
                _record_detection (KStr fault_name)
                  (test_details now filename
                     (_find_containing_test_method content (m_start m0)) None)
                  L0
              else L0)
           (finditer injected_re content) m
           (file_step_refl filename) (file_step_trans filename)
           (fun L1 L2 H HS => has_method_file_step filename _ _ L1 L2 H HS));
    [| |exact Hm].
  - intros y L0. destruct (opt_text_eqb (m_group1 y) (Some fault_name));
      [now apply record_file_step | apply file_step_refl].
  - intros L0. rewrite G.
    replace (opt_text_eqb (Some fault_name) (Some fault_name)) with true
      by (symmetry; now apply opt_text_eqb_eq).
    apply stored_has_method.
Qed.

(** What holds after the first two heuristics of a catalog fault holds at
    the end of the analysis of the artifact. *)
Lemma analyze_reaches now content filename (f : fault)
    (P : ledger -> Prop) :
  In f INJECTED_FAULTS ->
  (forall L L', P L -> file_step filename L L' -> P L') ->
  (forall L,
     P (marker_correlation now (faultName f) content filename
          (direct_name now (faultName f) content filename L))) ->
  forall L L', _analyze_test_content now content filename L = Done L' -> P L'.
Proof.
  intros Hf Ps H L L' E. unfold _analyze_test_content in E.
  apply (for_each_reaches (file_step filename) P
           (analyze_fault now content filename) INJECTED_FAULTS f
           (file_step_refl filename) (file_step_trans filename) Ps
           (fun g L0 Hg => analyze_fault_done now content filename g L0 Hg))
    with (L := L); [|exact Hf|exact E].
  clear E L L'. intros L L' E. unfold analyze_fault in E.
  destruct (for_each_done (file_step filename)
              (endpoint_proximity now (faultName f) content filename) (api f)
              (file_step_refl filename) (file_step_trans filename)
              (fun a L0 Ha => endpoint_proximity_done now f content filename a
                                L0 Hf Ha)
              (marker_correlation now (faultName f) content filename
                 (direct_name now (faultName f) content filename L)))
    as (L2 & E2 & S).
  rewrite E2 in E. injection E as <-. eapply Ps; [apply H | exact S].
Qed.

Lemma has_method_detected (f : fault) tm (L : ledger) :
  has_method (faultName f) tm L -> detected L f = true.
Proof.
  intros (d & I & _). unfold detected.
  destruct (ledger_get L (KStr (faultName f))); [destruct I | reflexivity].
Qed.

Lemma search_some_match (rx : regex) (content : text) :
  search rx content = true -> exists m, In m (finditer rx content).
Proof.
  unfold search. destruct (finditer rx content) as [|m l]; [discriminate|].
  intros _; exists m; now left.
Qed.

Lemma direct_name_has_source now fault_name content filename m (L : ledger) :
  contains fault_name content = true ->
  In m (finditer (literal fault_name) content) ->
  has_source filename (KStr fault_name)
    (direct_name now fault_name content filename L).
Proof.
  intros C Hm. unfold direct_name. rewrite C.
  apply (fold_left_reaches grows (has_source filename (KStr fault_name))
           (fun L0 m0 =>
              _record_detection (KStr fault_name)
                (test_details now filename
                   (_find_containing_test_method content (m_start m0)) None)
                L0)
           (finditer (literal fault_name) content) m
           grows_refl grows_trans
           (fun L1 L2 H G => has_source_grows filename _ L1 L2 H G));
    [| |exact Hm].
  - intros y L0. apply record_detection_grows.
  - intros L0.
    apply (record_has_source L0 (KStr fault_name)
             (test_details now filename
                (_find_containing_test_method content (m_start m)) None)).
Qed.

(** The direct-name heuristic, seen from the end of the analysis. *)
Lemma direct_name_full (now content filename : text) (f : fault)
    (L : ledger) :
  In f INJECTED_FAULTS ->
  contains (faultName f) content = true ->
  exists L',
    _analyze_test_content now content filename L = Done L' /\
    detected L' f = true /\
    has_source filename (KStr (faultName f)) L' /\
    forall m, In m (finditer (literal (faultName f)) content) ->
      has_method (faultName f)
        (Some (or_unknown (_find_containing_test_method content (m_start m))))
        L'.
Proof.
  intros Hf C.
  destruct (analyze_test_content_done now content filename L) as (L' & E & _).
  exists L'; split; [exact E|].
  assert (A : forall m, In m (finditer (literal (faultName f)) content) ->
      has_method (faultName f)
        (Some (or_unknown (_find_containing_test_method content (m_start m))))
        L').
  { intros m Hm.
    apply (analyze_reaches now content filename f _ Hf
             (fun L1 L2 H HS => has_method_file_step filename _ _ L1 L2 H HS))
      with (L := L); [|exact E].
    intros L0. eapply has_method_file_step;
      [now apply direct_name_stores | apply marker_correlation_step]. }
  destruct (search_some_match _ _ (contains_search_literal _ _ C)) as (m & Hm).
  split; [eapply has_method_detected, A, Hm|split; [|exact A]].
  apply (analyze_reaches now content filename f _ Hf
           (fun L1 L2 H HS =>
              has_source_grows filename _ L1 L2 H (proj1 HS)))
    with (L := L); [|exact E].
  intros L0. eapply has_source_grows;
    [eapply direct_name_has_source; eauto
    | apply (proj1 (marker_correlation_step now (faultName f) content
                      filename _))].
Qed.

(** X11. An artifact that contains the name of a catalog fault makes the
    fault detected, whatever the ledger held: the analysis ends normally,
    and for every occurrence of the name it holds a record under that name
    whose test method is the one located at the occurrence, or [unknown]
    when there is none. *)
Theorem direct_name_detects (now content filename : text) (f : fault)
    (L : ledger) :
  In f INJECTED_FAULTS ->
  contains (faultName f) content = true ->
  exists L',
    _analyze_test_content now content filename L = Done L' /\
    detected L' f = true /\
    forall m, In m (finditer (literal (faultName f)) content) ->
      has_method (faultName f)
        (Some (or_unknown (_find_containing_test_method content (m_start m))))
        L'.
Proof.
  intros Hf C.
  destruct (direct_name_full now content filename f L Hf C)
    as (L' & E & D & _ & A).
  exists L'; split; [exact E|split; [exact D | exact A]].
Qed.

Lemma direct_name_detects_witness :
  exists L',
    _analyze_test_content "2024-01-01 10:00:00" sample_named_text
      "EvoMaster_sample.py" [] = Done L' /\
    detected L' sample_route_fault = true.
Proof.
  assert (Hf : In sample_route_fault INJECTED_FAULTS)
    by (do 8 right; left; reflexivity).
  assert (Hc : contains (faultName sample_route_fault) sample_named_text = true)
    by (vm_compute; reflexivity).
  destruct (direct_name_detects "2024-01-01 10:00:00" sample_named_text
              "EvoMaster_sample.py" sample_route_fault [] Hf Hc)
    as (L' & E & D & _).
  exists L'; split; [exact E | exact D].
Defined.

(** X12. When the guard of the marker heuristic holds, every match of the
    marker-pair pattern whose captured name is a catalog fault leaves a
    record under that name for the test method located at the start of
    the match, which is where the marker stands, not where the name
    does. *)
Theorem marker_pair_detects (now content filename : text) (f : fault)
    (m : re_match) (L : ledger) :
  In f INJECTED_FAULTS ->
  injected_marker_present content = true ->
  In m (finditer injected_re content) ->
  m_group1 m = Some (faultName f) ->
  exists L',
    _analyze_test_content now content filename L = Done L' /\
    has_method (faultName f)
      (Some (or_unknown (_find_containing_test_method content (m_start m))))
      L'.
Proof.
  intros Hf C Hm G.
  destruct (analyze_test_content_done now content filename L) as (L' & E & _).
  exists L'; split; [exact E|].
  apply (analyze_reaches now content filename f _ Hf
           (fun L1 L2 H HS => has_method_file_step filename _ _ L1 L2 H HS))
    with (L := L); [|exact E].
  intros L0. now apply marker_correlation_stores.
Qed.

Lemma marker_pair_detects_witness :
  exists L',
    _analyze_test_content "2024-01-01 10:00:00" sample_cross_method_text
      "EvoMaster_sample.py" [] = Done L' /\
    has_method "INSUFFICIENT_STATIONS_FAULT" (Some (T "test_1")) L'.
Proof.
  assert (Hf : In sample_route_fault INJECTED_FAULTS)
    by (do 8 right; left; reflexivity).
  assert (Hc : injected_marker_present sample_cross_method_text = true)
    by (vm_compute; reflexivity).
  assert (Hm : In sample_marker_match
                 (finditer injected_re sample_cross_method_text))
    by (vm_compute; left; reflexivity).
  assert (Hg : m_group1 sample_marker_match =
               Some (faultName sample_route_fault)) by reflexivity.
  assert (Ht : or_unknown (_find_containing_test_method
                             sample_cross_method_text
                             (m_start sample_marker_match)) = T "test_1")
    by (vm_compute; reflexivity).
  destruct (marker_pair_detects "2024-01-01 10:00:00" sample_cross_method_text
              "EvoMaster_sample.py" sample_route_fault sample_marker_match []
              Hf Hc Hm Hg) as (L' & E & H).
  rewrite Ht in H. exists L'; split; [exact E | exact H].
Defined.

(** ** The loop over the test files *)

Lemma analyze_test_file_effect now (a : analyzer) (name : text)
    (r : file_read) :
  endswith ".py" name = true ->
  total_test_cases (analyze_test_file now a (name, r)) = total_test_cases a /\
  report_json_data (analyze_test_file now a (name, r)) = report_json_data a /\
  console (analyze_test_file now a (name, r)) =
    console a ++ read_warnings [(name, r)] /\
  adds (folder_record now [(name, r)]) (detected_faults a)
    (detected_faults (analyze_test_file now a (name, r))).
Proof.
  intros P. unfold analyze_test_file, read_warnings, analysed.
  cbn [fst snd flat_map]. rewrite P. cbn [andb].
  destruct (startswith "__" name || text_eqb name "em_test_utils.py") eqn:S;
    cbn [negb].
  - split; [reflexivity|split; [reflexivity|split]].
    + destruct r; now rewrite !app_nil_r.
    + apply adds_refl.
  - destruct r as [content|e].
    + destruct (analyze_test_content_adds now content name (detected_faults a))
        as (L' & E & A).
      rewrite E. cbn [finish with_ledger total_test_cases report_json_data
                        console detected_faults].
      split; [reflexivity|split; [reflexivity|split]].
      * now rewrite !app_nil_r.
      * eapply adds_weaken; [|exact A].
        intros k d T. exists name, content.
        split; [now left|split; [|exact T]].
        unfold analysed. now rewrite P, S.
    + cbn [print total_test_cases report_json_data console detected_faults].
      split; [reflexivity|split; [reflexivity|split]].
      * now rewrite app_nil_r.
      * apply adds_refl.
Qed.

Lemma read_warnings_cons (file : text * file_read)
    (folder : list (text * file_read)) :
  read_warnings (file :: folder) = read_warnings [file] ++ read_warnings folder.
Proof. unfold read_warnings; cbn [flat_map]. now rewrite app_nil_r. Qed.

Lemma read_warnings_not_py (file : text * file_read) :
  endswith ".py" (fst file) = false -> read_warnings [file] = [].
Proof.
  intros P. unfold read_warnings, analysed; cbn [flat_map]. rewrite P.
  now destruct (snd file).
Qed.

Lemma folder_record_mono now (folder folder' : list (text * file_read)) k d :
  (forall file, In file folder -> In file folder') ->
  folder_record now folder k d -> folder_record now folder' k d.
Proof.
  intros I (name & content & H & A & T).
  exists name, content; split; [now apply I|now split].
Qed.

Lemma analyze_test_files_effect now (folder : list (text * file_read)) :
  forall a,
    total_test_cases (_analyze_test_files now folder a) = total_test_cases a /\
    report_json_data (_analyze_test_files now folder a) = report_json_data a /\
    console (_analyze_test_files now folder a) =
      console a ++ read_warnings folder /\
    adds (folder_record now folder) (detected_faults a)
      (detected_faults (_analyze_test_files now folder a)).
Proof.
  unfold _analyze_test_files.
  induction folder as [|[name r] folder IH]; intros a.
  - cbn [filter fold_left read_warnings flat_map].
    rewrite app_nil_r.
    split; [reflexivity|split; [reflexivity|split; [reflexivity|]]].
    apply adds_refl.
  - cbn [filter fst]. rewrite read_warnings_cons.
    destruct (endswith ".py" name) eqn:P.
    + cbn [fold_left].
      destruct (analyze_test_file_effect now a name r P) as (T1 & R1 & C1 & A1).
      destruct (IH (analyze_test_file now a (name, r))) as (T2 & R2 & C2 & A2).
      split; [congruence|split; [congruence|split]].
      * rewrite C2, C1. now rewrite app_assoc.
      * eapply adds_trans.
        -- eapply adds_weaken; [|exact A1].
           intros k d; apply folder_record_mono.
           intros file [<-|[]]; now left.
        -- eapply adds_weaken; [|exact A2].
           intros k d; apply folder_record_mono.
           intros file H; now right.
    + rewrite (read_warnings_not_py (name, r) P). cbn [app].
      destruct (IH a) as (T2 & R2 & C2 & A2).
      split; [exact T2|split; [exact R2|split; [exact C2|]]].
      eapply adds_weaken; [|exact A2].
      intros k d; apply folder_record_mono. intros file H; now right.
Qed.

(** X13. The loop over the test files changes neither the case count nor
    the parsed report; it prints one warning for each unreadable file it
    analyses, in folder order, and none for a readable one; and it only
    adds records of the text scanner for readable [*.py] files of the
    folder that are neither package files nor the utility module. *)
Theorem test_files_loop_effect (now : text)
    (folder : list (text * file_read)) (a : analyzer) :
  total_test_cases (_analyze_test_files now folder a) = total_test_cases a /\
  report_json_data (_analyze_test_files now folder a) = report_json_data a /\
  console (_analyze_test_files now folder a) =
    console a ++ read_warnings folder /\
  adds (folder_record now folder) (detected_faults a)
    (detected_faults (_analyze_test_files now folder a)).
Proof. apply analyze_test_files_effect. Qed.

(** ** The case counter *)

Lemma match_here_test_count (s : text) :
  match_here test_count_re s 0 None None =
  match marker_word s with
  | Some w => Some (16 + length w, None)
  | None => None
  end.
Proof.
  unfold test_count_re, marker_word.
  change (literal "def test_" ++ [Many Word 1 true] ++ literal "(self):")
    with (literal "def " ++ literal "test_" ++ [Many Word 1 true] ++
          literal "(self):").
  rewrite match_here_literal.
  destruct (startswith "def " s); [|reflexivity].
  rewrite match_here_literal.
  change (length (T "def ")) with 4; change (length (T "test_")) with 5.
  destruct (startswith "test_" (skipn 4 s)); [|reflexivity].
  change (0 + 4 + 5) with 9.
  set (rest := skipn 5 (skipn 4 s)).
  change ([Many Word 1 true] ++ literal "(self):")
    with (Many Word 1 true :: (literal "(self):" ++ [])).
  cbn [match_here].
  assert (F : forall n,
             match_here (literal "(self):" ++ []) (skipn n rest) (9 + n)
               None None =
             if startswith "(self):" (skipn n rest)
             then Some (9 + n + 7, None) else None).
  { intros n; rewrite match_here_literal.
    destruct (startswith "(self):" (skipn n rest)); reflexivity. }
  rewrite first_some_greedy.
  - destruct (run_length Word rest) as [|n] eqn:R; [reflexivity|].
    rewrite F.
    destruct (startswith "(self):" (skipn (S n) rest)); [|reflexivity].
    assert (length (firstn (S n) rest) = S n).
    { rewrite length_firstn. pose proof (run_length_le Word rest). lia. }
    rewrite H. f_equal; f_equal; lia.
  - intros k Hk. rewrite F.
    destruct (run_length_inside Word rest k) as (c & t & E & W); [lia|].
    rewrite E, word_not_paren; auto.
Qed.

Lemma match_at_test_count (s : text) (i : nat) :
  match_at test_count_re s i =
  match marker_word s with
  | Some w => Some (16 + length w, mkMatch i (i + (16 + length w)) None)
  | None => None
  end.
Proof.
  unfold match_at. rewrite match_here_test_count.
  now destruct (marker_word s).
Qed.

Lemma scan_count_spans (s : text) :
  forall i k,
    map span (scan test_count_re s i k) = map span (scan test_def_re s i k).
Proof.
  induction s as [|c s IH]; intros i k.
  - destruct k; [|reflexivity]. cbn [scan].
    rewrite match_at_test_count, match_at_test_def.
    destruct (marker_word []); [|reflexivity].
    unfold marker_match, span; cbn [map m_start m_end].
    now rewrite Nat.add_0_r.
  - destruct k as [|k]; cbn [scan]; [|apply IH].
    rewrite match_at_test_count, match_at_test_def.
    destruct (marker_word (c :: s)) as [w|]; [|apply IH].
    cbn [map]. rewrite IH. f_equal.
    unfold marker_match, span; cbn [m_start m_end]. now rewrite Nat.add_0_r.
Qed.

Lemma count_test_file_effect (a : analyzer) (file : text * file_read) :
  detected_faults (count_test_file a file) = detected_faults a /\
  report_json_data (count_test_file a file) = report_json_data a /\
  console (count_test_file a file) = console a /\
  total_test_cases (count_test_file a file) =
    total_test_cases a + test_methods (snd file).
Proof.
  unfold count_test_file, test_methods. destruct (snd file) as [content|e].
  - cbn [detected_faults report_json_data console total_test_cases].
    repeat split. f_equal. unfold finditer.
    rewrite <- (length_map span (scan test_count_re content 0 0)).
    rewrite scan_count_spans. apply length_map.
  - repeat split. lia.
Qed.

Lemma fold_count_effect (files : list (text * file_read)) :
  forall a,
    detected_faults (fold_left count_test_file files a) = detected_faults a /\
    report_json_data (fold_left count_test_file files a) = report_json_data a /\
    console (fold_left count_test_file files a) = console a /\
    total_test_cases (fold_left count_test_file files a) =
      total_test_cases a + list_sum (map (fun f => test_methods (snd f)) files).
Proof.
  induction files as [|file files IH]; intros a; cbn [fold_left map].
  - repeat split. change (list_sum []) with 0. lia.
  - destruct (IH (count_test_file a file)) as (D & R & C & N).
    destruct (count_test_file_effect a file) as (D1 & R1 & C1 & N1).
    repeat split; try congruence. rewrite N, N1.
    change (list_sum (test_methods (snd file) ::
                      map (fun f => test_methods (snd f)) files))
      with (test_methods (snd file) +
            list_sum (map (fun f => test_methods (snd f)) files)).
    lia.
Qed.

(** X14. The case counter touches neither the ledger, the parsed report nor
    the console, and the count it adds is the number of test method
    definitions that the locator recognises in the readable
    [EvoMaster_*.py] files: both patterns match at the same places, and
    an unreadable file counts for nothing, in silence. *)
Theorem count_test_cases_effect (folder : list (text * file_read))
    (a : analyzer) (content : text) :
  detected_faults (_count_test_cases folder a) = detected_faults a /\
  report_json_data (_count_test_cases folder a) = report_json_data a /\
  console (_count_test_cases folder a) = console a /\
  total_test_cases (_count_test_cases folder a) =
    total_test_cases a +
    list_sum (map (fun f => test_methods (snd f))
                (filter (fun f => counted (fst f)) folder)) /\
  map span (finditer test_count_re content) =
    map span (finditer test_def_re content).
Proof.
  unfold _count_test_cases.
  destruct (fold_count_effect
              (filter (fun f => startswith "EvoMaster_" (fst f) &&
                                endswith ".py" (skipn 10 (fst f))) folder) a)
    as (D & R & C & N).
  split; [exact D|split; [exact R|split; [exact C|split; [exact N|]]]].
  apply scan_count_spans.
Qed.

(** ** The whole analysis *)

Lemma analyze_test_file_grows now (a : analyzer) (file : text * file_read) :
  grows (detected_faults a) (detected_faults (analyze_test_file now a file)).
Proof.
  unfold analyze_test_file.
  destruct (startswith "__" (fst file) || text_eqb (fst file) "em_test_utils.py");
    [apply grows_refl|].
  destruct (snd file) as [content|e]; [|apply grows_refl].
  destruct (analyze_test_content_adds now content (fst file) (detected_faults a))
    as (L' & E & G & _).
  rewrite E. exact G.
Qed.

Lemma fold_test_files_grows now (files : list (text * file_read)) :
  forall a,
    grows (detected_faults a)
      (detected_faults (fold_left (analyze_test_file now) files a)).
Proof.
  induction files as [|file files IH]; intros a; cbn [fold_left].
  - apply grows_refl.
  - eapply grows_trans; [apply analyze_test_file_grows | apply IH].
Qed.

Lemma fold_test_files_reaches now (P : ledger -> Prop)
    (files : list (text * file_read)) (file : text * file_read) :
  (forall L L', P L -> grows L L' -> P L') ->
  (forall a, P (detected_faults (analyze_test_file now a file))) ->
  In file files ->
  forall a, P (detected_faults (fold_left (analyze_test_file now) files a)).
Proof.
  intros Ps H; induction files as [|x files IH]; intros I a; [destruct I|].
  cbn [fold_left]. destruct I as [->|I]; [|now apply IH].
  eapply Ps; [apply H | apply fold_test_files_grows].
Qed.

Lemma detected_grows (f : fault) (L L' : ledger) :
  detected L f = true -> grows L L' -> detected L' f = true.
Proof.
  unfold detected; intros D G.
  destruct (ledger_get L (KStr (faultName f))) as [|d ds] eqn:E; [discriminate|].
  assert (I : In d (ledger_get L' (KStr (faultName f))))
    by (apply G; rewrite E; now left).
  destruct (ledger_get L' (KStr (faultName f))); [destruct I | reflexivity].
Qed.

(** X15. Whatever the analyzer held and whatever the report document is, a
    catalog fault whose name occurs in a readable [*.py] file of the
    folder, other than a package file and the utility module, is detected
    at the end of the whole analysis, with a record from that file. *)
Theorem named_fault_is_detected (now : text) (report : report_file)
    (folder : list (text * file_read)) (a : analyzer)
    (name content : text) (f : fault) :
  In (name, Content content) folder ->
  analysed name = true ->
  In f INJECTED_FAULTS ->
  contains (faultName f) content = true ->
  detected (detected_faults (analyze now report folder a)) f = true /\
  has_source name (KStr (faultName f))
    (detected_faults (analyze now report folder a)).
Proof.
  intros I A Hf C. unfold analyze.
  unfold _count_test_cases.
  destruct (fold_count_effect
              (filter (fun f => startswith "EvoMaster_" (fst f) &&
                                endswith ".py" (skipn 10 (fst f))) folder)
              (_analyze_test_files now folder
                 (_analyze_report_json now report a))) as (-> & _).
  unfold _analyze_test_files, analysed in *.
  apply andb_true_iff in A as [P S]. apply negb_true_iff in S.
  apply (fold_test_files_reaches now
           (fun L => detected L f = true /\
                     has_source name (KStr (faultName f)) L)
           _ (name, Content content)).
  - intros L L' [D H] G; split; [eapply detected_grows; eauto|].
    eapply has_source_grows; eauto.
  - intros a0. unfold analyze_test_file; cbn [fst snd]. rewrite S.
    destruct (direct_name_full now content name f (detected_faults a0) Hf C)
      as (L' & E & D & H & _).
    rewrite E. cbn [finish with_ledger detected_faults]. now split.
  - apply filter_In; split; [exact I | exact P].
Qed.

Lemma named_fault_is_detected_witness :
  detected
    (detected_faults
       (analyze "2024-01-01 10:00:00" ReportAbsent sample_folder init))
    sample_route_fault = true.
Proof.
  assert (I : In (T "EvoMaster_sample.py", Content sample_named_text)
                sample_folder) by (left; reflexivity).
  assert (A : analysed "EvoMaster_sample.py" = true)
    by (vm_compute; reflexivity).
  assert (Hf : In sample_route_fault INJECTED_FAULTS)
    by (do 8 right; left; reflexivity).
  assert (C : contains (faultName sample_route_fault) sample_named_text = true)
    by (vm_compute; reflexivity).
  exact (proj1 (named_fault_is_detected "2024-01-01 10:00:00" ReportAbsent
                  sample_folder init "EvoMaster_sample.py" sample_named_text
                  sample_route_fault I A Hf C)).
Defined.

Lemma report_scan_one_record_per_name_witness :
  length
    (ledger_get
       (detected_faults
          (_analyze_report_json "2024-01-01 10:00:00"
             (ReportParsed sample_two_markers) init))
       (KStr "INSUFFICIENT_STATIONS_FAULT")) <= 1.
Proof.
  assert (E : detected_faults init = []) by reflexivity.
  exact (proj1 (report_scan_one_record_per_name "2024-01-01 10:00:00"
                  (ReportParsed sample_two_markers) init
                  (KStr "INSUFFICIENT_STATIONS_FAULT") E)).
Defined.

(** X16. A run on a fresh analyzer, whatever the report document and the
    folder are, ends with a ledger that meets the dedup contract, whose
    keys are distinct and hold no empty list, and in which every record
    comes from the structured scanner, with the source report.json, or
    from the text scanner for an analysed file of the folder; the case
    count is the number of test methods of the counted files. *)
Theorem analysis_of_a_folder (now : text) (report : report_file)
    (folder : list (text * file_read)) (k : pykey) (d : detection) :
  dedup_ok (detected_faults (analyze now report folder init)) /\
  well_keyed (detected_faults (analyze now report folder init)) /\
  (In d (ledger_get (detected_faults (analyze now report folder init)) k) ->
   structured_record "report.json" k d \/ folder_record now folder k d) /\
  total_test_cases (analyze now report folder init) =
    list_sum (map (fun f => test_methods (snd f))
                (filter (fun f => counted (fst f)) folder)).
Proof.
  unfold analyze, _count_test_cases.
  destruct (fold_count_effect
              (filter (fun f => startswith "EvoMaster_" (fst f) &&
                                endswith ".py" (skipn 10 (fst f))) folder)
              (_analyze_test_files now folder
                 (_analyze_report_json now report init))) as (-> & _ & _ & ->).
  destruct (analyze_test_files_effect now folder
              (_analyze_report_json now report init)) as (-> & _ & _ & A2).
  pose proof (analyze_report_json_adds now report init) as A1.
  assert (T0 : total_test_cases (_analyze_report_json now report init) = 0).
  { destruct report as [|e|data]; cbn [_analyze_report_json]; try reflexivity.
    destruct data; try reflexivity.
    cbn [detected_faults].
    now destruct (_search_json_for_faults now (JDict fields) "report.json" ""
                    (detected_faults init)). }
  rewrite T0.
  assert (A : adds (fun k d => structured_record "report.json" k d \/
                               folder_record now folder k d)
                (detected_faults init)
                (detected_faults
                   (_analyze_test_files now folder
                      (_analyze_report_json now report init)))).
  { eapply adds_trans; (eapply adds_weaken; [|eassumption]);
      intros k0 d0 H; [now left | now right]. }
  apply adds_from_empty in A as (D & W & Q).
  split; [exact D|split; [exact W|split; [apply Q | reflexivity]]].
Qed.

(** ** How the report shows a record *)

(** X17. The report shows a record of the structured scanner by its source
    and its timestamp alone: the path, the message, the details and the
    context that the scanner stored are never printed. *)
Theorem structured_record_rendering (now : text) (report : report_file)
    (k : pykey) (d : detection) (i : nat) :
  In d (ledger_get (detected_faults (_analyze_report_json now report init)) k) ->
  detection_lines (i, d) =
    ["   Detection #" ++ str_of_nat i ++ ":";
     T "     Source:      report.json"] ++
    field_line "     Timestamp:   " (Some (d_timestamp d)) ++ [T ""].
Proof.
  intros H.
  pose proof (analyze_report_json_adds now report init) as A.
  apply adds_from_empty in A as (_ & _ & Q).
  destruct (Q k d H) as (S & _ & C & M & P).
  unfold detection_lines. rewrite S, C, M, P. reflexivity.
Qed.

Lemma structured_record_rendering_witness :
  detection_lines (1, sample_structured) =
    [T "   Detection #1:";
     T "     Source:      report.json";
     T "     Timestamp:   2024-01-01 10:00:00";
     T ""].
Proof.
  assert (H : In sample_structured
                (ledger_get
                   (detected_faults
                      (_analyze_report_json "2024-01-01 10:00:00"
                         (ReportParsed (JDict sample_report_fields)) init))
                   (KStr "INSUFFICIENT_STATIONS_FAULT")))
    by (vm_compute; left; reflexivity).
  exact (structured_record_rendering "2024-01-01 10:00:00"
           (ReportParsed (JDict sample_report_fields))
           (KStr "INSUFFICIENT_STATIONS_FAULT") sample_structured 1 H).
Defined.

(** ** No record without a trigger *)

Lemma for_each_unchanged {A : Type} (body : A -> ledger -> outcome)
    (xs : list A) (L : ledger) :
  (forall x, In x xs -> body x L = Done L) -> for_each xs body L = Done L.
Proof.
  induction xs as [|x xs IH]; intros H; simpl; [reflexivity|].
  rewrite (H x (or_introl eq_refl)). apply IH; intros y Hy; apply H; now right.
Qed.

(** X18. The text scanner stores nothing without a trigger: on an artifact
    that contains no catalog fault name, fails the guard of the marker
    heuristic and holds none of the catalog's API paths, the analysis ends
    normally with the ledger exactly as it was, whatever else the artifact
    contains, a 400 status included. *)
Theorem no_trigger_no_record (now content filename : text) (L : ledger) :
  no_trigger content = true ->
  _analyze_test_content now content filename L = Done L.
Proof.
  unfold no_trigger; intros H.
  apply andb_true_iff in H as [G F]. apply negb_true_iff in G.
  rewrite forallb_forall in F.
  unfold _analyze_test_content. apply for_each_unchanged; intros f Hf.
  apply F in Hf. apply andb_true_iff in Hf as [C P].
  apply negb_true_iff in C. rewrite forallb_forall in P.
  unfold analyze_fault, direct_name, marker_correlation. rewrite C, G.
  apply for_each_unchanged; intros a Ha.
  apply P in Ha. unfold path_absent in Ha. unfold endpoint_proximity.
  destruct (split_once a) as [[method path]|]; [|discriminate].
  destruct (compile (path_pattern path)) as [rx|]; [|discriminate].
  apply negb_true_iff in Ha. now rewrite Ha.
Qed.

Lemma no_trigger_no_record_witness :
  _analyze_test_content "2024-01-01 10:00:00" sample_plain_text
    "EvoMaster_sample.py" [] = Done [].
Proof.
  assert (H : no_trigger sample_plain_text = true) by (vm_compute; reflexivity).
  exact (no_trigger_no_record "2024-01-01 10:00:00" sample_plain_text
           "EvoMaster_sample.py" [] H).
Defined.

(** ** An occurrence outside any test method *)

(** X19. For an occurrence of an API path that lies in no test method and
    has an indicator nearby, the endpoint heuristic compares the stored
    test methods with the absent one, while the record it would store
    says [unknown]: a record without a test method, such as one of the
    structured scanner, suppresses the occurrence, and when there is none
    the fault gets a record for the method [unknown]. *)
Theorem endpoint_outside_any_method (now fault_name content filename path : text)
    (m : re_match) (L : ledger) :
  _find_containing_test_method content (m_start m) = None ->
  has_indicator fault_name (window content m) = true ->
  (has_method fault_name None L ->
   endpoint_match now fault_name content filename path m L = L) /\
  (~ has_method fault_name None L ->
   has_method fault_name (Some (T "unknown"))
     (endpoint_match now fault_name content filename path m L)).
Proof.
  intros T I.
  pose proof (endpoint_match_check now fault_name content filename path m L)
    as (_ & Hskip & Hrec). rewrite T in Hskip, Hrec.
  split; [exact Hskip|].
  intros N. rewrite (Hrec I N).
  apply (stored_has_method now filename fault_name None (Some path) L).
Qed.

Lemma endpoint_outside_any_method_witness :
  endpoint_match "2024-01-01 10:00:00" "INSUFFICIENT_STATIONS_FAULT"
    sample_module_text "EvoMaster_sample.py"
    "/api/v1/adminrouteservice/adminroute" sample_module_occurrence
    sample_structured_ledger = sample_structured_ledger.
Proof.
  assert (Ht : _find_containing_test_method sample_module_text
                 (m_start sample_module_occurrence) = None)
    by (vm_compute; reflexivity).
  assert (Hi : has_indicator "INSUFFICIENT_STATIONS_FAULT"
                 (window sample_module_text sample_module_occurrence) = true)
    by (vm_compute; reflexivity).
  assert (Hm : has_method "INSUFFICIENT_STATIONS_FAULT" None
                 sample_structured_ledger)
    by (exists sample_structured; split; [left; reflexivity | reflexivity]).
  exact (proj1 (endpoint_outside_any_method "2024-01-01 10:00:00"
                  "INSUFFICIENT_STATIONS_FAULT" sample_module_text
                  "EvoMaster_sample.py" "/api/v1/adminrouteservice/adminroute"
                  sample_module_occurrence sample_structured_ledger Ht Hi) Hm).
Defined.

(** ** The two notes of the report *)

Lemma digit_not_note (c : ascii) :
  code_in 48 57 c = true -> Ascii.eqb c "N" || Ascii.eqb c "A" = false.
Proof.
  intros H.
  destruct (Ascii.eqb c "N") eqn:E1;
    [apply Ascii.eqb_eq in E1; subst c; discriminate H|].
  destruct (Ascii.eqb c "A") eqn:E2;
    [apply Ascii.eqb_eq in E2; subst c; discriminate H|].
  reflexivity.
Qed.

Lemma field_line_no_note (label : text) (v : option text) :
  is_note_start label = false -> label <> [] ->
  filter is_note_start (field_line label v) = [].
Proof.
  intros H N; destruct v as [[|c t]|]; try reflexivity.
  destruct label as [|a label]; [now contradict N|].
  cbn [field_line filter app is_note_start] in *. now rewrite H.
Qed.

Lemma fault_heading_no_note (num : nat) (f : fault) :
  filter is_note_start (fault_heading num f) = [].
Proof.
  unfold fault_heading.
  destruct (str_of_nat_head num) as (c & t & -> & Hc).
  cbn [filter]. cbn [app is_note_start].
  rewrite (digit_not_note c Hc). reflexivity.
Qed.

Lemma detection_lines_no_note (e : nat * detection) :
  filter is_note_start (detection_lines e) = [].
Proof.
  destruct e as [i d]; unfold detection_lines.
  rewrite !filter_app.
  rewrite !field_line_no_note by (reflexivity || discriminate).
  destruct (truthy (d_test_class d));
    [|rewrite field_line_no_note by (reflexivity || discriminate)];
    reflexivity.
Qed.

Lemma flat_map_no_note {A : Type} (block : A -> list text) (xs : list A) :
  (forall x, filter is_note_start (block x) = []) ->
  filter is_note_start (flat_map block xs) = [].
Proof.
  intros H; induction xs as [|x xs IH]; [reflexivity|].
  cbn [flat_map]. now rewrite filter_app, H, IH.
Qed.

Lemma detected_block_no_note (num : nat) (f : fault) (ds : list detection) :
  filter is_note_start (detected_block num f ds) = [].
Proof.
  unfold detected_block.
  rewrite !filter_app, fault_heading_no_note.
  rewrite (flat_map_no_note detection_lines) by apply detection_lines_no_note.
  destruct (5 <? length ds)%nat; reflexivity.
Qed.

Lemma undetected_block_no_note (num : nat) (f : fault) :
  filter is_note_start (undetected_block num f) = [].
Proof.
  unfold undetected_block. now rewrite filter_app, fault_heading_no_note.
Qed.

Lemma catalog_name_head (f : fault) :
  In f INJECTED_FAULTS -> exists t, faultName f = "I"%char :: t.
Proof.
  intros Hf; unfold INJECTED_FAULTS in Hf.
  repeat (destruct Hf as [<-|Hf]; [eexists; reflexivity|]).
  destruct Hf.
Qed.

Lemma statistics_rows_no_note (L : ledger) :
  filter is_note_start (statistics_rows L) = [].
Proof.
  rewrite statistics_rows_map.
  assert (H : forall f, In f INJECTED_FAULTS ->
                is_note_start (statistics_row L f) = false).
  { intros f Hf. destruct (catalog_name_head f Hf) as (t & E).
    unfold statistics_row, ljust. rewrite E. reflexivity. }
  revert H; generalize INJECTED_FAULTS; intros fs H.
  induction fs as [|f fs IH]; [reflexivity|].
  cbn [map filter]. rewrite (H f (or_introl eq_refl)).
  apply IH; intros g Hg; apply H; now right.
Qed.

Lemma fault_sections_notes (L : ledger) :
  filter is_note_start (fault_sections L) =
  (if (detected_count L =? 0)%nat then [none_detected_note] else []) ++
  (if (total_faults - detected_count L =? 0)%nat
   then [all_detected_note] else []).
Proof.
  unfold fault_sections.
  rewrite detected_loop_blocks, undetected_loop_blocks. cbn [snd].
  rewrite !filter_app, statistics_rows_no_note.
  rewrite (flat_map_no_note
             (fun nf => detected_block (fst nf) (snd nf)
                          (ledger_get L (KStr (faultName (snd nf))))))
    by (intros x; apply detected_block_no_note).
  rewrite (flat_map_no_note
             (fun nf => undetected_block (fst nf) (snd nf)))
    by (intros x; apply undetected_block_no_note).
  destruct (detected_count L =? 0)%nat;
    destruct (total_faults - detected_count L =? 0)%nat; reflexivity.
Qed.

Lemma summary_lines_no_note now experiment_name test_folder (a : analyzer)
    (percentage : pynum) (cells : text) :
  filter is_note_start
    (summary_lines now experiment_name test_folder a percentage
       ("["%char :: cells)) = [].
Proof. reflexivity. Qed.

Lemma rendered_notes (now experiment_name test_folder : text)
    (a : analyzer) (lines : list text) (ret : nat * nat) :
  generate_report now experiment_name test_folder a = Some (lines, ret) ->
  filter is_note_start lines =
    (if (detected_count (detected_faults a) =? 0)%nat
     then [none_detected_note] else []) ++
    (if (detected_count (detected_faults a) =? total_faults)%nat
     then [all_detected_note] else []).
Proof.
  set (L := detected_faults a). intros H.
  unfold generate_report in H. fold L in H.
  destruct (generate_progress_bar
              (detection_percentage (detected_count L) total_faults) 50)
    as [bar|] eqn:Hbar; [|discriminate].
  pose proof (f_equal (fun o : option (list text * (nat * nat)) =>
                         match o with
                         | Some (l, _) => l
                         | None => []
                         end) H) as E.
  cbv beta iota in E. rewrite <- E. clear E H.
  unfold generate_progress_bar in Hbar.
  destruct (filled_cells _ 50); [|discriminate].
  injection Hbar as <-.
  rewrite filter_app, summary_lines_no_note.
  rewrite fault_sections_notes. cbn [app]. do 2 f_equal.
  pose proof (detected_count_le L) as Hle.
  destruct (total_faults - detected_count L =? 0)%nat eqn:E1;
    destruct (detected_count L =? total_faults)%nat eqn:E2;
    try reflexivity; exfalso.
  - apply Nat.eqb_eq in E1; apply Nat.eqb_neq in E2; lia.
  - apply Nat.eqb_neq in E1; apply Nat.eqb_eq in E2; lia.
Qed.

(** X20. Among the lines that the report renders, only the two notes begin
    with a capital N or A: the note that no fault was detected is one of
    the lines exactly when the detected count is 0, the note that all were
    detected exactly when the count is the size of the catalog, and never
    both.  This is about the rendered lines; writing them to the output
    file is not part of it. *)
Theorem report_notes (now experiment_name test_folder : text) (a : analyzer)
    (lines : list text) (ret : nat * nat) :
  generate_report now experiment_name test_folder a = Some (lines, ret) ->
  filter is_note_start lines =
    (if (detected_count (detected_faults a) =? 0)%nat
     then [none_detected_note] else []) ++
    (if (detected_count (detected_faults a) =? total_faults)%nat
     then [all_detected_note] else []) /\
  (In none_detected_note lines <-> detected_count (detected_faults a) = 0) /\
  (In all_detected_note lines <->
   detected_count (detected_faults a) = total_faults) /\
  ~ (In none_detected_note lines /\ In all_detected_note lines).
Proof.
  intros H. pose proof (rendered_notes _ _ _ _ _ _ H) as N.
  set (L := detected_faults a) in *.
  assert (I : forall note, is_note_start note = true ->
                (In note lines <-> In note (filter is_note_start lines))).
  { intros note S; rewrite filter_In; tauto. }
  rewrite (I none_detected_note eq_refl), (I all_detected_note eq_refl), N.
  change total_faults with 10 in *.
  split; [reflexivity|].
  assert (D : none_detected_note <> all_detected_note) by discriminate.
  destruct (Nat.eqb_spec (detected_count L) 0) as [E1|E1];
    destruct (Nat.eqb_spec (detected_count L) 10) as [E2|E2];
    cbn [app In]; try lia; intuition congruence.
Qed.

Lemma report_notes_witness :
  exists lines ret,
    generate_report "2024-01-01 10:00:00" "experiment" "./generated_tests"
      init = Some (lines, ret) /\
    In none_detected_note lines /\ ~ In all_detected_note lines.
Proof.
  assert (H : exists lines ret,
             generate_report "2024-01-01 10:00:00" "experiment"
               "./generated_tests" init = Some (lines, ret))
    by (vm_compute; eexists; eexists; reflexivity).
  destruct H as (lines & ret & H).
  assert (Z : detected_count (detected_faults init) = 0) by reflexivity.
  destruct (report_notes "2024-01-01 10:00:00" "experiment"
              "./generated_tests" init lines ret H) as (_ & N & _ & B).
  exists lines, ret. split; [exact H|].
  split; [apply N, Z|].
  intros A. apply B. split; [apply N, Z | exact A].
Defined.

(** ** The numbers of the summary *)

Lemma complement_percentage (d : nat) :
  d <= total_faults ->
  format_1f (detection_percentage d total_faults) =
    str_of_nat (d * 10) ++ ".0" /\
  format_1f (py_sub (PInt 100) (detection_percentage d total_faults)) =
    str_of_nat (100 - d * 10) ++ ".0".
Proof.
  intros H; change total_faults with 10 in *.
  do 11 (destruct d as [|d]; [vm_compute; split; reflexivity|]).
  lia.
Qed.

(** X21. In the summary of every report the two counts add up to the size
    of the catalog and the two percentages, each printed with one decimal,
    add up to 100: with [d] faults detected the lines read [d (10d.0%)]
    and [10 - d (100 - 10d.0%)], the second percentage being the binary64
    difference of 100 and the first. *)
Theorem summary_counts_and_percentages (now experiment_name test_folder : text)
    (a : analyzer) (bar : text) :
  let d := detected_count (detected_faults a) in
  let lines :=
    summary_lines now experiment_name test_folder a
      (detection_percentage d total_faults) bar in
  d <= total_faults /\
  nth 7 lines [] = "Total Test Cases:   " ++ str_of_nat (total_test_cases a) /\
  nth 14 lines [] =
    "Detected Faults:          " ++ str_of_nat d ++
    " (" ++ str_of_nat (d * 10) ++ ".0%)" /\
  nth 15 lines [] =
    "Undetected Faults:        " ++ str_of_nat (total_faults - d) ++
    " (" ++ str_of_nat (100 - d * 10) ++ ".0%)".
Proof.
  intros d lines.
  pose proof (detected_count_le (detected_faults a)) as Hle. fold d in Hle.
  destruct (complement_percentage d Hle) as [P1 P2].
  split; [exact Hle|]. unfold lines, summary_lines. cbn [nth]. fold d.
  rewrite P1, P2. rewrite <- !app_assoc.
  split; [reflexivity|split; reflexivity].
Qed.

(** ** Detection as a function of the content *)

Lemma existsb_false {A : Type} (p : A -> bool) (xs : list A) :
  existsb p xs = false -> forall x, In x xs -> p x = false.
Proof.
  intros H x Hx. destruct (p x) eqn:E; [|reflexivity].
  rewrite <- H. symmetry. apply existsb_exists. now exists x.
Qed.

Lemma fold_left_unchanged {A : Type} (step : ledger -> A -> ledger)
    (xs : list A) (L : ledger) :
  (forall x, In x xs -> step L x = L) -> fold_left step xs L = L.
Proof.
  induction xs as [|x xs IH]; intros H; cbn [fold_left]; [reflexivity|].
  rewrite (H x (or_introl eq_refl)). apply IH; intros y Hy; apply H; now right.
Qed.

(** A catalog fault that nothing in the content fires for leaves the ledger
    as it is. *)
Lemma analyze_fault_quiet now content filename (g : fault) (L : ledger) :
  In g INJECTED_FAULTS -> fires content g = false ->
  analyze_fault now content filename g L = Done L.
Proof.
  intros Hg F. unfold fires in F.
  apply orb_false_iff in F as [F E]. apply orb_false_iff in F as [C M].
  unfold analyze_fault, direct_name. rewrite C.
  assert (M' : marker_correlation now (faultName g) content filename L = L).
  { unfold marker_correlation, marker_fires in *.
    destruct (injected_marker_present content); [|reflexivity].
    cbn [andb] in M. apply fold_left_unchanged; intros m Hm.
    now rewrite (existsb_false _ _ M m Hm). }
  rewrite M'. apply for_each_unchanged; intros a Ha.
  pose proof (existsb_false _ _ E a Ha) as Q.
  destruct (catalog_api_compiles g a Hg Ha) as (method & path & rx & S & K).
  unfold endpoint_fires in Q. unfold endpoint_proximity. rewrite S, K in *.
  destruct (search rx content); [|reflexivity].
  f_equal. apply fold_left_unchanged; intros m Hm.
  unfold endpoint_match. now rewrite (existsb_false _ _ Q m Hm).
Qed.

(** The records that the analysis for one fault adds are stored under the
    name of that fault. *)
Lemma analyze_fault_keys now content filename (g : fault) (L : ledger) :
  In g INJECTED_FAULTS ->
  exists L',
    analyze_fault now content filename g L = Done L' /\
    adds (fun k _ => k = KStr (faultName g)) L L'.
Proof.
  intros Hg. unfold analyze_fault.
  set (Q := fun (k : pykey) (_ : detection) => k = KStr (faultName g)).
  assert (R : forall d L0, adds Q L0 (_record_detection (KStr (faultName g)) d L0))
    by (intros d L0; now apply record_adds).
  assert (A1 : adds Q L (direct_name now (faultName g) content filename L)).
  { unfold direct_name. destruct (contains (faultName g) content);
      [|apply adds_refl].
    apply fold_adds; intros m L0; apply R. }
  assert (A2 : forall L0,
             adds Q L0 (marker_correlation now (faultName g) content filename L0)).
  { intros L0. unfold marker_correlation.
    destruct (injected_marker_present content); [|apply adds_refl].
    apply fold_adds; intros m L1.
    destruct (opt_text_eqb (m_group1 m) (Some (faultName g)));
      [apply R | apply adds_refl]. }
  destruct (for_each_done (adds Q)
              (endpoint_proximity now (faultName g) content filename) (api g)
              (adds_refl Q) (adds_trans Q)) with
    (L := marker_correlation now (faultName g) content filename
            (direct_name now (faultName g) content filename L))
    as (L' & E & A3).
  - intros a L0 Ha.
    destruct (catalog_api_compiles g a Hg Ha) as (method & path & rx & S & K).
    unfold endpoint_proximity. rewrite S, K.
    destruct (search rx content); eexists; split; try reflexivity;
      [|apply adds_refl].
    apply fold_adds; intros m L1. unfold endpoint_match.
    destruct (has_indicator (faultName g) (window content m));
      [|apply adds_refl].
    destruct (filter _ _); [apply R | apply adds_refl].
  - exists L'; split; [exact E|].
    eapply adds_trans; [exact A1|]. eapply adds_trans; [apply A2 | exact A3].
Qed.

Lemma catalog_name_injective (f g : fault) :
  In f INJECTED_FAULTS -> In g INJECTED_FAULTS ->
  faultName f = faultName g -> f = g.
Proof.
  pose proof catalog_names_NoDup as N. revert N.
  generalize INJECTED_FAULTS; intros fs.
  induction fs as [|x fs IH]; intros N Hf Hg E; [destruct Hf|].
  cbn [map] in N. inversion N as [|? ? N1 N2]; subst.
  destruct Hf as [->|Hf], Hg as [->|Hg]; try reflexivity.
  - exfalso; apply N1. rewrite E. now apply in_map.
  - exfalso; apply N1. rewrite <- E. now apply in_map.
  - now apply IH.
Qed.

Lemma for_each_invariant {A : Type} (P : ledger -> Prop)
    (body : A -> ledger -> outcome) (xs : list A) :
  (forall x L L', In x xs -> body x L = Done L' -> P L -> P L') ->
  forall L L', for_each xs body L = Done L' -> P L -> P L'.
Proof.
  induction xs as [|x xs IH]; intros H L L' E HP; simpl in E.
  - now injection E as <-.
  - destruct (body x L) as [L1|L1 e] eqn:B; [|discriminate].
    apply (IH (fun y L0 L2 Hy => H y L0 L2 (or_intror Hy)) L1 L' E).
    apply (H x L L1 (or_introl eq_refl) B HP).
Qed.

Lemma undetected_stays (now content filename : text) (f : fault)
    (L L' : ledger) :
  In f INJECTED_FAULTS -> fires content f = false ->
  _analyze_test_content now content filename L = Done L' ->
  detected L f = false -> detected L' f = false.
Proof.
  intros Hf F E D. unfold _analyze_test_content in E.
  apply (for_each_invariant (fun L0 => detected L0 f = false)
           (analyze_fault now content filename) INJECTED_FAULTS)
    with (L := L); [|exact E|exact D].
  clear E D L L'. intros g L L' Hg B D.
  destruct (text_eqb (faultName f) (faultName g)) eqn:N.
  - apply text_eqb_eq in N.
    rewrite <- (catalog_name_injective f g Hf Hg N) in B.
    rewrite (analyze_fault_quiet now content filename f L Hf F) in B.
    now injection B as <-.
  - destruct (analyze_fault_keys now content filename g L Hg)
      as (L1 & E1 & _ & _ & _ & A).
    rewrite E1 in B; injection B as <-.
    unfold detected in *.
    destruct (ledger_get L (KStr (faultName f))) eqn:G0; [|discriminate].
    destruct (ledger_get L1 (KStr (faultName f))) as [|d ds] eqn:G1;
      [reflexivity|].
    exfalso. destruct (A (KStr (faultName f)) d) as [I|K].
    + rewrite G1; now left.
    + rewrite G0 in I; destruct I.
    + injection K as K. rewrite K, text_eqb_refl in N. discriminate.
Qed.

Lemma endpoint_match_detects now (f : fault) content filename path m
    (L : ledger) :
  has_indicator (faultName f) (window content m) = true ->
  detected (endpoint_match now (faultName f) content filename path m L) f = true.
Proof.
  intros I. unfold endpoint_match. rewrite I.
  destruct (filter _ (ledger_get L (KStr (faultName f)))) as [|d ds] eqn:E.
  - eapply has_method_detected, stored_has_method.
  - assert (H : In d (filter
                        (fun d0 => opt_text_eqb (d_test_method d0)
                           (_find_containing_test_method content (m_start m)))
                        (ledger_get L (KStr (faultName f)))))
      by (rewrite E; now left).
    apply filter_In in H as [H _]. unfold detected.
    destruct (ledger_get L (KStr (faultName f))); [destruct H | reflexivity].
Qed.

Lemma endpoint_reaches now content filename (f : fault)
    (a method path : text) (rx : regex) (m : re_match) (P : ledger -> Prop) :
  In f INJECTED_FAULTS -> In a (api f) ->
  split_once a = Some (method, path) ->
  compile (path_pattern path) = Some rx ->
  In m (finditer rx content) ->
  (forall L L', P L -> file_step filename L L' -> P L') ->
  (forall L, P (endpoint_match now (faultName f) content filename path m L)) ->
  forall L L', _analyze_test_content now content filename L = Done L' -> P L'.
Proof.
  intros Hf Ha S C Hm Ps H L L' E.
  unfold _analyze_test_content in E.
  apply (for_each_reaches (file_step filename) P
           (analyze_fault now content filename) INJECTED_FAULTS f
           (file_step_refl filename) (file_step_trans filename) Ps
           (fun g L0 Hg => analyze_fault_done now content filename g L0 Hg))
    with (L := L); [|exact Hf|exact E].
  clear E L L'. intros L L' E. unfold analyze_fault in E.
  apply (for_each_reaches (file_step filename) P
           (endpoint_proximity now (faultName f) content filename) (api f) a
           (file_step_refl filename) (file_step_trans filename) Ps
           (fun b L0 Hb => endpoint_proximity_done now f content filename b
                             L0 Hf Hb))
    with (L := marker_correlation now (faultName f) content filename
                 (direct_name now (faultName f) content filename L));
    [|exact Ha|exact E].
  clear E L L'. intros L L' E. unfold endpoint_proximity in E.
  rewrite S, C, (in_finditer_search rx content m Hm) in E.
  injection E as <-.
  apply (fold_left_reaches (file_step filename) P
           (fun L0 api_match =>
              endpoint_match now (faultName f) content filename path
                api_match L0)
           (finditer rx content) m
           (file_step_refl filename) (file_step_trans filename) Ps).
  - intros y L0; apply endpoint_match_step.
  - exact H.
  - exact Hm.
Qed.

Lemma detected_file_step filename (f : fault) (L L' : ledger) :
  detected L f = true -> file_step filename L L' -> detected L' f = true.
Proof. intros D (G & _); eapply detected_grows; eauto. Qed.

Lemma fired_is_detected (now content filename : text) (f : fault)
    (L L' : ledger) :
  In f INJECTED_FAULTS -> fires content f = true ->
  _analyze_test_content now content filename L = Done L' ->
  detected L' f = true.
Proof.
  intros Hf F E. unfold fires in F.
  apply orb_true_iff in F as [F|F]; [apply orb_true_iff in F as [C|M]|].
  - destruct (direct_name_full now content filename f L Hf C)
      as (L1 & E1 & D & _).
    rewrite E1 in E; now injection E as <-.
  - unfold marker_fires in M. apply andb_true_iff in M as [G X].
    apply existsb_exists in X as (m & Hm & Q). apply opt_text_eqb_eq in Q.
    eapply has_method_detected.
    apply (analyze_reaches now content filename f _ Hf
             (fun L1 L2 H HS => has_method_file_step filename _ _ L1 L2 H HS))
      with (L := L); [|exact E].
    intros L0. apply (marker_correlation_stores now _ content filename m);
      eassumption.
  - apply existsb_exists in F as (a & Ha & Q). unfold endpoint_fires in Q.
    destruct (split_once a) as [[method path]|] eqn:S; [|discriminate].
    destruct (compile (path_pattern path)) as [rx|] eqn:K; [|discriminate].
    apply existsb_exists in Q as (m & Hm & I).
    apply (endpoint_reaches now content filename f a method path rx m
             (fun L0 => detected L0 f = true) Hf Ha S K Hm)
      with (L := L); [| |exact E].
    + intros L1 L2; apply detected_file_step.
    + intros L0; now apply endpoint_match_detects.
Qed.

Lemma content_detection (now content filename : text) (f : fault)
    (L : ledger) :
  In f INJECTED_FAULTS ->
  exists L',
    _analyze_test_content now content filename L = Done L' /\
    detected L' f = detected L f || fires content f.
Proof.
  intros Hf.
  destruct (analyze_test_content_done now content filename L)
    as (L' & E & G & _).
  exists L'; split; [exact E|].
  destruct (detected L f) eqn:D; cbn [orb].
  - eapply detected_grows; eauto.
  - destruct (fires content f) eqn:F.
    + eapply fired_is_detected; eauto.
    + eapply undetected_stays; eauto.
Qed.

(** X22. Whether a catalog fault counts as detected after the analysis of an
    artifact is a function of the content and of whether it was detected
    before: it is detected exactly when it was already, or its name occurs
    in the content, or the marker guard holds and a marker pair captures
    its name, or one of its API paths occurs with an indicator in the
    window.  What else the ledger held, the file name and the clock play
    no part. *)
Theorem detection_depends_on_content_only (now content filename : text)
    (f : fault) (L : ledger) :
  In f INJECTED_FAULTS ->
  exists L',
    _analyze_test_content now content filename L = Done L' /\
    detected L' f = detected L f || fires content f.
Proof. apply content_detection. Qed.

Lemma detection_depends_on_content_only_witness :
  exists L',
    _analyze_test_content "2024-01-01 10:00:00" sample_plain_text
      "EvoMaster_sample.py" [] = Done L' /\
    detected L' sample_route_fault = false.
Proof.
  assert (Hf : In sample_route_fault INJECTED_FAULTS)
    by (do 8 right; left; reflexivity).
  assert (F : fires sample_plain_text sample_route_fault = false)
    by (vm_compute; reflexivity).
  destruct (detection_depends_on_content_only "2024-01-01 10:00:00"
              sample_plain_text "EvoMaster_sample.py" sample_route_fault []
              Hf) as (L' & E & D).
  rewrite F in D. exists L'; split; [exact E | exact D].
Defined.

(** ** Detection over a folder *)

Lemma analyze_test_file_detected now (a : analyzer)
    (file : text * file_read) (f : fault) :
  In f INJECTED_FAULTS ->
  detected (detected_faults (analyze_test_file now a file)) f =
  detected (detected_faults a) f ||
  (negb (startswith "__" (fst file) || text_eqb (fst file) "em_test_utils.py")
   && match snd file with
      | Content content => fires content f
      | Unreadable _ => false
      end).
Proof.
  intros Hf. unfold analyze_test_file.
  destruct (startswith "__" (fst file) || text_eqb (fst file) "em_test_utils.py");
    cbn [negb andb]; [now rewrite orb_false_r|].
  destruct (snd file) as [content|e];
    [|cbn [print detected_faults]; now rewrite orb_false_r].
  destruct (content_detection now content (fst file) f (detected_faults a) Hf)
    as (L' & E & D).
  rewrite E. exact D.
Qed.

Lemma fold_test_files_detected now (files : list (text * file_read))
    (f : fault) :
  In f INJECTED_FAULTS ->
  forall a,
    detected (detected_faults (fold_left (analyze_test_file now) files a)) f =
    detected (detected_faults a) f ||
    existsb
      (fun file =>
         negb (startswith "__" (fst file) ||
               text_eqb (fst file) "em_test_utils.py")
         && match snd file with
            | Content content => fires content f
            | Unreadable _ => false
            end)
      files.
Proof.
  intros Hf; induction files as [|file files IH]; intros a;
    cbn [fold_left existsb].
  - now rewrite orb_false_r.
  - rewrite IH, analyze_test_file_detected by exact Hf.
    now rewrite orb_assoc.
Qed.

Lemma existsb_filter {A : Type} (p q : A -> bool) (xs : list A) :
  existsb q (filter p xs) = existsb (fun x => p x && q x) xs.
Proof.
  induction xs as [|x xs IH]; [reflexivity|].
  cbn [filter existsb]. destruct (p x); cbn [existsb andb]; now rewrite IH.
Qed.

Lemma existsb_ext_all {A : Type} (p q : A -> bool) (xs : list A) :
  (forall x, p x = q x) -> existsb p xs = existsb q xs.
Proof.
  intros H; induction xs as [|x xs IH]; [reflexivity|].
  cbn [existsb]. now rewrite H, IH.
Qed.

Lemma existsb_permutation {A : Type} (p : A -> bool) (xs ys : list A) :
  Permutation xs ys -> existsb p xs = existsb p ys.
Proof.
  induction 1 as [|x xs ys _ IH|x y xs|xs ys zs _ IH1 _ IH2];
    cbn [existsb].
  - reflexivity.
  - now rewrite IH.
  - now destruct (p x), (p y).
  - now rewrite IH1.
Qed.

Lemma analyze_detected now (report : report_file)
    (folder : list (text * file_read)) (a : analyzer) (f : fault) :
  In f INJECTED_FAULTS ->
  detected (detected_faults (analyze now report folder a)) f =
  detected (detected_faults (_analyze_report_json now report a)) f ||
  existsb (file_fires f) folder.
Proof.
  intros Hf. unfold analyze, _count_test_cases.
  destruct (fold_count_effect
              (filter (fun f => startswith "EvoMaster_" (fst f) &&
                                endswith ".py" (skipn 10 (fst f))) folder)
              (_analyze_test_files now folder
                 (_analyze_report_json now report a))) as (-> & _).
  unfold _analyze_test_files.
  rewrite fold_test_files_detected by exact Hf.
  rewrite existsb_filter. f_equal.
  apply existsb_ext_all; intros file.
  unfold file_fires, analysed. now rewrite andb_assoc.
Qed.

(** X23. After a whole run, a catalog fault is detected exactly when the
    report scan left a record under its name or some analysed file of the
    folder fires for it; so neither the set of detected faults nor the
    detected count of the report depends on the order in which the folder
    lists its files. *)
Theorem detection_independent_of_file_order (now : text)
    (report : report_file) (folder folder' : list (text * file_read))
    (a : analyzer) (f : fault) :
  In f INJECTED_FAULTS ->
  Permutation folder folder' ->
  detected (detected_faults (analyze now report folder a)) f =
    detected (detected_faults (_analyze_report_json now report a)) f ||
    existsb (file_fires f) folder /\
  detected (detected_faults (analyze now report folder' a)) f =
    detected (detected_faults (analyze now report folder a)) f /\
  detected_count (detected_faults (analyze now report folder' a)) =
    detected_count (detected_faults (analyze now report folder a)).
Proof.
  intros Hf P.
  assert (S : forall g, In g INJECTED_FAULTS ->
                detected (detected_faults (analyze now report folder' a)) g =
                detected (detected_faults (analyze now report folder a)) g).
  { intros g Hg. rewrite !analyze_detected by exact Hg. f_equal.
    symmetry. now apply existsb_permutation. }
  split; [now apply analyze_detected|split; [now apply S|]].
  unfold detected_count. f_equal. now apply filter_ext_in.
Qed.

Lemma detection_independent_of_file_order_witness :
  detected_count
    (detected_faults
       (analyze "2024-01-01 10:00:00" ReportAbsent sample_two_files_swapped
          init)) =
  detected_count
    (detected_faults
       (analyze "2024-01-01 10:00:00" ReportAbsent sample_two_files init)).
Proof.
  assert (Hf : In sample_route_fault INJECTED_FAULTS)
    by (do 8 right; left; reflexivity).
  assert (P : Permutation sample_two_files sample_two_files_swapped)
    by apply perm_swap.
  exact (proj2 (proj2 (detection_independent_of_file_order
                         "2024-01-01 10:00:00" ReportAbsent sample_two_files
                         sample_two_files_swapped init sample_route_fault
                         Hf P))).
Defined.

(** ** No record of the structured scanner without evidence *)

Lemma evidence_field (fields : list (text * json)) key value k :
  In (key, value) fields -> evidence value k -> evidence (JDict fields) k.
Proof.
  intros I [(marker & R & H)|(node & key' & s & f & R & H)]; [left|right].
  - exists marker; split; [|exact H].
    now apply (reach_field _ fields key value).
  - exists node, key', s, f; split; [|exact H].
    now apply (reach_field _ fields key value).
Qed.

Lemma evidence_item (items : list json) item k :
  In item items -> evidence item k -> evidence (JList items) k.
Proof.
  intros I [(marker & R & H)|(node & key' & s & f & R & H)]; [left|right].
  - exists marker; split; [|exact H]. now apply (reach_item _ items item).
  - exists node, key', s, f; split; [|exact H].
    now apply (reach_item _ items item).
Qed.

Lemma for_each_adds_in {A : Type} Q (body : A -> ledger -> outcome)
    (xs : list A) :
  (forall x L, In x xs -> adds Q L (ledger_of (body x L))) ->
  forall L, adds Q L (ledger_of (for_each xs body L)).
Proof.
  induction xs as [|x xs IH]; intros H L; simpl.
  - apply adds_refl.
  - pose proof (H x L (or_introl eq_refl)) as Hx.
    destruct (body x L) as [L'|L' e]; [|exact Hx].
    eapply adds_trans; [exact Hx|].
    apply IH; intros y L0 Hy; apply H; now right.
Qed.

Lemma search_json_sound now (obj : json) :
  forall source path L,
    adds (fun k _ => evidence obj k) L
      (ledger_of (_search_json_for_faults now obj source path L)).
Proof.
  induction obj as [ | b | z | f | s | items IH | fields IH ]
    using json_nested_ind; intros source path L; try apply adds_refl.
  - cbn [_search_json_for_faults].
    set (Q := fun (k : pykey) (_ : detection) => evidence (JList items) k).
    assert (G : forall xs, (forall x, In x xs -> In x items) ->
                forall L i,
                  adds Q L
                    (ledger_of
                       ((fix each (l : list json) (i : nat) (L : ledger)
                           : outcome :=
                           match l with
                           | [] => Done L
                           | item :: rest =>
                               match _search_json_for_faults now item source
                                       (item_path path i) L with
                               | Done L' => each rest (S i) L'
                               | Raised L' e => Raised L' e
                               end
                           end) xs i L))).
    { induction xs as [|x xs IHx]; intros Sub L0 i; [apply adds_refl|].
      assert (H : adds Q L0
                    (ledger_of (_search_json_for_faults now x source
                                  (item_path path i) L0))).
      { eapply adds_weaken;
          [|apply (IH x (Sub x (or_introl eq_refl)) source (item_path path i) L0)].
        intros k d0 E; apply (evidence_item items x);
          [apply Sub; now left | exact E]. }
      destruct (_search_json_for_faults now x source (item_path path i) L0)
        as [L'|L' e]; [|exact H].
      eapply adds_trans; [exact H|].
      apply IHx; intros y Hy; apply Sub; now right. }
    apply G; auto.
  - cbn [_search_json_for_faults].
    set (Q := fun (k : pykey) (_ : detection) => evidence (JDict fields) k).
    assert (H : adds Q L (ledger_of (check_injected now fields source path L))).
    { unfold check_injected.
      destruct (equals_True (dict_get fields "isInjected")) eqn:T;
        [|apply adds_refl].
      destruct (key_of (or_default (dict_get fields "faultName")
                          (JStr "UNKNOWN"))) as [k|] eqn:K;
        [|apply adds_refl].
      apply record_adds. left. exists fields.
      split; [apply reach_here|split; [exact T | exact K]]. }
    destruct (check_injected now fields source path L) as [L1|L1 e]; [|exact H].
    eapply adds_trans; [exact H|]. clear H L.
    assert (G : forall kvs, (forall kv, In kv kvs -> In kv fields) ->
                forall L,
                  adds Q L
                    (ledger_of
                       ((fix items (kvs : list (text * json)) (L : ledger)
                           : outcome :=
                           match kvs with
                           | [] => Done L
                           | (key, value) :: rest =>
                               match
                                 match value with
                                 | JStr s =>
                                     check_value now source
                                       (child_path path key) s L
                                 | _ =>
                                     _search_json_for_faults now value source
                                       (child_path path key) L
                                 end
                               with
                               | Done L' => items rest L'
                               | Raised L' e => Raised L' e
                               end
                           end) kvs L))).
    { induction kvs as [|[key value] rest IHr]; intros Sub L;
        [apply adds_refl|].
      assert (I : In (key, value) fields) by (apply Sub; now left).
      assert (S : adds Q L
                    (ledger_of
                       match value with
                       | JStr s =>
                           check_value now source (child_path path key) s L
                       | _ =>
                           _search_json_for_faults now value source
                             (child_path path key) L
                       end)).
      { destruct value;
          try (eapply adds_weaken;
               [|apply (IH key _ I source (child_path path key) L)];
               intros k d0 E; now apply (evidence_field fields key _ k I)).
        unfold check_value. apply for_each_adds_in; intros f L0 Hf.
        destruct (contains (faultName f) s) eqn:C; [|apply adds_refl].
        apply record_adds. right. exists fields, key, s, f.
        split; [apply reach_here|].
        split; [exact I|split; [exact Hf|split; [exact C | reflexivity]]]. }
      destruct (match value with
                | JStr s => check_value now source (child_path path key) s L
                | _ => _search_json_for_faults now value source
                         (child_path path key) L
                end) as [L'|L' e]; [|exact S].
      eapply adds_trans; [exact S|].
      apply IHr; intros kv Hkv; apply Sub; now right. }
    apply G; auto.
Qed.

Lemma evidence_detected now (fields : list (text * json)) (f : fault)
    (L : ledger) :
  hashable_names (JDict fields) = true ->
  In f INJECTED_FAULTS ->
  evidence (JDict fields) (KStr (faultName f)) ->
  exists L',
    _search_json_for_faults now (JDict fields) "report.json" "" L = Done L' /\
    detected L' f = true.
Proof.
  intros Hh Hf [(marker & R & T & K)|(node & key & s & g & R & I & Hg & C & E)].
  - destruct (search_json_records now (JDict fields) "report.json" "" L Hh)
      as (L' & E & _ & M).
    exists L'; split; [exact E|].
    destruct (M marker _ R T K) as (d & Hd & _). unfold detected.
    destruct (ledger_get L' (KStr (faultName f))); [destruct Hd | reflexivity].
  - destruct (search_json_values now (JDict fields) "report.json" "" L Hh)
      as (L' & E' & _ & V).
    exists L'; split; [exact E'|].
    destruct (V node key s g R I Hg C) as (d & Hd & _).
    rewrite <- E in Hd. unfold detected.
    destruct (ledger_get L' (KStr (faultName f))); [destruct Hd | reflexivity].
Qed.

Lemma report_scan_sound (now : text) (a : analyzer)
    (fields : list (text * json)) :
  adds (fun k _ => evidence (JDict fields) k) (detected_faults a)
    (detected_faults
       (_analyze_report_json now (ReportParsed (JDict fields)) a)).
Proof.
  unfold _analyze_report_json. cbn [detected_faults].
  pose proof (search_json_sound now (JDict fields) "report.json" ""
                (detected_faults a)) as H.
  destruct (_search_json_for_faults now (JDict fields) "report.json" ""
              (detected_faults a)) as [L'|L' e];
    cbn [finish with_ledger print detected_faults ledger_of] in *; exact H.
Qed.

Lemma report_detection (now : text) (a : analyzer)
    (fields : list (text * json)) (f : fault) :
  hashable_names (JDict fields) = true ->
  In f INJECTED_FAULTS ->
  detected
    (detected_faults
       (_analyze_report_json now (ReportParsed (JDict fields)) a)) f = true <->
  detected (detected_faults a) f = true \/
  evidence (JDict fields) (KStr (faultName f)).
Proof.
  intros Hh Hf. pose proof (report_scan_sound now a fields) as A. split.
  - intros D. unfold detected in D.
    destruct (ledger_get _ (KStr (faultName f))) as [|d ds] eqn:G;
      [discriminate|].
    destruct A as (_ & _ & _ & Q).
    destruct (Q (KStr (faultName f)) d) as [I|E];
      [rewrite G; now left| |now right].
    left. unfold detected.
    destruct (ledger_get (detected_faults a) (KStr (faultName f)));
      [destruct I | reflexivity].
  - intros [D|E].
    + eapply detected_grows; [exact D | apply A].
    + destruct (evidence_detected now fields f (detected_faults a) Hh Hf E)
        as (L' & S & D).
      unfold _analyze_report_json. cbn [detected_faults]. rewrite S.
      exact D.
Qed.

(** X24. The structured scanner stores no record without evidence, for
    every report whose top level is a mapping, whether the scan completes
    or raises part-way: every record it adds under a key is due to a
    mapping of the document whose isInjected flag is true and whose fault
    name is that key, or to a string field that contains the catalog name
    the key is.  When moreover the marker names are hashable, a catalog
    fault is detected after the scan exactly when it was before or the
    document holds such evidence. *)
Theorem structured_detection_needs_evidence (now : text) (a : analyzer)
    (fields : list (text * json)) (f : fault) :
  adds (fun k _ => evidence (JDict fields) k) (detected_faults a)
    (detected_faults
       (_analyze_report_json now (ReportParsed (JDict fields)) a)) /\
  (forall k d,
     In d (ledger_get
             (detected_faults
                (_analyze_report_json now (ReportParsed (JDict fields)) a)) k) ->
     In d (ledger_get (detected_faults a) k) \/ evidence (JDict fields) k) /\
  (hashable_names (JDict fields) = true ->
   In f INJECTED_FAULTS ->
   (detected
      (detected_faults
         (_analyze_report_json now (ReportParsed (JDict fields)) a)) f = true <->
    detected (detected_faults a) f = true \/
    evidence (JDict fields) (KStr (faultName f)))).
Proof.
  pose proof (report_scan_sound now a fields) as A.
  split; [exact A|split; [apply A|]].
  intros Hh Hf. now apply report_detection.
Qed.

Lemma structured_detection_needs_evidence_witness :
  detected
    (detected_faults
       (_analyze_report_json "2024-01-01 10:00:00"
          (ReportParsed (JDict sample_report_fields)) init))
    sample_route_fault = true.
Proof.
  assert (Hh : hashable_names (JDict sample_report_fields) = true)
    by (vm_compute; reflexivity).
  assert (Hf : In sample_route_fault INJECTED_FAULTS)
    by (do 8 right; left; reflexivity).
  assert (K : key_of (marker_name sample_marker) =
              Some (KStr (faultName sample_route_fault))) by reflexivity.
  assert (T : equals_True (dict_get sample_marker "isInjected") = true)
    by reflexivity.
  apply (proj2 (proj2 (structured_detection_needs_evidence
                         "2024-01-01 10:00:00" init sample_report_fields
                         sample_route_fault)) Hh Hf).
  right; left. exists sample_marker.
  split; [exact reachable_sample|split; [exact T | exact K]].
Defined.

(** ** What a run detects *)

Lemma unscanned_report (now : text) (report : report_file) (f : fault) :
  (forall fields, report <> ReportParsed (JDict fields)) ->
  detected (detected_faults (_analyze_report_json now report init)) f = false.
Proof.
  intros N. destruct report as [|e|data]; try reflexivity.
  destruct data; try reflexivity. exfalso; now apply (N fields).
Qed.

(** X25. A run on a fresh analyzer detects a catalog fault exactly when the
    evidence for it is there.  With a report whose top level is a mapping
    and whose marker names are hashable: when the report holds a marker
    node or a string field for the fault, or an analysed file of the
    folder fires for it.  With any other report, absent, unreadable or
    with another top level: when an analysed file fires for it. *)
Theorem run_detects_exactly_the_evidence (now : text) (report : report_file)
    (folder : list (text * file_read)) (f : fault) :
  In f INJECTED_FAULTS ->
  (forall fields,
     report = ReportParsed (JDict fields) ->
     hashable_names (JDict fields) = true ->
     (detected (detected_faults (analyze now report folder init)) f = true <->
      evidence (JDict fields) (KStr (faultName f)) \/
      existsb (file_fires f) folder = true)) /\
  ((forall fields, report <> ReportParsed (JDict fields)) ->
   detected (detected_faults (analyze now report folder init)) f =
     existsb (file_fires f) folder).
Proof.
  intros Hf. split.
  - intros fields -> Hh. rewrite analyze_detected by exact Hf.
    rewrite orb_true_iff, (report_detection now init fields f Hh Hf).
    change (detected (detected_faults init) f) with false.
    intuition discriminate.
  - intros N. rewrite analyze_detected by exact Hf.
    now rewrite unscanned_report.
Qed.

Lemma run_detects_exactly_the_evidence_witness :
  detected
    (detected_faults
       (analyze "2024-01-01 10:00:00" ReportAbsent sample_two_files init))
    sample_route_fault = true.
Proof.
  assert (Hf : In sample_route_fault INJECTED_FAULTS)
    by (do 8 right; left; reflexivity).
  assert (N : forall fields, ReportAbsent <> ReportParsed (JDict fields))
    by discriminate.
  assert (F : existsb (file_fires sample_route_fault) sample_two_files = true)
    by (vm_compute; reflexivity).
  rewrite (proj2 (run_detects_exactly_the_evidence "2024-01-01 10:00:00"
                    ReportAbsent sample_two_files sample_route_fault Hf) N).
  exact F.
Defined.

(** ** Reading a count off a row *)

Lemma uint_digits (d : Decimal.uint) :
  forallb is_digit (T (NilEmpty.string_of_uint d)) = true.
Proof. induction d; cbn [NilEmpty.string_of_uint T list_ascii_of_string forallb]; auto. Qed.

Lemma uint_value (d : Decimal.uint) :
  forall acc,
    fold_left (fun acc c => 10 * acc + (nat_of_ascii c - 48))
      (T (NilEmpty.string_of_uint d)) acc = Nat.of_uint_acc d acc.
Proof.
  induction d; intros acc;
    cbn [NilEmpty.string_of_uint T list_ascii_of_string fold_left
         Nat.of_uint_acc];
    try reflexivity;
    fold (T (NilEmpty.string_of_uint d)); rewrite IHd, Nat.tail_mul_spec;
    f_equal; cbn; lia.
Qed.

Lemma str_of_nat_digits (n : nat) : forallb is_digit (str_of_nat n) = true.
Proof. apply uint_digits. Qed.

Lemma numeral_value_str (n : nat) : numeral_value (str_of_nat n) = Some n.
Proof.
  unfold numeral_value.
  destruct (str_of_nat_head n) as (c & t & E & _).
  rewrite str_of_nat_digits. rewrite E at 1.
  unfold str_of_nat. rewrite uint_value.
  change (Nat.of_uint_acc (Nat.to_uint n) 0) with (Nat.of_uint (Nat.to_uint n)).
  now rewrite DecimalNat.Unsigned.of_to.
Qed.

Lemma digit_not_space (c : ascii) :
  is_digit c = true -> Ascii.eqb c " " = false.
Proof.
  intros H; destruct (Ascii.eqb c " ") eqn:E; [|reflexivity].
  apply Ascii.eqb_eq in E; subst c; discriminate H.
Qed.

Lemma drop_spaces_repeat (k : nat) (s : text) :
  drop_spaces (repeat " "%char k ++ s) = drop_spaces s.
Proof. induction k; [reflexivity|]. cbn [repeat app drop_spaces]. exact IHk. Qed.

Lemma take_word_digits (w rest : text) :
  forallb is_digit w = true -> take_word (w ++ " "%char :: rest) = w.
Proof.
  induction w as [|c w IH]; intros F; [reflexivity|].
  cbn [forallb] in F; apply andb_true_iff in F as [Fc F].
  cbn [app take_word]. rewrite (digit_not_space c Fc). now rewrite IH.
Qed.

Lemma rev_repeat (c : ascii) (k : nat) : rev (repeat c k) = repeat c k.
Proof.
  induction k; [reflexivity|]. cbn [repeat rev]. rewrite IHk.
  clear IHk; induction k; [reflexivity|]. cbn [repeat app]. now rewrite IHk.
Qed.

Lemma forallb_rev {A : Type} (p : A -> bool) (xs : list A) :
  forallb p (rev xs) = forallb p xs.
Proof.
  induction xs as [|x xs IH]; [reflexivity|].
  cbn [rev forallb]. rewrite forallb_app, IH. cbn [forallb].
  now rewrite andb_true_r, andb_comm.
Qed.

(** The last column of a row that ends in a left-justified count. *)
Lemma last_column_count (before : text) (n width : nat) :
  last_column (before ++ " " ++ ljust width (str_of_nat n)) = str_of_nat n.
Proof.
  unfold last_column, ljust.
  rewrite !rev_app_distr, rev_repeat, <- !app_assoc, drop_spaces_repeat.
  change (rev (T " ")) with [" "%char]. cbn [app].
  assert (F : forallb is_digit (rev (str_of_nat n)) = true)
    by (rewrite forallb_rev; apply str_of_nat_digits).
  destruct (rev (str_of_nat n)) as [|c w] eqn:E.
  - exfalso. destruct (str_of_nat_head n) as (c & t & E' & _).
    rewrite E' in E. cbn [rev] in E. now destruct (rev t).
  - assert (Fc : is_digit c = true)
      by (cbn [forallb] in F; now apply andb_true_iff in F).
    cbn [app drop_spaces]. rewrite (digit_not_space c Fc).
    change (c :: w ++ " "%char :: rev before)
      with ((c :: w) ++ " "%char :: rev before).
    rewrite take_word_digits by exact F.
    rewrite <- E. apply rev_involutive.
Qed.

Lemma shown_count_row (L : ledger) (f : fault) :
  shown_count (statistics_row L f) =
  Some (length (ledger_get L (KStr (faultName f)))).
Proof.
  unfold shown_count, statistics_row.
  rewrite !app_assoc, <- (app_assoc _ " "), last_column_count.
  apply numeral_value_str.
Qed.

Lemma shown_count_totals (L : ledger) :
  shown_count (totals_row L) = Some (total_records L).
Proof.
  unfold shown_count, totals_row.
  rewrite !app_assoc, <- (app_assoc _ " "), last_column_count.
  apply numeral_value_str.
Qed.

Lemma shown_sum_rows (L : ledger) :
  shown_sum (statistics_rows L) = catalog_records L.
Proof.
  rewrite statistics_rows_map. unfold shown_sum, catalog_records.
  generalize INJECTED_FAULTS; intros fs.
  induction fs as [|f fs IH]; [reflexivity|].
  cbn [map]. rewrite shown_count_row.
  change (list_sum (?x :: ?l)) with (x + list_sum l).
  cbn [names_records fold_right].
  fold (names_records L fs). now rewrite <- IH.
Qed.

(** ** The report, line by line *)

Lemma field_line_no_digit (label : text) (v : option text) :
  digit_head label = false -> label <> [] ->
  filter digit_head (field_line label v) = [].
Proof.
  intros H N; destruct v as [[|c t]|]; try reflexivity.
  destruct label as [|a label]; [now contradict N|].
  cbn [field_line filter app digit_head] in *. now rewrite H.
Qed.

Lemma fault_heading_digit (num : nat) (f : fault) :
  filter digit_head (fault_heading num f) = [fault_heading_line (num, f)].
Proof.
  unfold fault_heading, fault_heading_line. cbn [fst snd].
  destruct (str_of_nat_head num) as (c & t & E & Hc).
  cbn [filter]. rewrite E. cbn [app digit_head].
  unfold is_digit. rewrite Hc. reflexivity.
Qed.

Lemma detection_lines_no_digit (e : nat * detection) :
  filter digit_head (detection_lines e) = [].
Proof.
  destruct e as [i d]; unfold detection_lines.
  rewrite !filter_app.
  rewrite !field_line_no_digit by (reflexivity || discriminate).
  destruct (truthy (d_test_class d));
    [|rewrite field_line_no_digit by (reflexivity || discriminate)];
    reflexivity.
Qed.

Lemma flat_map_no_digit {A : Type} (block : A -> list text) (xs : list A) :
  (forall x, filter digit_head (block x) = []) ->
  filter digit_head (flat_map block xs) = [].
Proof.
  intros H; induction xs as [|x xs IH]; [reflexivity|].
  cbn [flat_map]. now rewrite filter_app, H, IH.
Qed.

Lemma detected_block_digit (num : nat) (f : fault) (ds : list detection) :
  filter digit_head (detected_block num f ds) = [fault_heading_line (num, f)].
Proof.
  unfold detected_block.
  rewrite !filter_app, fault_heading_digit.
  rewrite (flat_map_no_digit detection_lines) by apply detection_lines_no_digit.
  destruct (5 <? length ds)%nat; reflexivity.
Qed.

Lemma undetected_block_digit (num : nat) (f : fault) :
  filter digit_head (undetected_block num f) = [fault_heading_line (num, f)].
Proof.
  unfold undetected_block. now rewrite filter_app, fault_heading_digit.
Qed.

Lemma flat_map_headings {A : Type} (block : A -> list text)
    (heading : A -> text) (xs : list A) :
  (forall x, filter digit_head (block x) = [heading x]) ->
  filter digit_head (flat_map block xs) = map heading xs.
Proof.
  intros H; induction xs as [|x xs IH]; [reflexivity|].
  cbn [flat_map map]. now rewrite filter_app, H, IH.
Qed.

Lemma statistics_rows_no_digit (L : ledger) :
  filter digit_head (map (statistics_row L) INJECTED_FAULTS) = [].
Proof.
  assert (H : forall f, In f INJECTED_FAULTS ->
                digit_head (statistics_row L f) = false).
  { intros f Hf. destruct (catalog_name_head f Hf) as (t & E).
    unfold statistics_row, ljust. rewrite E. reflexivity. }
  revert H; generalize INJECTED_FAULTS; intros fs H.
  induction fs as [|f fs IH]; [reflexivity|].
  cbn [map filter]. rewrite (H f (or_introl eq_refl)).
  apply IH; intros g Hg; apply H; now right.
Qed.

Lemma report_rendered (now experiment_name test_folder : text)
    (a : analyzer) (lines : list text) (ret : nat * nat) :
  generate_report now experiment_name test_folder a = Some (lines, ret) ->
  exists cells,
    generate_progress_bar
      (detection_percentage (detected_count (detected_faults a)) total_faults)
      50 = Some ("["%char :: cells) /\
    lines =
      report_layout now experiment_name test_folder a ("["%char :: cells) /\
    ret = (detected_count (detected_faults a), total_faults).
Proof.
  intros H. unfold generate_report in H.
  destruct (generate_progress_bar
              (detection_percentage (detected_count (detected_faults a))
                 total_faults) 50) as [bar|] eqn:Hbar; [|discriminate].
  pose proof (f_equal (fun o : option (list text * (nat * nat)) =>
                         match o with
                         | Some (l, _) => l
                         | None => []
                         end) H) as E1.
  pose proof (f_equal (fun o : option (list text * (nat * nat)) =>
                         match o with
                         | Some (_, r) => r
                         | None => (0, 0)
                         end) H) as E2.
  cbv beta iota in E1, E2. clear H.
  assert (B : exists cells, bar = "["%char :: cells).
  { unfold generate_progress_bar in Hbar.
    destruct (filled_cells _ 50); [|discriminate].
    injection Hbar as <-. eexists; reflexivity. }
  destruct B as (cells & ->). exists cells.
  split; [reflexivity|split; [|now symmetry]].
  rewrite <- E1. unfold report_layout, fault_sections.
  rewrite detected_loop_blocks, undetected_loop_blocks, statistics_rows_map.
  cbn [snd]. reflexivity.
Qed.

Lemma layout_headings (now experiment_name test_folder : text)
    (a : analyzer) (cells : text) :
  filter digit_head
    (report_layout now experiment_name test_folder a ("["%char :: cells)) =
  map fault_heading_line
    (enumerate 1 (filter (detected (detected_faults a)) INJECTED_FAULTS)) ++
  map fault_heading_line
    (enumerate 1
       (filter (fun g => negb (detected (detected_faults a) g))
          INJECTED_FAULTS)).
Proof.
  unfold report_layout. rewrite !filter_app.
  rewrite statistics_rows_no_digit.
  rewrite (flat_map_headings
             (fun nf => detected_block (fst nf) (snd nf)
                          (ledger_get (detected_faults a)
                             (KStr (faultName (snd nf)))))
             fault_heading_line)
    by (intros [n g]; apply detected_block_digit).
  rewrite (flat_map_headings
             (fun nf => undetected_block (fst nf) (snd nf))
             fault_heading_line)
    by (intros [n g]; apply undetected_block_digit).
  replace (filter digit_head
             (summary_lines now experiment_name test_folder a
                (detection_percentage
                   (detected_count (detected_faults a)) total_faults)
                ("["%char :: cells))) with (@nil text) by reflexivity.
  destruct (detected_count (detected_faults a) =? 0)%nat;
    destruct (total_faults - detected_count (detected_faults a) =? 0)%nat;
    cbn [app]; rewrite ?app_nil_r; reflexivity.
Qed.

Lemma enumerate_filter_length {A : Type} (p : A -> bool) (xs : list A) :
  forall n,
    length (filter (fun nx => p (snd nx)) (enumerate n xs)) =
    length (filter p xs).
Proof.
  induction xs as [|x xs IH]; intros n; [reflexivity|].
  cbn [enumerate filter snd]. destruct (p x); cbn [length]; now rewrite IH.
Qed.

(** C7. Whenever the report is rendered, its lines are, in this order: the
    summary; under the heading DETECTED FAULTS, the blocks of the catalog
    faults for which the ledger holds a record, in catalog order and
    numbered from 1; under the heading UNDETECTED FAULTS, the blocks of
    the other catalog faults, in catalog order and numbered from 1; and
    under the heading DETECTION STATISTICS one row for each catalog
    fault, in catalog order, followed by the totals row.  Every block
    begins with the heading of its fault, its number and its name, and
    these headings are the only lines of the report that begin with a
    digit; every row begins with the name of its fault and shows DETECTED
    or NOT DETECTED and the number of records under that name.  So each
    catalog fault has exactly one row and exactly one block, in the
    detected section when the ledger holds a record under its name and in
    the undetected section otherwise.  A detected block renders [min 5 n]
    of its [n] detections and has a note with [n - 5] exactly when
    [n > 5]. *)
Theorem report_lists_every_fault (now experiment_name test_folder : text)
    (a : analyzer) (f : fault) (lines : list text) (ret : nat * nat) :
  In f INJECTED_FAULTS ->
  generate_report now experiment_name test_folder a = Some (lines, ret) ->
  let L := detected_faults a in
  let shown := filter (detected L) INJECTED_FAULTS in
  let missed := filter (fun g => negb (detected L g)) INJECTED_FAULTS in
  (exists cells,
     lines =
       report_layout now experiment_name test_folder a ("["%char :: cells)) /\
  ret = (detected_count L, total_faults) /\
  filter digit_head lines =
    map fault_heading_line (enumerate 1 shown) ++
    map fault_heading_line (enumerate 1 missed) /\
  length (filter (fun nf => text_eqb (faultName (snd nf)) (faultName f))
            (enumerate 1 shown)) = (if detected L f then 1 else 0) /\
  length (filter (fun nf => text_eqb (faultName (snd nf)) (faultName f))
            (enumerate 1 missed)) = (if detected L f then 0 else 1) /\
  (forall num g ds,
     detected_block num g ds =
       [fault_heading_line (num, g);
        "   Service:       " ++ service g;
        "   API:           " ++ join ", " (api g);
        "   Description:   " ++ description g;
        "   Detections:    " ++ str_of_nat (length ds) ++ " time(s)";
        T ""] ++
       flat_map detection_lines (enumerate 1 (firstn 5 ds)) ++
       (if (5 <? length ds)%nat
        then ["   ... and " ++ str_of_nat (length ds - 5) ++
              " more detection(s)"; T ""]
        else []) ++
       [repeat "-"%char 80; T ""]) /\
  (forall num g,
     undetected_block num g =
       [fault_heading_line (num, g);
        "   Service:       " ++ service g;
        "   API:           " ++ join ", " (api g);
        "   Description:   " ++ description g;
        T "   Status:        NOT DETECTED";
        T "";
        T "   Trigger Conditions:";
        T "     - Check if the API endpoint was tested";
        T "     - Verify authentication is working for admin endpoints";
        T "     - Consider increasing test duration";
        T "";
        repeat "-"%char 80;
        T ""]) /\
  (forall g,
     statistics_row L g =
       ljust 45 (faultName g) ++ " " ++
       ljust 15 (if detected L g then T "DETECTED" else T "NOT DETECTED") ++
       " " ++
       ljust 10 (str_of_nat (length (ledger_get L (KStr (faultName g)))))) /\
  statistics_rows L = map (statistics_row L) INJECTED_FAULTS /\
  length (filter (startswith (ljust 45 (faultName f))) (statistics_rows L)) = 1 /\
  snd (detected_loop L) =
    flat_map (fun nf => detected_block (fst nf) (snd nf)
                          (ledger_get L (KStr (faultName (snd nf)))))
      (enumerate 1 shown) /\
  snd (undetected_loop L) =
    flat_map (fun nf => undetected_block (fst nf) (snd nf)) (enumerate 1 missed) /\
  (detected L f = true <-> ledger_get L (KStr (faultName f)) <> []) /\
  occurrences (faultName f) shown = (if detected L f then 1 else 0) /\
  occurrences (faultName f) missed = (if detected L f then 0 else 1) /\
  (forall num ds,
     length (filter is_detection_heading (detected_block num f ds)) =
       Nat.min 5 (length ds) /\
     length (filter is_remainder_note (detected_block num f ds)) =
       (if (5 <? length ds)%nat then 1 else 0) /\
     (5 < length ds ->
      In ("   ... and " ++ str_of_nat (length ds - 5) ++ " more detection(s)")
         (detected_block num f ds))).
Proof.
  intros Hf H L shown missed.
  destruct (report_rendered now experiment_name test_folder a lines ret H)
    as (cells & _ & E & R).
  assert (Os : occurrences (faultName f) shown = (if detected L f then 1 else 0))
    by (apply occurrences_filter; [apply catalog_names_NoDup | exact Hf]).
  assert (Om : occurrences (faultName f) missed =
               (if detected L f then 0 else 1)).
  { unfold missed; rewrite (occurrences_filter (fun g => negb (detected L g)))
      by (apply catalog_names_NoDup || exact Hf).
    destruct (detected L f); reflexivity. }
  split; [now exists cells|].
  split; [exact R|].
  split; [rewrite E; apply layout_headings|].
  split; [rewrite (enumerate_filter_length
                     (fun g => text_eqb (faultName g) (faultName f)));
          exact Os|].
  split; [rewrite (enumerate_filter_length
                     (fun g => text_eqb (faultName g) (faultName f)));
          exact Om|].
  split; [reflexivity|].
  split; [reflexivity|].
  split.
  { intros g. unfold statistics_row, detected.
    now destruct (ledger_get L (KStr (faultName g))). }
  split; [apply statistics_rows_map|].
  split.
  { rewrite statistics_rows_map.
    rewrite (filter_map_length _ (fun g => text_eqb (faultName g) (faultName f))).
    + now apply catalog_occurrences.
    + intros g Hg; now apply row_name_column. }
  split; [now rewrite detected_loop_blocks|].
  split; [now rewrite undetected_loop_blocks|].
  split; [apply detected_nonempty|].
  split; [exact Os|].
  split; [exact Om|].
  intros num ds; apply detected_block_counts.
Qed.

Lemma report_lists_every_fault_witness :
  exists lines ret,
    generate_report "2024-01-01 10:00:00" "experiment" "./generated_tests"
      sample_analyzer = Some (lines, ret) /\
    In (T "1. INVALID_ROUTE_ID_FAULT") lines /\
    length (filter (startswith (ljust 45 "INVALID_ROUTE_ID_FAULT"))
              (statistics_rows (detected_faults sample_analyzer))) = 1 /\
    occurrences "INVALID_ROUTE_ID_FAULT"
      (filter (detected (detected_faults sample_analyzer)) INJECTED_FAULTS) = 1 /\
    occurrences "INVALID_ROUTE_ID_FAULT"
      (filter (fun g => negb (detected (detected_faults sample_analyzer) g))
         INJECTED_FAULTS) = 0.
Proof.
  assert (Hf : In sample_fault INJECTED_FAULTS)
    by (right; right; right; left; reflexivity).
  assert (H : exists lines ret,
             generate_report "2024-01-01 10:00:00" "experiment"
               "./generated_tests" sample_analyzer = Some (lines, ret))
    by (vm_compute; eexists; eexists; reflexivity).
  destruct H as (lines & ret & H).
  pose proof (report_lists_every_fault "2024-01-01 10:00:00" "experiment"
                "./generated_tests" sample_analyzer sample_fault lines ret
                Hf H)
    as (_ & _ & Hd & _ & _ & _ & _ & _ & _ & Hrow & _ & _ & _ & Hshown &
        Hmissed & _).
  exists lines, ret. split; [exact H|].
  split; [|split; [exact Hrow | split; [exact Hshown | exact Hmissed]]].
  assert (I : In (T "1. INVALID_ROUTE_ID_FAULT") (filter digit_head lines))
    by (rewrite Hd; vm_compute; left; reflexivity).
  apply filter_In in I. exact (proj1 I).
Defined.

(** C10. The totals row shows the sum of the record counts over every
    key of the ledger, while each row of the table shows the number of
    records under the name of one catalog fault and the detected count
    ranges over the catalog; the rows and the totals row are the lines
    that end the report before its footer.  So when the ledger holds
    records under a key that is no catalog name (as the UNKNOWN sentinel
    of the structured scanner), the number shown in the totals row
    strictly exceeds the sum of the numbers shown in the rows. *)
Theorem totals_row_counts_every_key (L : ledger) (k : pykey)
    (ds : list detection) :
  In (k, ds) L -> ds <> [] ->
  (forall f, In f INJECTED_FAULTS -> k <> KStr (faultName f)) ->
  totals_row L =
    ljust 45 "TOTAL" ++ " " ++ str_of_nat (detected_count L) ++ "/" ++
    ljust 14 (str_of_nat total_faults) ++ " " ++
    ljust 10 (str_of_nat (total_records L)) /\
  total_records L = list_sum (map (fun kv => length (snd kv)) L) /\
  catalog_records L =
    list_sum (map (fun f => length (ledger_get L (KStr (faultName f))))
                INJECTED_FAULTS) /\
  detected_count L <= total_faults /\
  catalog_records L < total_records L /\
  statistics_rows L = map (statistics_row L) INJECTED_FAULTS /\
  (forall f,
     statistics_row L f =
       ljust 45 (faultName f) ++ " " ++
       ljust 15 (if detected L f then T "DETECTED" else T "NOT DETECTED") ++
       " " ++
       ljust 10 (str_of_nat (length (ledger_get L (KStr (faultName f)))))) /\
  (forall f,
     shown_count (statistics_row L f) =
       Some (length (ledger_get L (KStr (faultName f))))) /\
  shown_count (totals_row L) = Some (total_records L) /\
  shown_sum (statistics_rows L) = catalog_records L /\
  shown_sum (statistics_rows L) < total_records L /\
  (forall now experiment_name test_folder a lines ret,
     detected_faults a = L ->
     generate_report now experiment_name test_folder a = Some (lines, ret) ->
     exists before,
       lines =
         before ++ statistics_rows L ++
         [repeat "-"%char 70; totals_row L; T "";
          repeat "="%char 80; T "END OF REPORT"; repeat "="%char 80]).
Proof.
  intros I D O.
  assert (Lt : catalog_records L < total_records L)
    by apply (names_records_lt L INJECTED_FAULTS k ds catalog_names_NoDup I D O).
  split; [reflexivity|].
  split.
  { clear; induction L as [|kv L' IH]; simpl; auto. }
  split.
  { unfold catalog_records; generalize INJECTED_FAULTS; intros fs.
    induction fs; simpl; auto. }
  split; [apply detected_count_le|].
  split; [exact Lt|].
  split; [apply statistics_rows_map|].
  split.
  { intros f. unfold statistics_row, detected.
    now destruct (ledger_get L (KStr (faultName f))). }
  split; [intros f; apply shown_count_row|].
  split; [apply shown_count_totals|].
  split; [apply shown_sum_rows|].
  split; [rewrite shown_sum_rows; exact Lt|].
  intros now experiment_name test_folder a lines ret <- H.
  destruct (report_rendered now experiment_name test_folder a lines ret H)
    as (cells & _ & E & _).
  rewrite E, statistics_rows_map. unfold report_layout.
  eexists. rewrite !app_assoc. reflexivity.
Qed.

Lemma totals_row_counts_every_key_witness :
  ledger_get sample_unknown_ledger (KStr "UNKNOWN") <> [] /\
  catalog_records sample_unknown_ledger = 0 /\
  total_records sample_unknown_ledger = 1 /\
  catalog_records sample_unknown_ledger < total_records sample_unknown_ledger /\
  shown_count (totals_row sample_unknown_ledger) = Some 1 /\
  shown_sum (statistics_rows sample_unknown_ledger) = 0 /\
  shown_sum (statistics_rows sample_unknown_ledger) <
    total_records sample_unknown_ledger.
Proof.
  assert (I : In (KStr (T "UNKNOWN"),
                  ledger_get sample_unknown_ledger (KStr "UNKNOWN"))
                sample_unknown_ledger) by (left; reflexivity).
  assert (D : ledger_get sample_unknown_ledger (KStr "UNKNOWN") <> [])
    by (vm_compute; discriminate).
  assert (O : forall f, In f INJECTED_FAULTS ->
                        KStr (T "UNKNOWN") <> KStr (faultName f)).
  { intros f Hf; simpl in Hf.
    repeat (destruct Hf as [<-|Hf]; [discriminate|]); easy. }
  pose proof (totals_row_counts_every_key sample_unknown_ledger
                (KStr "UNKNOWN") _ I D O)
    as (_ & _ & _ & _ & Hlt & _ & _ & _ & Ht & Hs & Hlt' & _).
  split; [exact D|split; [reflexivity|split; [reflexivity|split; [exact Hlt|]]]].
  split; [exact Ht|split; [exact Hs | exact Hlt']].
Defined.
